(** * MTFS exchange engine: pool, basket and risk chaincodes

    A shallow embedding of the TypeScript chaincodes of the MTFS repository
    (LiquidityPool, LiquidityProviderContract, BasketContract,
    RiskManagementContract, OracleContract and Token) and the properties of
    their swap, liquidity, fee, price and balance arithmetic.

    Numbers.  A JavaScript [number] is an IEEE 754 binary64 value.  The
    contracts are written once over an interface [Number] of the operations
    they use, and the interface is instantiated twice: with Rocq's primitive
    binary64 floats (the arithmetic of the running code) and with the
    rationals [Qc] (exact arithmetic, in which the algebraic identities of the
    specification are stated).  A property proved for every [Number] holds for
    both.

    Ledger.  The world state of a channel is a record of typed maps, one per
    chaincode and key family; a value is stored as the record that
    [JSON.stringify] writes and [JSON.parse] reads back.  A transaction is a
    function from the world state to either an error (nothing is committed) or
    a return value and the new world state.  Over a provider registry keyed by
    user name no transaction of the modelled contracts reads a key after
    writing it, so reading through the threaded state and reading the
    committed snapshot coincide.  The record that a transaction stores is the
    record it hands to [JSON.stringify]; it is read back as it was written when
    its numbers are finite ([JSON.stringify] writes NaN and the infinities as
    [null]).  A range query lists the keys in byte order. *)

From Stdlib Require Import ZArith QArith Qcanon Qcabs Lqa Uint63.
From Stdlib Require Import Floats.PrimFloat Floats.SpecFloat Floats.FloatOps Floats.FloatAxioms.
From stdpp Require Import base option list gmap strings numbers pretty sorting.

Set Default Proof Using "Type".

(** ** Numbers *)

Declare Scope num_scope.
Delimit Scope num_scope with num.

Class Number (N : Type) := {
  lit : Q → N;                (* a numeric literal, written as a fraction *)
  add : N → N → N;
  sub : N → N → N;
  mul : N → N → N;
  div : N → N → N;
  neg : N → N;                (* unary minus *)
  Math_abs : N → N;
  Math_min : N → N → N;
  lt : N → N → bool;          (* a < b *)
  le : N → N → bool;          (* a <= b *)
  strict_eq : N → N → bool;   (* a === b *)
}.

Notation "a + b" := (add a b) : num_scope.
Notation "a - b" := (sub a b) : num_scope.
Notation "a * b" := (mul a b) : num_scope.
Notation "a / b" := (div a b) : num_scope.
Notation "a <? b" := (lt a b) : num_scope.
Notation "a >? b" := (lt b a) : num_scope.
Notation "a <=? b" := (le a b) : num_scope.
Notation "- a" := (neg a) : num_scope.
Notation "a === b" := (strict_eq a b) (at level 70, no associativity) : num_scope.

(** Exact arithmetic: the rationals in canonical form.  A quotient by zero is
    zero there, where binary64 gives an infinity or NaN; the statements in
    exact arithmetic keep the divisors away from zero. *)
#[export] Instance Number_Qc : Number Qc := {|
  lit := Q2Qc;
  add := Qcplus;
  sub := Qcminus;
  mul := Qcmult;
  div := Qcdiv;
  neg := Qcopp;
  Math_abs := Qcabs;
  Math_min := λ a b, if decide (a ≤ b)%Qc then a else b;
  lt := λ a b, bool_decide (a < b)%Qc;
  le := λ a b, bool_decide (a ≤ b)%Qc;
  strict_eq := λ a b, bool_decide (a = b);
|}.

(** binary64: an integer converts exactly below 2^53, and the quotient of two
    such integers is the double nearest to the fraction, which is the value
    JavaScript gives to the decimal literal. *)
Definition float_of_Z (z : Z) : float :=
  match z with
  | Z0 => PrimFloat.zero
  | Zpos p => PrimFloat.of_uint63 (Uint63.of_Z (Zpos p))
  | Zneg p => PrimFloat.opp (PrimFloat.of_uint63 (Uint63.of_Z (Zpos p)))
  end.

Definition float_lit (q : Q) : float :=
  PrimFloat.div (float_of_Z (Qnum q)) (float_of_Z (Zpos (Qden q))).

(** [Math.min]: NaN if an argument is NaN, and -0 is below +0. *)
Definition float_min (a b : float) : float :=
  if PrimFloat.is_nan a then a
  else if PrimFloat.is_nan b then b
  else if PrimFloat.ltb a b then a
  else if PrimFloat.ltb b a then b
  else if PrimFloat.get_sign a then a else b.

#[export] Instance Number_float : Number float := {|
  lit := float_lit;
  add := PrimFloat.add;
  sub := PrimFloat.sub;
  mul := PrimFloat.mul;
  div := PrimFloat.div;
  neg := PrimFloat.opp;
  Math_abs := PrimFloat.abs;
  Math_min := float_min;
  lt := PrimFloat.ltb;
  le := PrimFloat.leb;
  strict_eq := PrimFloat.eqb;
|}.

(** ** Errors and outcomes *)

Inductive error :=
  | SyntaxError                          (* JSON.parse of an empty buffer *)
  | TypeError                            (* a property read on null *)
  | Error (message : string)             (* throw new Error(message) *)
  | ChaincodeError (message : string)    (* invokeChaincode rejected *)
  | OutOfModel (what : string).          (* outside the model, such as an array read past its end *)

Inductive result (A : Type) :=
  | Ok (a : A)
  | Err (e : error).
Arguments Ok {A} a.
Arguments Err {A} e.

(** What [ctx.stub.invokeChaincode] gives the caller: the callee's response
    with its status, or a rejected promise. *)
Inductive outcome (P : Type) :=
  | Rejected (message : string)
  | Response (status : Z) (payload : P).
Arguments Rejected {P} message.
Arguments Response {P} status payload.

(** [JSON.parse(buffer.toString())] of what [getState] returned.  A missing key
    reads as the empty buffer, which is not JSON; a stored record parses to an
    object, never to [null]. *)
Inductive parsed (A : Type) :=
  | JNull
  | JObject (a : A).
Arguments JNull {A}.
Arguments JObject {A} a.

Definition JSON_parse {A} (bytes : option A) : result (parsed A) :=
  match bytes with
  | None => Err SyntaxError
  | Some a => Ok (JObject a)
  end.

(** [JSON.parse(text)] of a text that a client hands to a transaction: a text
    that is not JSON ([None]), the text [null], or the text of a record. *)
Definition JSON_parse_text {A} (text : option (parsed A)) : result (parsed A) :=
  match text with
  | None => Err SyntaxError
  | Some v => Ok v
  end.

(** ** Ledger records *)

Record Reserve (N : Type) := {
  tokenA : N;
  tokenB : N;
}.
Arguments tokenA {N} _.
Arguments tokenB {N} _.
Arguments Build_Reserve {N} _ _.

Record LiquidityProvider (N : Type) := {
  user : string;
  amount : N;
  earnedFees : N;
}.
Arguments user {N} _.
Arguments amount {N} _.
Arguments earnedFees {N} _.
Arguments Build_LiquidityProvider {N} _ _ _.

Record UserContribution (N : Type) := {
  userId : string;
  contributionA : N;
  contributionB : N;
  lpTokens : N;
}.
Arguments userId {N} _.
Arguments contributionA {N} _.
Arguments contributionB {N} _.
Arguments lpTokens {N} _.
Arguments Build_UserContribution {N} _ _ _ _.

Record Basket (N : Type) := {
  ID : string;
  TokenAmount : N;
  Tokens : list string;
  Reserves : list N;
  Buffers : list N;
  Weights : list N;
  Prices : list N;
}.
Arguments ID {N} _.
Arguments TokenAmount {N} _.
Arguments Tokens {N} _.
Arguments Reserves {N} _.
Arguments Buffers {N} _.
Arguments Weights {N} _.
Arguments Prices {N} _.
Arguments Build_Basket {N} _ _ _ _ _ _ _.

(** Assignments to the fields of a parsed record; the other fields stay. *)
Definition set_earnedFees {N} (provider : LiquidityProvider N) (v : N) : LiquidityProvider N :=
  Build_LiquidityProvider (user provider) (amount provider) v.

Definition set_amount {N} (provider : LiquidityProvider N) (v : N) : LiquidityProvider N :=
  Build_LiquidityProvider (user provider) v (earnedFees provider).

Definition set_Reserves {N} (basket : Basket N) (v : list N) : Basket N :=
  Build_Basket (ID basket) (TokenAmount basket) (Tokens basket) v
    (Buffers basket) (Weights basket) (Prices basket).

Definition set_Prices {N} (basket : Basket N) (v : list N) : Basket N :=
  Build_Basket (ID basket) (TokenAmount basket) (Tokens basket) (Reserves basket)
    (Buffers basket) (Weights basket) v.

Definition set_contribution {N} (u : UserContribution N) (a b l : N) : UserContribution N :=
  Build_UserContribution (userId u) a b l.

(** An invocation of a token chaincode: [invokeChaincode(chaincode,
    [fn, sender, recipient, quantity.toString()], "mychannel")]. *)
Record TokenCall (N : Type) := {
  chaincode : string;
  fn : string;
  sender : string;
  recipient : string;
  quantity : N;
}.
Arguments chaincode {N} _.
Arguments fn {N} _.
Arguments sender {N} _.
Arguments recipient {N} _.
Arguments quantity {N} _.
Arguments Build_TokenCall {N} _ _ _ _ _.

(** The world state of the channel, and the token invocations of the running
    transaction in call order. *)
Record World (N : Type) := {
  pool_reserve : option (Reserve N);                      (* LiquidityPool, key "ReserveWallet" *)
  pool_contributions : gmap string (UserContribution N);  (* LiquidityPool, keys "UserContribution:" + userId *)
  baskets : gmap string (Basket N);                       (* BasketContract, key = basket ID *)
  providers : gmap string (LiquidityProvider N);          (* LiquidityProviderContract, key = user *)
  calls : list (TokenCall N);
}.
Arguments pool_reserve {N} _.
Arguments pool_contributions {N} _.
Arguments baskets {N} _.
Arguments providers {N} _.
Arguments calls {N} _.
Arguments Build_World {N} _ _ _ _ _.

(** The chaincodes outside the model: the price oracle and the token ledgers.
    Their answers depend on the committed state only. *)
Record Chaincodes (N : Type) := {
  oracle : string → string → string → outcome N;             (* chaincode, function, currency *)
  token : string → string → string → string → N → outcome unit;  (* chaincode, function, from, to, amount *)
}.
Arguments oracle {N} _ _ _ _.
Arguments token {N} _ _ _ _ _ _.

(** ** Transactions *)

Definition Tx (N A : Type) : Type := World N → result (A * World N).

Definition ret {N A} (a : A) : Tx N A := λ w, Ok (a, w).

Definition bind {N A B} (m : Tx N A) (k : A → Tx N B) : Tx N B :=
  λ w, match m w with
       | Ok (a, w') => k a w'
       | Err e => Err e
       end.

Definition throw {N A} (e : error) : Tx N A := λ _, Err e.

Definition lift {N A} (r : result A) : Tx N A :=
  λ w, match r with
       | Ok a => Ok (a, w)
       | Err e => Err e
       end.

Definition get {N} : Tx N (World N) := λ w, Ok (w, w).

Definition modify {N} (f : World N → World N) : Tx N unit := λ w, Ok (tt, f w).

Declare Scope tx_scope.
Delimit Scope tx_scope with tx.
Notation "x <- m ;; k" := (bind m (λ x, k))
  (at level 100, m at next level, right associativity) : tx_scope.
Notation "m ;; k" := (bind m (λ _, k))
  (at level 100, right associativity) : tx_scope.

(** The ledger after a transaction: an error commits nothing. *)
Definition commit {N A} (w : World N) (r : result (A * World N)) : World N :=
  match r with
  | Ok (_, w') => w'
  | Err _ => w
  end.

Definition set_pool_reserve {N} (r : Reserve N) (w : World N) : World N :=
  Build_World (Some r) (pool_contributions w) (baskets w) (providers w) (calls w).

Definition set_pool_contribution {N} (k : string) (u : UserContribution N) (w : World N) : World N :=
  Build_World (pool_reserve w) (<[k := u]> (pool_contributions w)) (baskets w) (providers w) (calls w).

Definition set_basket {N} (k : string) (b : Basket N) (w : World N) : World N :=
  Build_World (pool_reserve w) (pool_contributions w) (<[k := b]> (baskets w)) (providers w) (calls w).

Definition set_provider {N} (k : string) (p : LiquidityProvider N) (w : World N) : World N :=
  Build_World (pool_reserve w) (pool_contributions w) (baskets w) (<[k := p]> (providers w)) (calls w).

Definition log_call {N} (c : TokenCall N) (w : World N) : World N :=
  Build_World (pool_reserve w) (pool_contributions w) (baskets w) (providers w) (calls w ++ [c]).

(** [await ctx.stub.invokeChaincode(cc, [f, from, to, amount.toString()],
    "mychannel")] on a token chaincode; the response status is returned. *)
Definition invoke_token {N} (env : Chaincodes N) (cc f from to : string) (amt : N) : Tx N Z :=
  (modify (log_call (Build_TokenCall cc f from to amt)) ;;
   match token env cc f from to amt with
   | Rejected m => throw (ChaincodeError m)
   | Response status _ => ret status
   end)%tx.

(** [await ctx.stub.invokeChaincode(cc, [f, currency], "mychannel")] on the
    oracle; the payload is the price that [parseFloat] reads from it. *)
Definition invoke_oracle {N} (env : Chaincodes N) (cc f currency : string) : Tx N (Z * N) :=
  match oracle env cc f currency with
  | Rejected m => throw (ChaincodeError m)
  | Response status price => ret (status, price)
  end.

(** [v.field] on a parsed value: reading a property of [null] throws. *)
Definition object_of {N A} (v : parsed A) : Tx N A :=
  match v with
  | JNull => throw TypeError
  | JObject a => ret a
  end.

Definition error_message (e : error) : string :=
  match e with
  | SyntaxError => "SyntaxError"
  | TypeError => "TypeError"
  | Error m => m
  | ChaincodeError m => m
  | OutOfModel m => m
  end.

(** [await ctx.stub.invokeChaincode(...)] on a chaincode of the model, on the
    same channel: the callee runs on the transaction's state; its return value
    comes back with status 200, and an error it throws rejects the call. *)
Definition invoke_local {N A} (callee : Tx N A) : Tx N (Z * A) :=
  λ w, match callee w with
       | Ok (a, w') => Ok ((200%Z, a), w')
       | Err e => Err (ChaincodeError (error_message e))
       end.

(** A number [x] among the arguments of [invokeChaincode] travels as the text
    [x.toString()] and is read back by the [number] parameter of the callee.
    The text of NaN is refused there, which rejects the invocation.  A finite
    number arrives as itself, except that -0, whose text is "0", arrives as 0:
    adding 0 says both.  What the parameter does with the text of an infinity
    is outside the model.  NaN is the number not equal to itself, and [x - x]
    is 0 for the finite numbers only. *)
Definition sendable {N} `{Number N} (x : N) : bool :=
  (x === x)%num && (x - x === lit 0)%num.

Definition number_argument {N} `{Number N} (x : N) : Tx N N :=
  if negb (x === x)%num
  then throw (ChaincodeError "The argument is not a number")
  else if negb (x - x === lit 0)%num
  then throw (OutOfModel "an infinite number as argument")
  else ret (x + lit 0)%num.

(** [getStateByRange("", "")] on the state of a chaincode: its keys and
    values, listed by key, the keys compared byte by byte. *)
Definition key_le {A} (a b : string * A) : Prop := String.leb a.1 b.1 = true.

#[export] Instance key_le_dec {A} (a b : string * A) : Decision (key_le a b) :=
  decide (String.leb a.1 b.1 = true).

Definition getStateByRange {A} (state : gmap string A) : list (string * A) :=
  merge_sort key_le (map_to_list state).

(** [for (const x of xs) { await body(x); }] *)
Fixpoint for_of {N A} (xs : list A) (body : A → Tx N unit) : Tx N unit :=
  match xs with
  | [] => ret tt
  | x :: xs' => (body x ;; for_of xs' body)%tx
  end.

(** The double quote, and the message of the basket contracts for a ledger
    without the key "basket1". *)
Definition dquote : string := String (Ascii.ascii_of_nat 34) EmptyString.

Definition basket_missing : string :=
  "The basket " +:+ dquote +:+ "basket1" +:+ dquote +:+ " does not exist".

(** [xs[i] = v] while a loop fills an array from index 0 upward: an index
    within the array is overwritten and the index just past the end appends.
    Further out JavaScript leaves holes; the model stops there. *)
Definition assign {N A} (xs : list A) (i : nat) (v : A) : Tx N (list A) :=
  if bool_decide (i < length xs)%nat then ret (<[i := v]> xs)
  else if bool_decide (i = length xs) then ret (xs ++ [v])
  else throw (OutOfModel "array assignment past the end").

(** ** LiquidityProviderContract *)

Module LiquidityProviderContract.
Section contract.
Context {N : Type} `{Number N}.
Local Open Scope num_scope.

Definition AddLiquidityProvider (user : string) (amount : N) : Tx N unit :=
  let provider := Build_LiquidityProvider user amount (lit 0) in
  modify (set_provider user provider).

Definition UpdateEarnedFees (user : string) (fee : N) : Tx N unit :=
  (w <- get ;;
   match providers w !! user with
   | None => throw (Error ("Liquidity provider " +:+ user +:+ " does not exist"))
   | Some providerData =>
       provider <- lift (JSON_parse (Some providerData)) ;;
       provider <- object_of provider ;;
       let provider := set_earnedFees provider (earnedFees provider + fee) in
       modify (set_provider user provider)
   end)%tx.

Definition UpdateLiquidityProvider (user : string) (newAmount : N) : Tx N unit :=
  (w <- get ;;
   match providers w !! user with
   | None => throw (Error ("Liquidity provider " +:+ user +:+ " does not exist"))
   | Some providerData =>
       provider <- lift (JSON_parse (Some providerData)) ;;
       provider <- object_of provider ;;
       let provider := set_amount provider newAmount in
       modify (set_provider user provider)
   end)%tx.

Definition GetLiquidityProvider (user : string) : Tx N (LiquidityProvider N) :=
  (w <- get ;;
   match providers w !! user with
   | None => throw (Error ("Liquidity provider " +:+ user +:+ " does not exist"))
   | Some providerData =>
       provider <- lift (JSON_parse (Some providerData)) ;;
       object_of provider
   end)%tx.

(** Every provider of the chaincode's state, in the order of the keys. *)
Definition GetAllLiquidityProviders : Tx N (list (LiquidityProvider N)) :=
  (w <- get ;;
   ret (getStateByRange (providers w)).*2)%tx.

End contract.
End LiquidityProviderContract.

(** ** LiquidityPool *)

Module LiquidityPool.
Section contract.
Context {N : Type} `{Number N}.
Variable Math_sqrt : N → N.
Variable env : Chaincodes N.
Variables tokenAContract tokenBContract : string.
Local Open Scope num_scope.

Definition RESERVE_WALLET_KEY : string := "ReserveWallet".
Definition USER_CONTRIBUTION_PREFIX : string := "UserContribution:".
Definition oracleContractName : string := "OracleContract".
Definition FEE_RATE : N := lit (3 # 1000).

Definition Init : Tx N unit :=
  let initialReserve := Build_Reserve (lit 0) (lit 0) in
  modify (set_pool_reserve initialReserve).

Definition getPriceFromOracle (token : string) : Tx N N :=
  (priceResponse <- invoke_oracle env oracleContractName "GetCurrencyPrice" token ;;
   let '(status, payload) := priceResponse in
   if bool_decide (status ≠ 200%Z)
   then throw (Error ("Failed to fetch price for " +:+ token))
   else ret payload)%tx.

Definition AddLiquidity (userId : string) (amountA amountB : N) : Tx N bool :=
  (priceA <- getPriceFromOracle "tokenA" ;;
   priceB <- getPriceFromOracle "tokenB" ;;
   if Math_abs (amountA * priceA - amountB * priceB) >? lit (1 # 100)
   then throw (Error "Provided amounts don't match the current price ratio.")
   else
     invoke_token env tokenAContract "transfer" userId RESERVE_WALLET_KEY amountA ;;
     invoke_token env tokenBContract "transfer" userId RESERVE_WALLET_KEY amountB ;;
     w <- get ;;
     totalReserve <- lift (JSON_parse (pool_reserve w)) ;;
     totalReserve <- object_of totalReserve ;;
     let lpTokensToMint :=
       if (tokenA totalReserve === lit 0) || (tokenB totalReserve === lit 0)
       then Math_sqrt (amountA * amountB)
       else Math_min (amountA / tokenA totalReserve) (amountB / tokenB totalReserve) in
     let totalReserve :=
       Build_Reserve (tokenA totalReserve + amountA) (tokenB totalReserve + amountB) in
     modify (set_pool_reserve totalReserve) ;;
     let userContributionKey := USER_CONTRIBUTION_PREFIX +:+ userId in
     w <- get ;;
     userContribution <- lift (JSON_parse (pool_contributions w !! userContributionKey)) ;;
     let userContribution :=
       match userContribution with
       | JNull =>                                   (* if (!userContribution) *)
           Build_UserContribution userId amountA amountB lpTokensToMint
       | JObject u =>
           set_contribution u
             (contributionA u + amountA) (contributionB u + amountB)
             (lpTokens u + lpTokensToMint)
       end in
     modify (set_pool_contribution userContributionKey userContribution) ;;
     ret true)%tx.

Definition distributeFees (fee : N) : Tx N unit :=
  (liquidityProvidersResponse <-
      invoke_local LiquidityProviderContract.GetAllLiquidityProviders ;;
   let '(status, liquidityProviders) := liquidityProvidersResponse in
   if bool_decide (status ≠ 200%Z)
   then throw (Error "Failed to fetch liquidity providers.")
   else
     let totalLiquidity :=
       foldl (λ totalLiquidity provider, totalLiquidity + amount provider)
         (lit 0) liquidityProviders in
     for_of liquidityProviders (λ provider,
       let distributionAmount := (amount provider / totalLiquidity) * fee in
       argument <- number_argument distributionAmount ;;
       invoke_local (LiquidityProviderContract.UpdateEarnedFees (user provider) argument) ;;
       ret tt))%tx.

Definition Swap (userId inputToken : string) (amountIn : N) : Tx N N :=
  (w <- get ;;
   reserve <- lift (JSON_parse (pool_reserve w)) ;;
   reserve <- object_of reserve ;;
   let '(reserve, amountOut) :=
     if bool_decide (inputToken = "tokenA") then
       let invariant := tokenA reserve * tokenB reserve in
       let reserve_tokenA := tokenA reserve + amountIn in
       let amountOut := tokenB reserve - invariant / reserve_tokenA in
       (Build_Reserve reserve_tokenA (tokenB reserve - amountOut), amountOut)
     else
       let invariant := tokenA reserve * tokenB reserve in
       let reserve_tokenB := tokenB reserve + amountIn in
       let amountOut := tokenA reserve - invariant / reserve_tokenB in
       (Build_Reserve (tokenA reserve - amountOut) reserve_tokenB, amountOut) in
   let fee := amountOut * FEE_RATE in
   let amountOut := amountOut - fee in
   distributeFees fee ;;
   (if bool_decide (inputToken = "tokenA") then
      invoke_token env tokenAContract "transfer" userId RESERVE_WALLET_KEY amountIn ;;
      invoke_token env tokenBContract "transfer" RESERVE_WALLET_KEY userId amountOut
    else
      invoke_token env tokenBContract "transfer" userId RESERVE_WALLET_KEY amountIn ;;
      invoke_token env tokenAContract "transfer" RESERVE_WALLET_KEY userId amountOut) ;;
   modify (set_pool_reserve reserve) ;;
   ret amountOut)%tx.

Definition RemoveLiquidity (userId : string) (lpAmount : N) : Tx N bool :=
  (w <- get ;;
   totalReserve <- lift (JSON_parse (pool_reserve w)) ;;
   let userContributionKey := USER_CONTRIBUTION_PREFIX +:+ userId in
   userContribution <- lift (JSON_parse (pool_contributions w !! userContributionKey)) ;;
   match userContribution with
   | JNull => throw (Error "Insufficient LP tokens.")   (* !userContribution *)
   | JObject userContribution =>
       if lpTokens userContribution <? lpAmount
       then throw (Error "Insufficient LP tokens.")
       else
         let proportion := lpAmount / lpTokens userContribution in
         let amountA := contributionA userContribution * proportion in
         let amountB := contributionB userContribution * proportion in
         let feeA := amountA * lit (3 # 1000) in
         let feeB := amountB * lit (3 # 1000) in
         invoke_token env tokenAContract "transfer" RESERVE_WALLET_KEY userId (amountA - feeA) ;;
         invoke_token env tokenBContract "transfer" RESERVE_WALLET_KEY userId (amountB - feeB) ;;
         totalReserve <- object_of totalReserve ;;
         let totalReserve :=
           Build_Reserve (tokenA totalReserve - amountA) (tokenB totalReserve - amountB) in
         modify (set_pool_reserve totalReserve) ;;
         let userContribution :=
           set_contribution userContribution
             (contributionA userContribution - amountA)
             (contributionB userContribution - amountB)
             (lpTokens userContribution - lpAmount) in
         modify (set_pool_contribution userContributionKey userContribution) ;;
         ret true
   end)%tx.

Definition GetReserve (token : string) : Tx N N :=
  (w <- get ;;
   reserve <- lift (JSON_parse (pool_reserve w)) ;;
   reserve <- object_of reserve ;;
   if bool_decide (token = "tokenA") then ret (tokenA reserve)
   else if bool_decide (token = "tokenB") then ret (tokenB reserve)
   else throw (Error "Invalid token identifier"))%tx.

End contract.
End LiquidityPool.

(** ** BasketContract *)

Module BasketContract.
Section contract.
Context {N : Type} `{Number N}.
Variable env : Chaincodes N.
Local Open Scope num_scope.

Definition reserveWallet : string := "reserveWallet".

(** [xs.indexOf(x)]; [None] stands for -1. *)
Fixpoint indexOf (xs : list string) (x : string) : option nat :=
  match xs with
  | [] => None
  | y :: ys => if bool_decide (y = x) then Some 0 else S <$> indexOf ys x
  end.

(** [xs[i]] for [i] within the array.  Past the end JavaScript reads
    [undefined] and goes on with NaN; the model stops there. *)
Definition at_index (xs : list N) (i : nat) : Tx N N :=
  match xs !! i with
  | Some x => ret x
  | None => throw (OutOfModel "array index past the end")
  end.

(** The two nested loops that compute [D_before] and [D_after]:
    [D += Reserves[i]] and then, for every [j] other than [i],
    [D *= 1 + Reserves[i] / Reserves[j]]. *)
Definition invariant (Reserves : list N) : N :=
  foldl (λ D ir,
           foldl (λ D jr,
                    if bool_decide (ir.1 ≠ jr.1)
                    then D * (lit 1 + ir.2 / jr.2)
                    else D)
             (D + ir.2) (imap pair Reserves))
    (lit 0) (imap pair Reserves).

(** The returned text interpolates [amount], [fromCBDC], [toAmount] and
    [toCBDC]; the model returns the four values. *)
Definition SwapCBDCs (amount : N) (fromCBDC toCBDC user : string)
  : Tx N (N * string * N * string) :=
  (w <- get ;;
   basket <- lift (JSON_parse (baskets w !! "basket1")) ;;
   basket <- object_of basket ;;
   match indexOf (Tokens basket) fromCBDC, indexOf (Tokens basket) toCBDC with
   | Some fromIndex, Some toIndex =>
       let D_before := invariant (Reserves basket) in
       from_reserve <- at_index (Reserves basket) fromIndex ;;
       let Reserves := <[fromIndex := from_reserve - amount]> (Reserves basket) in
       let D_after := invariant Reserves in
       let toAmount := D_before - D_after in
       to_reserve <- at_index Reserves toIndex ;;
       let Reserves := <[toIndex := to_reserve + toAmount]> Reserves in
       fromCBDCDecrease <- invoke_token env "alpha" "Transfer" user reserveWallet amount ;;
       if bool_decide (fromCBDCDecrease ≠ 200%Z)
       then throw (Error "CBDC transfer from user failed.")
       else
         toCBDCIncrease <- invoke_token env "alpha" "Transfer" reserveWallet user toAmount ;;
         if bool_decide (toCBDCIncrease ≠ 200%Z)
         then throw (Error "CBDC transfer to user failed.")
         else
           modify (set_basket "basket1" (set_Reserves basket Reserves)) ;;
           ret (amount, fromCBDC, toAmount, toCBDC)
   | _, _ =>
       throw (Error "One or both provided CBDCs are not supported in the basket.")
   end)%tx.

Definition RemoveLiquidity (percentage : N) (user : string) : Tx N unit :=
  (if (percentage <=? lit 0) || (percentage >? lit 100)
   then throw (Error "Invalid percentage. Must be between 0 and 100.")
   else
     w <- get ;;
     basket <- lift (JSON_parse (baskets w !! "basket1")) ;;
     providerData <- invoke_local (LiquidityProviderContract.GetLiquidityProvider user) ;;
     let provider := providerData.2 in
     invoke_token env "alpha" "Transfer" reserveWallet user (earnedFees provider) ;;
     argument <- number_argument (- earnedFees provider) ;;
     invoke_local (LiquidityProviderContract.UpdateEarnedFees user argument) ;;
     match basket with
     | JNull => throw (OutOfModel "a null basket is written back")
     | JObject basket => modify (set_basket "basket1" basket)
     end)%tx.

Definition oracleContractName : string := "OracleContract".

(** [initBasket] is the text handed to [JSON.parse]: a text that is not JSON,
    such as the empty text, the text [null], or the text of a basket record,
    which is written under the record's [ID].  The text of any other JSON
    value, which has no [ID], is no input of the model. *)
Definition InitBasket (initBasket : option (parsed (Basket N))) : Tx N unit :=
  (basket <- lift (JSON_parse_text initBasket) ;;
   basket <- object_of basket ;;
   modify (set_basket (ID basket) basket))%tx.

(** The returned text is that of the stored record. *)
Definition ReadBasket : Tx N (Basket N) :=
  (w <- get ;;
   match baskets w !! "basket1" with
   | None => throw (Error basket_missing)
   | Some basketJSON => ret basketJSON
   end)%tx.

(** The body of [for (let i = 0; i < basket.Tokens.length; i++)] of
    [UpdateBasketPrices], on the tokens from index [i] on. *)
Fixpoint prices_loop (tokens : list string) (i : nat) (Prices : list N) : Tx N (list N) :=
  match tokens with
  | [] => ret Prices
  | token :: rest =>
      (priceResponse <- invoke_oracle env oracleContractName "GetCurrencyPrice" token ;;
       if bool_decide (priceResponse.1 ≠ 200%Z)
       then throw (Error ("Failed to fetch price for " +:+ token))
       else
         Prices <- assign Prices i priceResponse.2 ;;
         prices_loop rest (S i) Prices)%tx
  end.

Definition UpdateBasketPrices : Tx N unit :=
  (w <- get ;;
   match baskets w !! "basket1" with
   | None => throw (Error basket_missing)
   | Some basketJSON =>
       basket <- lift (JSON_parse (Some basketJSON)) ;;
       basket <- object_of basket ;;
       Prices <- prices_loop (Tokens basket) 0 (Prices basket) ;;
       modify (set_basket "basket1" (set_Prices basket Prices))
   end)%tx.

Definition UpdateReserves (updatedReserves : list N) : Tx N unit :=
  (w <- get ;;
   match baskets w !! "basket1" with
   | None => throw (Error basket_missing)
   | Some basketJSON =>
       basket <- lift (JSON_parse (Some basketJSON)) ;;
       basket <- object_of basket ;;
       modify (set_basket "basket1" (set_Reserves basket updatedReserves))
   end)%tx.

(** The body of [for (let i = 0; i < basket.Tokens.length; i++)] of
    [AddLiquidity], on the tokens and amounts from index [i] on; the two
    arrays have the same length there. *)
Fixpoint liquidity_loop (user : string) (tokens : list string) (amounts : list N)
    (i : nat) (Reserves : list N) : Tx N (list N) :=
  match tokens, amounts with
  | token :: tokens, amount :: amounts =>
      (tokenTransfer <- invoke_token env token "Transfer" user reserveWallet amount ;;
       if bool_decide (tokenTransfer ≠ 200%Z)
       then throw (Error ("Transfer for " +:+ token +:+ " failed."))
       else
         reserve <- at_index Reserves i ;;
         liquidity_loop user tokens amounts (S i) (<[i := reserve + amount]> Reserves))%tx
  | _, _ => ret Reserves
  end.

Definition AddLiquidity (amounts : list N) (user : string) : Tx N unit :=
  (w <- get ;;
   basket <- lift (JSON_parse (baskets w !! "basket1")) ;;
   basket <- object_of basket ;;
   if bool_decide (length amounts ≠ length (Tokens basket))
   then throw (Error "Mismatch in the number of provided amounts and supported tokens.")
   else
     Reserves <- liquidity_loop user (Tokens basket) amounts 0 (Reserves basket) ;;
     modify (set_basket "basket1" (set_Reserves basket Reserves)))%tx.

End contract.
End BasketContract.

(** ** RiskManagementContract *)

(** The contract with the oracle-backed volatility check. *)
Module RiskManagementContract.
Section contract.
Context {N : Type} `{Number N}.
Variable env : Chaincodes N.
Local Open Scope num_scope.

(** The body of [for (let i = 0; i < basket.Tokens.length; i++)], on the
    tokens from index [i] on. *)
Fixpoint volatility_loop (volatilityThreshold : N) (oracleContractName : string)
    (tokens : list string) : Tx N bool :=
  match tokens with
  | [] => ret true
  | token :: rest =>
      (currentPriceResponse <-
         invoke_oracle env oracleContractName "GetCurrencyPrice" token ;;
       previousPriceResponse <-
         invoke_oracle env oracleContractName "GetPreviousCurrencyPrice" token ;;
       if bool_decide (currentPriceResponse.1 ≠ 200%Z)
          || bool_decide (previousPriceResponse.1 ≠ 200%Z)
       then throw (Error ("Failed to fetch prices for " +:+ token))
       else
         let currentPrice := currentPriceResponse.2 in
         let previousPrice := previousPriceResponse.2 in
         let change := Math_abs ((currentPrice - previousPrice) / previousPrice) in
         if change >? volatilityThreshold
         then ret false
         else volatility_loop volatilityThreshold oracleContractName rest)%tx
  end.

Definition CheckAssetVolatility (volatilityThreshold : N) (oracleContractName : string)
  : Tx N bool :=
  (w <- get ;;
   basket <- lift (JSON_parse (baskets w !! "basket1")) ;;
   basket <- object_of basket ;;
   volatility_loop volatilityThreshold oracleContractName (Tokens basket))%tx.

(** [for (const reserve of basket.Reserves) if (reserve < threshold) return
    false;] and [return true] after the loop. *)
Fixpoint threshold_loop (threshold : N) (Reserves : list N) : bool :=
  match Reserves with
  | [] => true
  | reserve :: rest =>
      if reserve <? threshold then false else threshold_loop threshold rest
  end.

Definition CheckReserveThreshold (threshold : N) : Tx N bool :=
  (w <- get ;;
   match baskets w !! "basket1" with
   | None => throw (Error basket_missing)
   | Some basketJSON =>
       basket <- lift (JSON_parse (Some basketJSON)) ;;
       basket <- object_of basket ;;
       ret (threshold_loop threshold (Reserves basket))
   end)%tx.

(** [for (const reserve of basket.Reserves) if (reserve / totalValue >
    exposureLimit) return false;] and [return true] after the loop. *)
Fixpoint exposure_loop (exposureLimit totalValue : N) (Reserves : list N) : bool :=
  match Reserves with
  | [] => true
  | reserve :: rest =>
      if reserve / totalValue >? exposureLimit then false
      else exposure_loop exposureLimit totalValue rest
  end.

Definition CheckBasketExposure (exposureLimit : N) : Tx N bool :=
  (w <- get ;;
   basket <- lift (JSON_parse (baskets w !! "basket1")) ;;
   basket <- object_of basket ;;
   let totalValue := foldl (λ a b, a + b) (lit 0) (Reserves basket) in
   ret (exposure_loop exposureLimit totalValue (Reserves basket)))%tx.

End contract.
End RiskManagementContract.

(** The contract of [risk/chaincode], whose volatility check is a placeholder. *)
Module RiskManagementPlaceholder.
Section contract.
Context {N : Type}.

Definition CheckAssetVolatility : Tx N bool := ret true.

End contract.
End RiskManagementPlaceholder.

(** ** OracleContract *)

(** The oracle keeps the price of a currency as the text it was given, under
    the currency's name.  Its ledger is a map of its own; the identity of the
    caller's organisation, [ctx.clientIdentity.getMSPID()], is an argument. *)
Module OracleContract.

Definition AUTHORIZED_MSP : string := "TrustedOrgMSP".

(** [putState]: writing the empty value deletes the key. *)
Definition putState (key value : string) (ledger : gmap string string) : gmap string string :=
  if bool_decide (value = EmptyString) then delete key ledger else <[key := value]> ledger.

(** [bytes && bytes.length > 0] on what [getState] returned. *)
Definition present (bytes : option string) : bool :=
  match bytes with
  | Some value => bool_decide (value ≠ EmptyString)
  | None => false
  end.

Definition Init (ledger : gmap string string) : result (unit * gmap string string) :=
  Ok (tt, ledger).

Definition AddCurrency (mspid currency price : string) (ledger : gmap string string)
  : result (unit * gmap string string) :=
  if bool_decide (mspid ≠ AUTHORIZED_MSP)
  then Err (Error "You are not authorized to add a currency")
  else
    let existingPrice := ledger !! currency in
    if present existingPrice
    then Err (Error ("Currency " +:+ currency +:+ " already exists"))
    else Ok (tt, putState currency price ledger).

Definition SetCurrencyPrice (mspid currency price : string) (ledger : gmap string string)
  : result (unit * gmap string string) :=
  if bool_decide (mspid ≠ AUTHORIZED_MSP)
  then Err (Error "You are not authorized to set the price")
  else
    let existingPrice := ledger !! currency in
    if negb (present existingPrice)
    then Err (Error ("Currency " +:+ currency +:+ " does not exist"))
    else Ok (tt, putState currency price ledger).

Definition GetCurrencyPrice (currency : string) (ledger : gmap string string)
  : result (string * gmap string string) :=
  let price := ledger !! currency in
  if negb (present price)
  then Err (Error ("No price set for currency: " +:+ currency))
  else Ok (default EmptyString price, ledger).

(** The contract as the other chaincodes invoke it with a function name and a
    currency: [GetCurrencyPrice] answers with status 200 and the price that
    [parseFloat] reads from the stored text, or rejects the call with its
    error; [Init], [AddCurrency] and [SetCurrencyPrice] take another number of
    arguments and are rejected, with a message the model does not spell out;
    any other name is not a transaction of the contract. *)
Definition chaincode {N} (parseFloat : string → N) (ledger : gmap string string)
    (fn currency : string) : outcome N :=
  if bool_decide (fn = "GetCurrencyPrice") then
    match GetCurrencyPrice currency ledger with
    | Ok (price, _) => Response 200 (parseFloat price)
    | Err e => Rejected (error_message e)
    end
  else if bool_decide (fn ∈ ["Init"; "AddCurrency"; "SetCurrencyPrice"]) then
    Rejected "wrong number of arguments"
  else Rejected ("You've asked to invoke a function that does not exist: " +:+ fn).

End OracleContract.

(** ** Token *)

(** The token keeps its name, symbol and decimals as texts, and the total
    supply, the balance of each account and the allowance of each spender as
    the decimal text of a number, the last two under a composite key of the
    account names.  The model keeps the numbers that [parseInt] reads from
    these texts: an integer, or NaN for a text without digits and for "NaN".
    An amount argument is the number that [parseInt] reads from its text.
    Integers are those that binary64 holds exactly, up to 2^53 in absolute
    value; an integer beyond leaves the model.  Events are not modelled, and
    the caller's identity, which only [TransferFrom] uses, is an argument. *)
Module Token.

Inductive number :=
  | NaN
  | Int (z : Z).

#[export] Instance number_eq_dec : EqDecision number.
Proof. solve_decision. Defined.

Record Ledger := {
  name : string;                              (* key "name"; the empty text when absent *)
  symbol : string;                            (* key "symbol" *)
  decimals : string;                          (* key "decimals" *)
  totalSupply : option number;                (* key "totalSupply" *)
  balances : gmap string number;              (* keys balance/account *)
  allowances : gmap (string * string) number; (* keys allowance/owner/spender *)
}.

Definition state (A : Type) : Type := Ledger → result (A * Ledger).

Definition ret {A} (a : A) : state A := λ l, Ok (a, l).

Definition bind {A B} (m : state A) (k : A → state B) : state B :=
  λ l, match m l with
       | Ok (a, l') => k a l'
       | Err e => Err e
       end.

Definition throw {A} (e : error) : state A := λ _, Err e.

Definition get : state Ledger := λ l, Ok (l, l).

Definition modify (f : Ledger → Ledger) : state unit := λ l, Ok (tt, f l).

Declare Scope token_scope.
Delimit Scope token_scope with token.
Notation "x <- m ;; k" := (bind m (λ x, k))
  (at level 100, m at next level, right associativity) : token_scope.
Notation "m ;; k" := (bind m (λ _, k))
  (at level 100, right associativity) : token_scope.
Local Open Scope token_scope.

Definition set_balance (account : string) (v : number) (l : Ledger) : Ledger :=
  Build_Ledger (name l) (symbol l) (decimals l) (totalSupply l)
    (<[account := v]> (balances l)) (allowances l).

Definition set_allowance (owner spender : string) (v : number) (l : Ledger) : Ledger :=
  Build_Ledger (name l) (symbol l) (decimals l) (totalSupply l)
    (balances l) (<[(owner, spender) := v]> (allowances l)).

Definition set_totalSupply (v : number) (l : Ledger) : Ledger :=
  Build_Ledger (name l) (symbol l) (decimals l) (Some v) (balances l) (allowances l).

(** An integer that binary64 holds exactly, as are its neighbours. *)
Definition exact (z : Z) : bool := bool_decide (- 2 ^ 53 ≤ z ≤ 2 ^ 53)%Z.

(** A number read by [parseInt], or computed: in the model when it is NaN or
    an exact integer. *)
Definition number_of (n : number) : state number :=
  match n with
  | NaN => ret NaN
  | Int z => if exact z then ret (Int z)
             else throw (OutOfModel "an integer beyond 2^53")
  end.

(** [n.toString()], also in a template literal. *)
Definition toString (n : number) : string :=
  match n with
  | NaN => "NaN"
  | Int z => pretty z
  end.

(** [a < b] on numbers: false when either is NaN. *)
Definition lt (a b : number) : bool :=
  match a, b with
  | Int x, Int y => bool_decide (x < y)%Z
  | _, _ => false
  end.

(** [a + b] and [a - b] on numbers. *)
Definition plus (a b : number) : state number :=
  match a, b with
  | Int x, Int y => number_of (Int (x + y))
  | _, _ => ret NaN
  end.

Definition minus (a b : number) : state number :=
  match a, b with
  | Int x, Int y => number_of (Int (x - y))
  | _, _ => ret NaN
  end.

(** [c = a + b; if (a !== c - b || b !== c - a) throw ...; return c]: on
    exact integers with an exact sum the test passes; a NaN differs from
    every number, itself included. *)
Definition add (a b : number) : state number :=
  c <- plus a b ;;
  match c with
  | NaN =>
      throw (Error ("Math: addition overflow occurred " +:+ toString a
                      +:+ " + " +:+ toString b))
  | Int _ => ret c
  end.

(** [c = a - b; if (a !== c + b || b !== a - c) throw ...; return c]. *)
Definition sub (a b : number) : state number :=
  c <- minus a b ;;
  match c with
  | NaN =>
      throw (Error ("Math: subtraction overflow occurred " +:+ toString a
                      +:+ " - " +:+ toString b))
  | Int _ => ret c
  end.

Definition CheckInitialized : state bool :=
  l <- get ;;
  if bool_decide (name l = EmptyString)
  then throw (Error "contract options need to be set before calling any function, call Initialize() to initialize contract")
  else ret true.

(** [putState] of an empty text leaves the key without a value. *)
Definition InitLedger (name' symbol' decimals' : string) : state bool :=
  l <- get ;;
  if bool_decide (name l ≠ EmptyString)
  then throw (Error "Contract is already initialized")
  else
    modify (λ l, Build_Ledger name' symbol' decimals'
                   (totalSupply l) (balances l) (allowances l)) ;;
    ret true.

Definition TokenName : state string :=
  CheckInitialized ;; l <- get ;; ret (name l).

Definition TokenSymbol : state string :=
  CheckInitialized ;; l <- get ;; ret (symbol l).

Definition TokenDecimals : state string :=
  CheckInitialized ;; l <- get ;; ret (decimals l).

(** The returned text is that of the stored number, and empty when no total
    supply is stored: [None]. *)
Definition TotalSupply : state (option number) :=
  CheckInitialized ;; l <- get ;; ret (totalSupply l).

Definition BalanceOf (account : string) : state number :=
  CheckInitialized ;;
  l <- get ;;
  match balances l !! account with
  | None => throw (Error ("the account " +:+ account +:+ " does not exist"))
  | Some balance => ret balance
  end.

Definition Allowance (owner spender : string) : state number :=
  CheckInitialized ;;
  l <- get ;;
  match allowances l !! (owner, spender) with
  | None =>
      throw (Error ("the allowance for " +:+ spender +:+ " from " +:+ owner
                      +:+ " does not exist"))
  | Some allowance => ret allowance
  end.

Definition _transfer (from to : string) (value : number) : state bool :=
  if bool_decide (from = to)
  then throw (Error "cannot transfer to and from same client account")
  else
    valueInt <- number_of value ;;
    if lt valueInt (Int 0)
    then throw (Error "transfer amount cannot be negative")
    else
      l <- get ;;
      match balances l !! from with
      | None => throw (Error ("client account " +:+ from +:+ " has no balance"))
      | Some fromCurrentBalance =>
          fromCurrentBalance <- number_of fromCurrentBalance ;;
          if lt fromCurrentBalance valueInt
          then throw (Error ("client account " +:+ from +:+ " has insufficient funds."))
          else
            toCurrentBalance <-
              match balances l !! to with
              | None => ret (Int 0)
              | Some toCurrentBalance => number_of toCurrentBalance
              end ;;
            fromUpdatedBalance <- sub fromCurrentBalance valueInt ;;
            toUpdatedBalance <- add toCurrentBalance valueInt ;;
            modify (set_balance from fromUpdatedBalance) ;;
            modify (set_balance to toUpdatedBalance) ;;
            ret true
      end.

Definition Transfer (from to : string) (amount : number) : state bool :=
  CheckInitialized ;;
  transferResp <- _transfer from to amount ;;
  if negb transferResp
  then throw (Error "the transfer failed")
  else ret true.

(** [spender] is [ctx.clientIdentity.getID()]. *)
Definition TransferFrom (spender from to : string) (value : number) : state bool :=
  CheckInitialized ;;
  l <- get ;;
  match allowances l !! (from, spender) with
  | None =>
      throw (Error ("spender " +:+ spender +:+ " has no allowance from " +:+ from))
  | Some currentAllowance =>
      currentAllowance <- number_of currentAllowance ;;
      valueInt <- number_of value ;;
      if lt currentAllowance valueInt
      then throw (Error "The spender does not have enough allowance to spend.")
      else
        transferResp <- _transfer from to value ;;
        if negb transferResp
        then throw (Error "Failed to transfer")
        else
          updatedAllowance <- sub currentAllowance valueInt ;;
          modify (set_allowance from spender updatedAllowance) ;;
          ret true
  end.

Definition Mint (to : string) (amount : number) : state bool :=
  CheckInitialized ;;
  l <- get ;;
  tSupply <-
    match totalSupply l with
    | None => ret (Int 0)
    | Some totalSupply => number_of totalSupply
    end ;;
  balance <-
    match balances l !! to with
    | None => ret (Int 0)
    | Some toBalance => number_of toBalance
    end ;;
  amount <- number_of amount ;;
  newTotalSupply <- plus tSupply amount ;;
  newToBalance <- plus balance amount ;;
  modify (set_totalSupply newTotalSupply) ;;
  modify (set_balance to newToBalance) ;;
  ret true.

(** [parseInt] of the empty text, which a missing key reads as, is NaN. *)
Definition Burn (from : string) (amount : number) : state bool :=
  CheckInitialized ;;
  l <- get ;;
  totalSupply <-
    match totalSupply l with
    | None => ret NaN
    | Some totalSupply => number_of totalSupply
    end ;;
  fromBalance <-
    match balances l !! from with
    | None => ret NaN
    | Some fromBalance => number_of fromBalance
    end ;;
  amount <- number_of amount ;;
  newTotalSupply <- minus totalSupply amount ;;
  newFromBalance <- minus fromBalance amount ;;
  modify (set_totalSupply newTotalSupply) ;;
  modify (set_balance from newFromBalance) ;;
  ret true.

(** The transactions of the contract, with the number of their arguments. *)
Definition transactions : list (string * nat) :=
  [ ("InitLedger", 3); ("TokenName", 0); ("TokenSymbol", 0); ("TokenDecimals", 0);
    ("TotalSupply", 0); ("BalanceOf", 1); ("Allowance", 2); ("Transfer", 3);
    ("TransferFrom", 3); ("Mint", 2); ("Burn", 2); ("CheckInitialized", 0) ]%nat.

End Token.

(** ** Vocabulary of the statements *)

(** An invocation that was answered, with whatever status. *)
Definition responds {P} (o : outcome P) : Prop :=
  ∃ status payload, o = Response status payload.

(** Two worlds that differ in the provider registry only. *)
Definition same_but_providers {N} (w w' : World N) : Prop :=
  pool_reserve w' = pool_reserve w ∧
  pool_contributions w' = pool_contributions w ∧
  baskets w' = baskets w ∧
  calls w' = calls w.

(** Every provider is stored under its own user name, as
    [AddLiquidityProvider] writes it. *)
Definition registry_wf {N} (reg : gmap string (LiquidityProvider N)) : Prop :=
  map_Forall (λ k provider, user provider = k) reg.

(** The sum of the contributions of all providers. *)
Definition totalContribution (reg : gmap string (LiquidityProvider Qc)) : Qc :=
  foldr Qcplus 0%Qc (amount <$> (map_to_list reg).*2).

(** A provider after [share] was added to its earned fees. *)
Definition credited {N} `{Number N} (share : LiquidityProvider N → N)
    (provider : LiquidityProvider N) : LiquidityProvider N :=
  set_earnedFees provider (earnedFees provider + share provider)%num.

(** The contributions of all providers added up one by one, from 0, in the
    order of the keys. *)
Definition liquidity_in_key_order {N} `{Number N}
    (reg : gmap string (LiquidityProvider N)) : N :=
  foldl (λ sum provider, sum + amount provider)%num (lit 0) (getStateByRange reg).*2.

(** The share of a provider in a fee: its contribution divided by the
    liquidity, the quotient multiplied by the fee. *)
Definition fee_share {N} `{Number N} (reg : gmap string (LiquidityProvider N))
    (fee : N) (provider : LiquidityProvider N) : N :=
  (amount provider / liquidity_in_key_order reg * fee)%num.

(** A share as the registry receives it: a share of -0 arrives as 0. *)
Definition fee_share_received {N} `{Number N} (reg : gmap string (LiquidityProvider N))
    (fee : N) (provider : LiquidityProvider N) : N :=
  (fee_share reg fee provider + lit 0)%num.

Section invariants.
Context {N : Type} `{Number N}.
Local Open Scope num_scope.

(** The product of [fs]. *)
Definition product (fs : list N) : N := foldr mul (lit 1) fs.

(** The factor of asset [i]: the product over every [j] other than [i] of
    [1 + reserve_i / reserve_j]. *)
Definition factor (Reserves : list N) (i : nat) (ri : N) : N :=
  product ((λ jr, if bool_decide (i ≠ jr.1) then lit 1 + ri / jr.2 else lit 1)
             <$> imap pair Reserves).

(** The invariant as the specification writes it: the sum over [i] of
    [reserve_i] times the factor of [i]. *)
Definition spec_invariant (Reserves : list N) : N :=
  foldr add (lit 0)
    ((λ ir, ir.2 * factor Reserves ir.1 ir.2) <$> imap pair Reserves).

(** The sum over [i] of [r_i] times the product of [f_k] for [k] from [i] on,
    for a list of pairs [(r_i, f_i)]. *)
Fixpoint accumulated (terms : list (N * N)) : N :=
  match terms with
  | [] => lit 0
  | (r, f) :: rest => r * (f * product rest.*2) + accumulated rest
  end.

(** The sum over [i] of [reserve_i] times the factors of [i] and of every
    asset after [i]. *)
Definition accumulated_invariant (Reserves : list N) : N :=
  accumulated ((λ ir, (ir.2, factor Reserves ir.1 ir.2)) <$> imap pair Reserves).

(** The running total [D] after it was multiplied, for every asset other than
    [i] among the assets from [j] on, whose reserves are [rest], by
    [1 + ri / rj], one asset after the other. *)
Fixpoint scaled (i : nat) (ri : N) (j : nat) (rest : list N) (D : N) : N :=
  match rest with
  | [] => D
  | rj :: rest =>
      scaled i ri (S j) rest (if bool_decide (i ≠ j) then D * (lit 1 + ri / rj) else D)
  end.

(** The running total [D] after the assets from [i] on, whose reserves are
    [todo]: the reserve of each asset in turn is added to the total, and the
    total is then scaled for that asset over all the reserves. *)
Fixpoint accumulate (Reserves : list N) (i : nat) (todo : list N) (D : N) : N :=
  match todo with
  | [] => D
  | ri :: todo => accumulate Reserves (S i) todo (scaled i ri 0 Reserves (D + ri))
  end.

(** The invariant by running accumulation: the total, from 0, after all the
    assets. *)
Definition running_invariant (Reserves : list N) : N :=
  accumulate Reserves 0 Reserves (lit 0).
End invariants.

Section volatility.
Context {N : Type} `{Number N}.
Variable env : Chaincodes N.
Variable oracleContractName : string.
Local Open Scope num_scope.

(** The price an oracle lookup delivers: the payload of an answer with
    status 200. *)
Definition price_of (o : outcome N) : option N :=
  match o with
  | Response status price => if bool_decide (status = 200%Z) then Some price else None
  | Rejected _ => None
  end.

(** The relative change of a currency's price, when both of its prices are
    available. *)
Definition price_change (currency : string) : option N :=
  match price_of (oracle env oracleContractName "GetCurrencyPrice" currency),
        price_of (oracle env oracleContractName "GetPreviousCurrencyPrice" currency) with
  | Some currentPrice, Some previousPrice =>
      Some (Math_abs ((currentPrice - previousPrice) / previousPrice))
  | _, _ => None
  end.

(** The currency's relative change exceeds the threshold. *)
Definition volatile (volatilityThreshold : N) (currency : string) : bool :=
  match price_change currency with
  | Some change => change >? volatilityThreshold
  | None => false
  end.

(** The error of a failed lookup: a rejected invocation, or the contract's
    own error on a status other than 200. *)
Definition fetch_error (currency : string) : error :=
  match oracle env oracleContractName "GetCurrencyPrice" currency with
  | Rejected m => ChaincodeError m
  | Response _ _ =>
      match oracle env oracleContractName "GetPreviousCurrencyPrice" currency with
      | Rejected m => ChaincodeError m
      | Response _ _ => Error ("Failed to fetch prices for " +:+ currency)
      end
  end.
End volatility.

(** One committed transaction of the pool. *)
Inductive pool_step {N} `{Number N} (Math_sqrt : N → N) (env : Chaincodes N)
    (tokenAContract tokenBContract : string) : World N → World N → Prop :=
  | step_Init w r w' :
      LiquidityPool.Init w = Ok (r, w') →
      pool_step Math_sqrt env tokenAContract tokenBContract w w'
  | step_AddLiquidity w userId amountA amountB r w' :
      LiquidityPool.AddLiquidity Math_sqrt env tokenAContract tokenBContract
        userId amountA amountB w = Ok (r, w') →
      pool_step Math_sqrt env tokenAContract tokenBContract w w'
  | step_Swap w userId inputToken amountIn r w' :
      LiquidityPool.Swap env tokenAContract tokenBContract userId inputToken amountIn w
        = Ok (r, w') →
      pool_step Math_sqrt env tokenAContract tokenBContract w w'
  | step_RemoveLiquidity w userId lpAmount r w' :
      LiquidityPool.RemoveLiquidity env tokenAContract tokenBContract userId lpAmount w
        = Ok (r, w') →
      pool_step Math_sqrt env tokenAContract tokenBContract w w'.

(** ** Scenarios *)

(** The square root on the rationals, exact on the squares of rationals. *)
Definition sqrt_of_square (q : Qc) : Qc :=
  Q2Qc (Z.sqrt (Qnum q) # Pos.sqrt (Qden q)).

(** Token ledgers that accept every transfer, and an oracle that knows the
    prices of tokenA and tokenB. *)
Definition priced_env {N} (priceA priceB : N) : Chaincodes N := {|
  oracle := λ _ _ currency,
    Response 200 (if bool_decide (currency = "tokenA") then priceA else priceB);
  token := λ _ _ _ _ _, Response 200 tt;
|}.

Definition pool_world {N} (reserveA reserveB : N)
    (positions : gmap string (UserContribution N))
    (registry : gmap string (LiquidityProvider N)) : World N :=
  Build_World (Some (Build_Reserve reserveA reserveB)) positions ∅ registry [].

Definition basket_world {N} (unit : N) (tokens : list string) (reserves : list N) : World N :=
  Build_World None ∅
    {[ "basket1" := Build_Basket "basket1" unit tokens reserves [] [] [] ]} ∅ [].

(** An oracle with the current and previous prices of currency "a", and either
    the same for "b" or no answer for it but status 500. *)
Definition history_env (currentA previousA : float) (b : option (float * float))
    : Chaincodes float := {|
  oracle := λ _ f currency,
    if bool_decide (currency = "a") then
      Response 200 (if bool_decide (f = "GetCurrencyPrice") then currentA else previousA)
    else
      match b with
      | Some (currentB, previousB) =>
          Response 200 (if bool_decide (f = "GetCurrencyPrice") then currentB else previousB)
      | None => Response 500 0%float
      end;
  token := λ _ _ _ _ _, Response 200 tt;
|}.

(** The sum of the earned fees of all providers. *)
Definition totalEarnedFees (reg : gmap string (LiquidityProvider Qc)) : Qc :=
  foldr Qcplus 0%Qc (earnedFees <$> (map_to_list reg).*2).

(** The prices the oracle delivers for the tokens, in their order, when it
    delivers one for each of them. *)
Fixpoint fetched_prices {N} (env : Chaincodes N) (tokens : list string) : option (list N) :=
  match tokens with
  | [] => Some []
  | token :: rest =>
      match price_of (oracle env BasketContract.oracleContractName "GetCurrencyPrice" token) with
      | Some price => cons price <$> fetched_prices env rest
      | None => None
      end
  end.

Definition total (l : list Qc) : Qc := foldr Qcplus 0%Qc l.

(** The oracle of [env] under the name [name] is the contract [OracleContract]
    on the ledger [ledger], its payloads being read by [parseFloat]. *)
Definition served_by_OracleContract {N} (env : Chaincodes N) (name : string)
    (parseFloat : string → N) (ledger : gmap string string) : Prop :=
  ∀ f currency, oracle env name f currency = OracleContract.chaincode parseFloat ledger f currency.

(** The price text that the oracle's ledger holds for a currency: a text that
    is not empty. *)
Definition stored_price (ledger : gmap string string) (currency : string) : option string :=
  match ledger !! currency with
  | Some text => if bool_decide (text ≠ EmptyString) then Some text else None
  | None => None
  end.

(** What a balance counts for in the sum of the balances: NaN counts nothing. *)
Definition counted (n : Token.number) : Z :=
  match n with
  | Token.NaN => 0
  | Token.Int z => z
  end.

(** The sum of the balances of all accounts. *)
Definition circulating (l : Token.Ledger) : Z :=
  map_fold (λ _ n s, counted n + s)%Z 0%Z (Token.balances l).

(** The stored total supply is the sum of the balances, no balance is NaN,
    and a ledger without a stored total supply has balances that sum to 0. *)
Definition backed (l : Token.Ledger) : Prop :=
  (∀ account, Token.balances l !! account ≠ Some Token.NaN) ∧
  match Token.totalSupply l with
  | None => circulating l = 0%Z
  | Some Token.NaN => False
  | Some (Token.Int s) => circulating l = s
  end.

(** The transactions of the token that write to the ledger, when they succeed. *)
Inductive token_step : Token.Ledger → Token.Ledger → Prop :=
  | step_InitLedger name symbol decimals l l' r :
      Token.InitLedger name symbol decimals l = Ok (r, l') → token_step l l'
  | step_Transfer from to amount l l' r :
      Token.Transfer from to amount l = Ok (r, l') → token_step l l'
  | step_TransferFrom spender from to amount l l' r :
      Token.TransferFrom spender from to amount l = Ok (r, l') → token_step l l'
  | step_Mint to amount l l' r :
      Token.Mint to amount l = Ok (r, l') → token_step l l'
  | step_Burn from amount l l' r :
      Token.Burn from amount l = Ok (r, l') → token_step l l'.

(** The chaincode [cc] of [env] is the token contract: a call of a function
    with three arguments that is no transaction of three arguments of the
    contract is rejected. *)
Definition hosts_Token {N} (env : Chaincodes N) (cc : string) : Prop :=
  ∀ f from to amt,
    (f, 3%nat) ∉ Token.transactions →
    ∃ m, token env cc f from to amt = Rejected m.

(** Token chaincodes that are the token contract, as far as the names of its
    transactions of three arguments go, and an oracle that knows the prices
    of tokenA and tokenB. *)
Definition token_contract_env {N} (priceA priceB : N) : Chaincodes N := {|
  oracle := λ _ _ currency,
    Response 200 (if bool_decide (currency = "tokenA") then priceA else priceB);
  token := λ _ f _ _ _,
    if bool_decide ((f, 3%nat) ∈ Token.transactions) then Response 200 tt
    else Rejected ("You've asked to invoke a function that does not exist: " +:+ f);
|}.

(** An oracle that is the oracle contract on a ledger, and token ledgers that
    accept every transfer. *)
Definition oracle_contract_env {N} (parseFloat : string → N)
    (ledger : gmap string string) : Chaincodes N := {|
  oracle := λ _ f currency, OracleContract.chaincode parseFloat ledger f currency;
  token := λ _ _ _ _ _, Response 200 tt;
|}.

(** A reader of the price texts "1.5" and "2". *)
Definition parse_price (text : string) : Qc :=
  if bool_decide (text = "1.5") then Q2Qc (3 # 2)
  else if bool_decide (text = "2") then Q2Qc 2
  else Q2Qc 0.

(** An initialized token ledger without allowances. *)
Definition token_ledger (supply : option Token.number)
    (balances : gmap string Token.number) : Token.Ledger :=
  Token.Build_Ledger "Alpha" "ALP" "2" supply balances ∅.

(** * Properties *)

Ltac tx_unfold :=
  unfold bind, ret, throw, lift, get, modify, invoke_token, invoke_oracle,
    invoke_local, object_of, JSON_parse, JSON_parse_text, number_argument in *.

(** Symbolic execution of a transaction: unfold the monad, split on every
    branch the code takes, and drop the branches that contradict a hypothesis. *)
Ltac tx_run :=
  repeat first
    [ progress (tx_unfold; cbn beta iota zeta delta [fst snd] in *; simplify_eq)
    | case_match ].

Section monad_facts.
Context {N : Type}.

Lemma bind_Ok {A B} (m : Tx N A) (k : A → Tx N B) (w w' : World N) (b : B) :
  bind m k w = Ok (b, w') →
  ∃ a w1, m w = Ok (a, w1) ∧ k a w1 = Ok (b, w').
Proof. unfold bind. destruct (m w) as [[a w1]|e]; [eauto | done]. Qed.

Lemma bind_step {A B} (m : Tx N A) (k : A → Tx N B) (w w1 : World N) (a : A) :
  m w = Ok (a, w1) → bind m k w = k a w1.
Proof. unfold bind. by intros ->. Qed.

Lemma invoke_local_Ok {A} (m : Tx N A) (w w' : World N) (r : Z * A) :
  invoke_local m w = Ok (r, w') →
  ∃ a, r = (200%Z, a) ∧ m w = Ok (a, w').
Proof. unfold invoke_local. destruct (m w) as [[a w1]|e]; naive_solver. Qed.

Lemma for_of_preserves {A} (R : World N → World N → Prop)
    (body : A → Tx N unit) (l : list A) :
  (∀ w, R w w) →
  (∀ w1 w2 w3, R w1 w2 → R w2 w3 → R w1 w3) →
  (∀ x w w' r, body x w = Ok (r, w') → R w w') →
  ∀ w w' r, for_of l body w = Ok (r, w') → R w w'.
Proof.
  intros Hrefl Htrans Hbody. induction l as [|x l IH]; intros w w' r Hrun.
  - cbn [for_of] in Hrun. unfold ret in Hrun. by simplify_eq.
  - cbn [for_of] in Hrun. apply bind_Ok in Hrun as (a & w1 & Hx & Hrest).
    eauto.
Qed.
End monad_facts.

(** The range query lists every key of the state once, by key. *)
Section range_query.
Context {A : Type}.

Lemma getStateByRange_Permutation (state : gmap string A) :
  getStateByRange state ≡ₚ map_to_list state.
Proof. apply merge_sort_Permutation. Qed.

Lemma getStateByRange_Sorted (state : gmap string A) :
  Sorted key_le (getStateByRange state).
Proof.
  apply Sorted_merge_sort. intros a b. unfold key_le.
  destruct (String.leb_total a.1 b.1); auto.
Qed.

Lemma getStateByRange_NoDup (state : gmap string A) :
  NoDup (getStateByRange state).*1.
Proof. rewrite getStateByRange_Permutation. apply NoDup_fst_map_to_list. Qed.

Lemma elem_of_getStateByRange (state : gmap string A) (k : string) (a : A) :
  (k, a) ∈ getStateByRange state ↔ state !! k = Some a.
Proof. rewrite getStateByRange_Permutation. apply elem_of_map_to_list. Qed.

Lemma list_to_map_getStateByRange (state : gmap string A) :
  (list_to_map (getStateByRange state) : gmap string A) = state.
Proof.
  transitivity (list_to_map (map_to_list state) : gmap string A);
    [|apply list_to_map_to_list].
  apply list_to_map_proper; [apply getStateByRange_NoDup | apply getStateByRange_Permutation].
Qed.
End range_query.

(** Binary64: the numbers that can be sent are the finite ones, and a number
    arrives as itself unless it is a zero, which arrives as 0. *)
Section binary64.
Local Open Scope float_scope.

Lemma float_add_zero (x : float) :
  x + 0 = if PrimFloat.eqb x 0 then 0 else x.
Proof.
  rewrite FloatAxioms.eqb_spec. apply Prim2SF_inj. rewrite FloatAxioms.add_spec.
  assert (Prim2SF (if SFeqb (Prim2SF x) (Prim2SF 0) then 0 else x)
          = if SFeqb (Prim2SF x) (Prim2SF 0) then Prim2SF 0 else Prim2SF x) as ->.
  { by destruct (SFeqb _ _). }
  change (Prim2SF 0) with (S754_zero false).
  destruct (Prim2SF x) as [sx|sx| |sx mx ex]; cbn; try done; by destruct sx.
Qed.

Lemma float_zero_add (r x : float) :
  PrimFloat.eqb r 0 = true → PrimFloat.eqb x x = true → PrimFloat.eqb (r + x) x = true.
Proof.
  rewrite !FloatAxioms.eqb_spec, FloatAxioms.add_spec.
  change (Prim2SF 0) with (S754_zero false).
  intros Hr Hx.
  destruct (Prim2SF r) as [sr|sr| |sr mr er]; cbn in Hr;
    [|by destruct sr|done|by destruct sr].
  destruct (Prim2SF x) as [sx|sx| |sx mx ex]; cbn in Hx |- *; [|done..].
  by destruct sr, sx.
Qed.

Lemma float_sub_diag (x : float) :
  PrimFloat.eqb (x - x) 0 = negb (is_nan x) && negb (is_infinity x).
Proof.
  unfold is_nan, is_infinity.
  rewrite !FloatAxioms.eqb_spec, FloatAxioms.sub_spec, FloatAxioms.abs_spec.
  change (Prim2SF 0) with (S754_zero false).
  change (Prim2SF infinity) with (S754_infinity false).
  destruct (Prim2SF x) as [sx|sx| |sx mx ex]; cbn.
  - by destruct sx.
  - by destruct sx.
  - done.
  - rewrite Z.min_id. unfold shl_align. rewrite Z.sub_diag. cbn.
    rewrite Z.compare_refl.
    change (PosDef.Pos.compare_cont Eq mx mx) with (Pos.compare mx mx).
    rewrite Pos.compare_refl. by destruct sx.
Qed.

Lemma sendable_binary64 (x : float) : sendable x = is_finite x.
Proof.
  unfold sendable, is_finite. cbn [strict_eq sub Number_float].
  change (lit 0) with 0. rewrite float_sub_diag. unfold is_nan.
  by destruct (PrimFloat.eqb x x), (is_infinity x).
Qed.

Lemma number_argument_binary64 (x : float) (w : World float) :
  (is_finite x = true →
   number_argument x w = Ok (if PrimFloat.eqb x 0 then 0 else x, w)) ∧
  (is_nan x = true → ∀ r, number_argument x w ≠ Ok r).
Proof.
  split.
  - intros Hfinite. rewrite <- sendable_binary64 in Hfinite.
    unfold number_argument, sendable in *.
    apply andb_true_iff in Hfinite as [-> ->]. cbn [negb].
    unfold ret. cbn [add Number_float]. change (lit 0) with 0.
    by rewrite float_add_zero.
  - unfold is_nan, number_argument. cbn [strict_eq Number_float].
    intros Hnan r. by destruct (PrimFloat.eqb x x).
Qed.
End binary64.

Section registry_facts.
Context {N : Type} `{Number N}.
Local Open Scope num_scope.

Lemma number_argument_Ok (x y : N) (w w' : World N) :
  number_argument x w = Ok (y, w') → sendable x = true ∧ y = x + lit 0 ∧ w' = w.
Proof.
  unfold number_argument, sendable, throw, ret.
  destruct (x === x); [|done]. destruct (x - x === lit 0); [|done].
  cbn. by intros [= <- <-].
Qed.

Lemma number_argument_sendable (x : N) (w : World N) :
  sendable x = true → number_argument x w = Ok (x + lit 0, w).
Proof.
  unfold number_argument, sendable. by intros [-> ->]%andb_true_iff.
Qed.

Lemma UpdateEarnedFees_Ok (u : string) (fee : N) (w w' : World N) r :
  LiquidityProviderContract.UpdateEarnedFees u fee w = Ok (r, w') →
  ∃ p, providers w !! u = Some p ∧
       w' = set_provider u (set_earnedFees p (earnedFees p + fee)) w.
Proof.
  unfold LiquidityProviderContract.UpdateEarnedFees. intros Hrun.
  tx_run. eauto.
Qed.

Lemma distributeFees_frame (fee : N) (w w' : World N) r :
  LiquidityPool.distributeFees fee w = Ok (r, w') →
  same_but_providers w w'.
Proof.
  unfold LiquidityPool.distributeFees, LiquidityProviderContract.GetAllLiquidityProviders.
  intros Hrun. apply bind_Ok in Hrun as ([status l] & w1 & Hall & Hrun).
  apply invoke_local_Ok in Hall as (l' & [= -> ->] & Hall).
  tx_run.
  eapply for_of_preserves in Hrun; [done | done | | ].
  - unfold same_but_providers. intros wa wb wc (Ha1 & Ha2 & Ha3 & Ha4) (-> & -> & -> & ->). done.
  - intros p wa wb r' Hstep. tx_run.
    match goal with
    | Hu : LiquidityProviderContract.UpdateEarnedFees _ _ _ = Ok _ |- _ =>
        apply UpdateEarnedFees_Ok in Hu as (q & _ & ->)
    end.
    done.
Qed.
End registry_facts.

Section pool_generic.
Context {N : Type} `{Number N}.
Variable Math_sqrt : N → N.
Variable env : Chaincodes N.
Variables tokenAContract tokenBContract : string.
Local Open Scope num_scope.

(** C4 (amended): [Init] succeeds on every ledger, also on one whose reserves
    already exist, and sets both reserves to zero; it never fails and leaves
    the rest of the ledger as it was. *)
Theorem Init_always_resets (w : World N) :
  LiquidityPool.Init w = Ok (tt, set_pool_reserve (Build_Reserve (lit 0) (lit 0)) w).
Proof. reflexivity. Qed.

Lemma Swap_Ok (w w' : World N) (userId inputToken : string) (amountIn amountOut : N) :
  LiquidityPool.Swap env tokenAContract tokenBContract userId inputToken amountIn w
    = Ok (amountOut, w') →
  ∃ reserve, pool_reserve w = Some reserve ∧
    let invariant := tokenA reserve * tokenB reserve in
    let raw :=
      if bool_decide (inputToken = "tokenA")
      then tokenB reserve - invariant / (tokenA reserve + amountIn)
      else tokenA reserve - invariant / (tokenB reserve + amountIn) in
    amountOut = raw - raw * LiquidityPool.FEE_RATE ∧
    pool_reserve w' =
      Some (if bool_decide (inputToken = "tokenA")
            then Build_Reserve (tokenA reserve + amountIn) (tokenB reserve - raw)
            else Build_Reserve (tokenA reserve - raw) (tokenB reserve + amountIn)) ∧
    ∃ w1, LiquidityPool.distributeFees (raw * LiquidityPool.FEE_RATE) w = Ok (tt, w1) ∧
          providers w' = providers w1.
Proof.
  unfold LiquidityPool.Swap. intros Hrun.
  destruct (pool_reserve w) as [reserve|] eqn:Hres; [|by tx_run].
  exists reserve. split; [done|].
  tx_run.
  all: split_and!; [done | done |].
  all: repeat match goal with u : unit |- _ => destruct u end; eauto.
Qed.
End pool_generic.

Section pool_generic2.
Context {N : Type} `{Number N}.
Variable Math_sqrt : N → N.
Variable env : Chaincodes N.
Variables tokenAContract tokenBContract : string.
Local Open Scope num_scope.

Local Abbreviation AddLiquidity := (LiquidityPool.AddLiquidity Math_sqrt env tokenAContract tokenBContract).
Local Abbreviation RemoveLiquidity := (LiquidityPool.RemoveLiquidity env tokenAContract tokenBContract).
Local Abbreviation key userId := (LiquidityPool.USER_CONTRIBUTION_PREFIX +:+ userId).

Lemma getPriceFromOracle_200 (currency : string) (price : N) (w : World N) :
  oracle env LiquidityPool.oracleContractName "GetCurrencyPrice" currency
    = Response 200 price →
  LiquidityPool.getPriceFromOracle env currency w = Ok (price, w).
Proof.
  intros Hprice. unfold LiquidityPool.getPriceFromOracle. tx_unfold.
  by rewrite Hprice.
Qed.

Lemma AddLiquidity_Ok (w w' : World N) (userId : string) (amountA amountB : N) r :
  AddLiquidity userId amountA amountB w = Ok (r, w') →
  ∃ reserve u,
    pool_reserve w = Some reserve ∧
    pool_contributions w !! key userId = Some u ∧
    let lpTokensToMint :=
      if (tokenA reserve === lit 0) || (tokenB reserve === lit 0)
      then Math_sqrt (amountA * amountB)
      else Math_min (amountA / tokenA reserve) (amountB / tokenB reserve) in
    pool_reserve w' =
      Some (Build_Reserve (tokenA reserve + amountA) (tokenB reserve + amountB)) ∧
    pool_contributions w' =
      <[key userId := set_contribution u (contributionA u + amountA)
                        (contributionB u + amountB) (lpTokens u + lpTokensToMint)]>
        (pool_contributions w).
Proof.
  unfold LiquidityPool.AddLiquidity, LiquidityPool.getPriceFromOracle. intros Hrun.
  tx_run; cbn in *; simplify_eq.
  all: eexists _, _; split_and!; [done..|].
  all: match goal with Hc : (_ || _) = _ |- _ => by rewrite Hc end.
Qed.

(** C6 (amended): with both oracle prices delivered, [AddLiquidity] fails
    with the ratio error exactly when [|amountA * priceA - amountB * priceB|]
    exceeds 0.01; the reserves, empty or not, take no part in the check. *)
Theorem AddLiquidity_price_ratio_check (w : World N) (userId : string)
    (amountA amountB priceA priceB : N) :
  oracle env LiquidityPool.oracleContractName "GetCurrencyPrice" "tokenA"
    = Response 200 priceA →
  oracle env LiquidityPool.oracleContractName "GetCurrencyPrice" "tokenB"
    = Response 200 priceB →
  AddLiquidity userId amountA amountB w
    = Err (Error "Provided amounts don't match the current price ratio.")
  ↔ (Math_abs (amountA * priceA - amountB * priceB) >? lit (1 # 100)) = true.
Proof.
  intros HA HB. unfold LiquidityPool.AddLiquidity.
  rewrite (bind_step _ _ _ _ _ (getPriceFromOracle_200 _ _ _ HA)).
  rewrite (bind_step _ _ _ _ _ (getPriceFromOracle_200 _ _ _ HB)).
  destruct (Math_abs _ >? _) eqn:Hcheck; [done|].
  split; [|done]. intros Hrun. tx_run.
Qed.

(** C10: for a user with no stored position, [AddLiquidity] never commits,
    and once the price check and the transfers are passed it fails with the
    [SyntaxError] of parsing the missing position, so the branch that
    creates a position is not reached; [RemoveLiquidity] fails with the same
    [SyntaxError], before the check of the LP tokens. *)
Theorem first_time_provider_never_commits (w : World N) (userId : string) :
  pool_contributions w !! key userId = None →
  (∀ amountA amountB r w', AddLiquidity userId amountA amountB w ≠ Ok (r, w')) ∧
  (∀ amountA amountB priceA priceB reserve,
     oracle env LiquidityPool.oracleContractName "GetCurrencyPrice" "tokenA"
       = Response 200 priceA →
     oracle env LiquidityPool.oracleContractName "GetCurrencyPrice" "tokenB"
       = Response 200 priceB →
     (Math_abs (amountA * priceA - amountB * priceB) >? lit (1 # 100)) = false →
     responds (token env tokenAContract "transfer" userId
                 LiquidityPool.RESERVE_WALLET_KEY amountA) →
     responds (token env tokenBContract "transfer" userId
                 LiquidityPool.RESERVE_WALLET_KEY amountB) →
     pool_reserve w = Some reserve →
     AddLiquidity userId amountA amountB w = Err SyntaxError) ∧
  (∀ lpAmount, RemoveLiquidity userId lpAmount w = Err SyntaxError).
Proof.
  intros Hnone. split; [|split].
  - intros amountA amountB r w' Hrun.
    apply AddLiquidity_Ok in Hrun as (reserve & u & _ & Hsome & _). congruence.
  - intros amountA amountB priceA priceB reserve HA HB Hcheck
       (sA & pA & HtA) (sB & pB & HtB) Hres.
    unfold LiquidityPool.AddLiquidity.
    rewrite (bind_step _ _ _ _ _ (getPriceFromOracle_200 _ _ _ HA)).
    rewrite (bind_step _ _ _ _ _ (getPriceFromOracle_200 _ _ _ HB)).
    rewrite Hcheck. tx_unfold. rewrite HtA, HtB. cbn. rewrite Hres.
    tx_unfold. cbn. by rewrite Hnone.
  - intros lpAmount. unfold LiquidityPool.RemoveLiquidity. tx_unfold.
    rewrite Hnone. by destruct (pool_reserve w).
Qed.

(** No transaction of the pool adds or removes a position: the users with a
    stored position stay the same. *)
Lemma pool_step_positions (w w' : World N) :
  pool_step Math_sqrt env tokenAContract tokenBContract w w' →
  dom (pool_contributions w') = dom (pool_contributions w).
Proof.
  destruct 1 as [w r w' Hrun | w userId amountA amountB r w' Hrun
                | w userId inputToken amountIn r w' Hrun | w userId lpAmount r w' Hrun].
  - unfold LiquidityPool.Init, modify in Hrun. by simplify_eq.
  - apply AddLiquidity_Ok in Hrun as (reserve & u & _ & Hu & _ & ->).
    rewrite dom_insert_L. apply subseteq_union_1_L, singleton_subseteq_l.
    by eapply elem_of_dom_2.
  - unfold LiquidityPool.Swap in Hrun. tx_run.
    all: match goal with
         | Hd : LiquidityPool.distributeFees _ _ = Ok _ |- _ =>
             apply distributeFees_frame in Hd as (_ & Hd & _); cbn; by rewrite Hd
         end.
  - unfold LiquidityPool.RemoveLiquidity in Hrun. tx_run. cbn.
    rewrite dom_insert_L. apply subseteq_union_1_L, singleton_subseteq_l.
    by eapply elem_of_dom_2.
Qed.

(** From a ledger without positions the pool never reaches one with a
    position. *)
Lemma pool_never_gains_a_position (w w' : World N) :
  rtc (pool_step Math_sqrt env tokenAContract tokenBContract) w w' →
  pool_contributions w = ∅ → pool_contributions w' = ∅.
Proof.
  induction 1 as [|w w1 w' Hstep _ IH]; [done|].
  intros Hempty. apply IH. apply dom_empty_iff_L.
  by rewrite (pool_step_positions _ _ Hstep), Hempty, dom_empty_L.
Qed.

(** C7: what the pool's [RemoveLiquidity] does when it succeeds.  It sends
    the user the proportional amounts [contribution * (lpAmount / lpTokens)]
    less 0.3 %, in two transfers and no more, and leaves every provider's
    earned fees as they were: no earned fee is paid out or reset. *)
Theorem pool_RemoveLiquidity_pays_no_earned_fees (w w' : World N)
    (userId : string) (lpAmount : N) r :
  RemoveLiquidity userId lpAmount w = Ok (r, w') →
  ∃ u, pool_contributions w !! key userId = Some u ∧
    let proportion := lpAmount / lpTokens u in
    let amountA := contributionA u * proportion in
    let amountB := contributionB u * proportion in
    calls w' = calls w ++
      [ Build_TokenCall tokenAContract "transfer" LiquidityPool.RESERVE_WALLET_KEY userId
          (amountA - amountA * lit (3 # 1000));
        Build_TokenCall tokenBContract "transfer" LiquidityPool.RESERVE_WALLET_KEY userId
          (amountB - amountB * lit (3 # 1000)) ] ∧
    providers w' = providers w.
Proof.
  unfold LiquidityPool.RemoveLiquidity. intros Hrun.
  tx_run. eexists; split; [done|]. cbn. by rewrite <- app_assoc.
Qed.
End pool_generic2.

(** ** Fee distribution over the provider registry *)

Section fee_distribution.
Context {N : Type} `{Number N}.
Local Open Scope num_scope.

(** The loop of [distributeFees] over distinct providers credits each of
    them once and touches nothing else. *)
Lemma for_of_credit (share : LiquidityProvider N → N)
    (l : list (string * LiquidityProvider N)) :
  NoDup l.*1 →
  (∀ k p, (k, p) ∈ l → sendable (share p) = true) →
  ∀ w : World N,
    (∀ k p, (k, p) ∈ l → providers w !! k = Some p ∧ user p = k) →
    ∃ w',
      for_of l.*2 (λ provider,
        bind (number_argument (share provider)) (λ argument,
          bind (invoke_local
                  (LiquidityProviderContract.UpdateEarnedFees (user provider) argument))
               (λ _, ret tt))) w = Ok (tt, w') ∧
      same_but_providers w w' ∧
      providers w' = (credited (λ p, share p + lit 0) <$> list_to_map l) ∪ providers w.
Proof.
  induction l as [|[k p] l IH]; intros Hnodup Hsend w Hl.
  - exists w. cbn. split_and!; [done..|].
    by rewrite fmap_empty, (left_id_L ∅ (∪)).
  - cbn in Hnodup.
    pose proof (NoDup_cons_1_1 _ _ Hnodup) as Hk.
    apply NoDup_cons_1_2 in Hnodup.
    destruct (Hl k p) as [Hkp Huser]; [by left|].
    pose (w1 := set_provider k (credited (λ p, share p + lit 0) p) w).
    destruct (IH Hnodup) with (w := w1) as (w' & Hrun & Hframe & Hprov).
    { intros k' p' Hin. apply (Hsend k' p'). by right. }
    { intros k' p' Hin. destruct (Hl k' p') as [Hlook Hu]; [by right|].
      split; [|done]. cbn. rewrite lookup_insert_ne; [done|].
      intros ->. apply Hk. apply list_elem_of_fmap. by exists (k', p'). }
    exists w'. split_and!.
    + cbn [fmap list_fmap for_of snd]. erewrite bind_step; [exact Hrun|].
      rewrite (bind_step _ _ _ _ _ (number_argument_sendable _ w (Hsend k p ltac:(by left)))).
      unfold LiquidityProviderContract.UpdateEarnedFees. tx_unfold.
      rewrite Huser, Hkp. done.
    + unfold same_but_providers in *. subst w1. cbn in Hframe. done.
    + rewrite Hprov. cbn. rewrite fmap_insert, <- insert_union_l.
      rewrite <- insert_union_r; [done|].
      rewrite lookup_fmap. apply fmap_None. by apply not_elem_of_list_to_map_1.
Qed.

(** A loop of [distributeFees] that returns had only shares to send that are
    finite numbers. *)
Lemma for_of_sendable (share : LiquidityProvider N → N) (l : list (LiquidityProvider N)) :
  ∀ (w w' : World N) r,
    for_of l (λ provider,
      bind (number_argument (share provider)) (λ argument,
        bind (invoke_local
                (LiquidityProviderContract.UpdateEarnedFees (user provider) argument))
             (λ _, ret tt))) w = Ok (r, w') →
    Forall (λ p, sendable (share p) = true) l.
Proof.
  induction l as [|p l IH]; intros w w' r Hrun; [constructor|].
  cbn [for_of] in Hrun. apply bind_Ok in Hrun as (a & w1 & Hbody & Hrest).
  apply bind_Ok in Hbody as (y & w2 & Harg & _).
  apply number_argument_Ok in Harg as (Hs & _).
  constructor; [done|]. by eapply IH.
Qed.

(** [distributeFees] over a registry keyed by user name, when every share is
    a finite number: it returns, having credited every provider its share. *)
Lemma distributeFees_credits (fee : N) (w : World N) :
  registry_wf (providers w) →
  (∀ k p, providers w !! k = Some p → sendable (fee_share (providers w) fee p) = true) →
  ∃ w',
    LiquidityPool.distributeFees fee w = Ok (tt, w') ∧
    same_but_providers w w' ∧
    ∀ k, providers w' !! k
         = credited (fee_share_received (providers w) fee) <$> providers w !! k.
Proof.
  intros Hwf Hsend.
  destruct (for_of_credit (fee_share (providers w) fee) (getStateByRange (providers w))
              (getStateByRange_NoDup _)) with (w := w) as (w' & Hrun & Hframe & Hprov).
  { intros k p Hin%elem_of_getStateByRange. by apply (Hsend k). }
  { intros k p Hin%elem_of_getStateByRange. split; [done|]. by apply (Hwf k p). }
  exists w'. split_and!; [|done|].
  - unfold LiquidityPool.distributeFees, LiquidityProviderContract.GetAllLiquidityProviders.
    unfold bind at 1. unfold invoke_local, bind, get, ret at 1. cbn. exact Hrun.
  - intros k. rewrite Hprov, list_to_map_getStateByRange, lookup_union, lookup_fmap.
    by destruct (providers w !! k).
Qed.

(** A [distributeFees] that returns, over a registry keyed by user name. *)
Lemma distributeFees_Ok (fee : N) (w w' : World N) r :
  registry_wf (providers w) →
  LiquidityPool.distributeFees fee w = Ok (r, w') →
  (∀ k p, providers w !! k = Some p → sendable (fee_share (providers w) fee p) = true) ∧
  same_but_providers w w' ∧
  ∀ k, providers w' !! k
       = credited (fee_share_received (providers w) fee) <$> providers w !! k.
Proof.
  intros Hwf Hrun.
  assert (∀ k p, providers w !! k = Some p →
                 sendable (fee_share (providers w) fee p) = true) as Hsend.
  { pose proof Hrun as Hloop.
    unfold LiquidityPool.distributeFees, LiquidityProviderContract.GetAllLiquidityProviders
      in Hloop.
    apply bind_Ok in Hloop as ([status l] & w1 & Hall & Hloop).
    apply invoke_local_Ok in Hall as (l' & [= -> ->] & Hall).
    unfold bind, get, ret in Hall. injection Hall as <- <-.
    cbn in Hloop.
    apply (for_of_sendable (fee_share (providers w) fee)) in Hloop.
    intros k p Hlook. rewrite Forall_forall in Hloop. apply Hloop.
    apply list_elem_of_fmap. exists (k, p). split; [done|].
    by apply elem_of_getStateByRange. }
  split; [done|].
  destruct (distributeFees_credits fee w Hwf Hsend) as (w2 & Hrun2 & Hframe & Hprov).
  rewrite Hrun in Hrun2. by injection Hrun2 as _ <-.
Qed.
End fee_distribution.

(** ** When the pool's transactions return *)

Section pool_returns.
Context {N : Type} `{Number N}.
Variable Math_sqrt : N → N.
Variable env : Chaincodes N.
Variables tokenAContract tokenBContract : string.
Local Open Scope num_scope.

(** A swap returns on an initialized pool when the registry is keyed by user
    name, the share of every provider in the fee is a finite number and the
    token ledgers answer. *)
Lemma Swap_returns (w : World N) (userId inputToken : string) (amountIn : N)
    (reserve : Reserve N) :
  pool_reserve w = Some reserve →
  registry_wf (providers w) →
  (∀ fee k p, providers w !! k = Some p →
              sendable (fee_share (providers w) fee p) = true) →
  (∀ cc f from to amt, responds (token env cc f from to amt)) →
  ∃ amountOut w',
    LiquidityPool.Swap env tokenAContract tokenBContract userId inputToken amountIn w
    = Ok (amountOut, w').
Proof.
  intros Hres Hwf Hsend Htoken. unfold LiquidityPool.Swap.
  rewrite (bind_step _ _ w w w) by done.
  unfold lift, JSON_parse. rewrite Hres.
  rewrite (bind_step _ _ w w (JObject reserve)) by done.
  rewrite (bind_step _ _ w w reserve) by done.
  case_bool_decide.
  - destruct (distributeFees_credits
                ((tokenB reserve - tokenA reserve * tokenB reserve / (tokenA reserve + amountIn))
                 * LiquidityPool.FEE_RATE) w Hwf (Hsend _)) as (w1 & Hfees & _ & _).
    rewrite (bind_step _ _ _ _ _ Hfees).
    tx_unfold. cbn.
    destruct (Htoken tokenAContract "transfer" userId LiquidityPool.RESERVE_WALLET_KEY amountIn)
      as (s1 & p1 & ->).
    match goal with
    | |- context [token env ?cc ?f ?a ?b ?n] =>
        destruct (Htoken cc f a b n) as (s2 & p2 & ->)
    end.
    eauto.
  - destruct (distributeFees_credits
                ((tokenA reserve - tokenA reserve * tokenB reserve / (tokenB reserve + amountIn))
                 * LiquidityPool.FEE_RATE) w Hwf (Hsend _)) as (w1 & Hfees & _ & _).
    rewrite (bind_step _ _ _ _ _ Hfees).
    tx_unfold. cbn.
    destruct (Htoken tokenBContract "transfer" userId LiquidityPool.RESERVE_WALLET_KEY amountIn)
      as (s1 & p1 & ->).
    match goal with
    | |- context [token env ?cc ?f ?a ?b ?n] =>
        destruct (Htoken cc f a b n) as (s2 & p2 & ->)
    end.
    eauto.
Qed.

(** [AddLiquidity] returns for a user with a stored position on an initialized
    pool, when the amounts pass the price check and the token ledgers answer. *)
Lemma AddLiquidity_returns (w : World N) (userId : string)
    (amountA amountB priceA priceB : N) (reserve : Reserve N) (u : UserContribution N) :
  oracle env LiquidityPool.oracleContractName "GetCurrencyPrice" "tokenA"
    = Response 200 priceA →
  oracle env LiquidityPool.oracleContractName "GetCurrencyPrice" "tokenB"
    = Response 200 priceB →
  (Math_abs (amountA * priceA - amountB * priceB) >? lit (1 # 100)) = false →
  (∀ cc f from to amt, responds (token env cc f from to amt)) →
  pool_reserve w = Some reserve →
  pool_contributions w !! (LiquidityPool.USER_CONTRIBUTION_PREFIX +:+ userId) = Some u →
  ∃ w',
    LiquidityPool.AddLiquidity Math_sqrt env tokenAContract tokenBContract
      userId amountA amountB w = Ok (true, w').
Proof.
  intros HA HB Hcheck Htoken Hres Hu. unfold LiquidityPool.AddLiquidity.
  rewrite (bind_step _ _ _ _ _ (getPriceFromOracle_200 _ _ _ _ HA)).
  rewrite (bind_step _ _ _ _ _ (getPriceFromOracle_200 _ _ _ _ HB)).
  rewrite Hcheck. tx_unfold.
  destruct (Htoken tokenAContract "transfer" userId LiquidityPool.RESERVE_WALLET_KEY amountA)
    as (s1 & p1 & ->).
  destruct (Htoken tokenBContract "transfer" userId LiquidityPool.RESERVE_WALLET_KEY amountB)
    as (s2 & p2 & ->).
  cbn. rewrite Hres. tx_unfold. cbn. rewrite Hu. eauto.
Qed.
End pool_returns.

(** ** The pool in exact arithmetic *)

Section pool_exact.
Variable Math_sqrt : Qc → Qc.
Variable env : Chaincodes Qc.
Variables tokenAContract tokenBContract : string.
Local Open Scope Qc_scope.

Local Abbreviation AddLiquidity :=
  (LiquidityPool.AddLiquidity Math_sqrt env tokenAContract tokenBContract).
Local Abbreviation Swap := (LiquidityPool.Swap env tokenAContract tokenBContract).
Local Abbreviation key userId := (LiquidityPool.USER_CONTRIBUTION_PREFIX +:+ userId).

Lemma Math_min_Qc (a b : Qc) :
  Math_min a b ≤ a ∧ Math_min a b ≤ b ∧ (Math_min a b = a ∨ Math_min a b = b).
Proof.
  cbn. case_decide as Hab.
  - split_and!; [apply Qcle_refl | done | by left].
  - split_and!; [|apply Qcle_refl | by right].
    apply Qclt_le_weak. by apply Qcnot_le_lt.
Qed.

(** In exact arithmetic, a swap of [amountIn > 0] on positive reserves stores
    reserves whose product is the product [K] of the reserves before the
    trade, and returns the raw output times [1 - 0.003]. *)
Lemma Swap_exact (w w' : World Qc) (userId inputToken : string)
    (amountIn amountOut : Qc) (reserve reserve' : Reserve Qc) :
  pool_reserve w = Some reserve →
  0 < tokenA reserve → 0 < tokenB reserve → 0 < amountIn →
  Swap userId inputToken amountIn w = Ok (amountOut, w') →
  pool_reserve w' = Some reserve' →
  let K := tokenA reserve * tokenB reserve in
  let inputReserve :=
    if bool_decide (inputToken = "tokenA") then tokenA reserve else tokenB reserve in
  let otherReserve :=
    if bool_decide (inputToken = "tokenA") then tokenB reserve else tokenA reserve in
  let raw := otherReserve - K / (inputReserve + amountIn) in
  tokenA reserve' * tokenB reserve' = K ∧
  amountOut = raw * (1 - Q2Qc (3 # 1000)).
Proof.
  intros Hres HA HB Hin Hrun Hres'.
  apply Swap_Ok in Hrun as (reserve0 & Hres0 & -> & Hstored & _).
  rewrite Hres in Hres0. injection Hres0 as <-.
  rewrite Hres' in Hstored. injection Hstored as ->.
  assert (tokenA reserve + amountIn ≠ 0) as HnA.
  { apply not_eq_sym, Qclt_not_eq. by apply Qcplus_pos_pos. }
  assert (tokenB reserve + amountIn ≠ 0) as HnB.
  { apply not_eq_sym, Qclt_not_eq. by apply Qcplus_pos_pos. }
  cbn -[Qcplus Qcminus Qcmult Qcdiv Q2Qc]. unfold LiquidityPool.FEE_RATE.
  cbn -[Qcplus Qcminus Qcmult Qcdiv Q2Qc].
  case_bool_decide; cbn -[Qcplus Qcminus Qcmult Qcdiv Q2Qc];
    split; try ring; by field.
Qed.

(** In exact arithmetic, an [AddLiquidity] that succeeds on a pool of two
    zero reserves stores the supplied amounts, and on a pool of two non-zero
    reserves mints the smaller of the two quotients. *)
Lemma AddLiquidity_exact (w w' : World Qc) (userId : string)
    (amountA amountB : Qc) (reserve : Reserve Qc) r :
  AddLiquidity userId amountA amountB w = Ok (r, w') →
  pool_reserve w = Some reserve →
  (tokenA reserve = 0 ∧ tokenB reserve = 0 →
     pool_reserve w' = Some (Build_Reserve amountA amountB)) ∧
  (tokenA reserve ≠ 0 ∧ tokenB reserve ≠ 0 →
     ∃ u u' minted,
       pool_contributions w !! key userId = Some u ∧
       pool_contributions w' !! key userId = Some u' ∧
       lpTokens u' = lpTokens u + minted ∧
       minted ≤ amountA / tokenA reserve ∧
       minted ≤ amountB / tokenB reserve ∧
       (minted = amountA / tokenA reserve ∨ minted = amountB / tokenB reserve)).
Proof.
  intros Hrun Hres.
  apply AddLiquidity_Ok in Hrun as (reserve0 & u & Hres0 & Hu & Hres' & Hu').
  rewrite Hres in Hres0. injection Hres0 as <-.
  split.
  - intros [HA HB]. rewrite Hres', HA, HB. cbn. by rewrite !Qcplus_0_l.
  - intros [HA HB].
    destruct (Math_min_Qc (amountA / tokenA reserve) (amountB / tokenB reserve))
      as (HleA & HleB & Hone).
    eexists u, _, (Math_min (amountA / tokenA reserve) (amountB / tokenB reserve)).
    split_and!; [done | | | done | done | done].
    + rewrite Hu'. apply lookup_insert_eq.
    + cbn -[Math_min]. by rewrite !bool_decide_eq_false_2 by done.
Qed.

(** Every rational is a finite number. *)
Lemma sendable_Qc (x : Qc) : sendable x = true.
Proof.
  unfold sendable. cbn. apply andb_true_intro.
  split; apply bool_decide_eq_true_2; [done | ring].
Qed.

Lemma Qc_sum_Permutation (l l' : list Qc) :
  l ≡ₚ l' → foldr Qcplus 0 l = foldr Qcplus 0 l'.
Proof.
  induction 1 as [|x l l' _ IH|x y l|l l' l'' _ IH1 _ IH2]; cbn -[Qcplus].
  - done.
  - by rewrite IH.
  - ring.
  - by rewrite IH1.
Qed.

(** In exact arithmetic the order of the sum does not matter: the liquidity
    is the total contribution. *)
Lemma liquidity_in_key_order_Qc (reg : gmap string (LiquidityProvider Qc)) :
  liquidity_in_key_order reg = totalContribution reg.
Proof.
  assert (∀ (a : Qc) (l : list Qc), foldl Qcplus a l = a + foldr Qcplus 0 l) as Hfold.
  { intros a l. revert a. induction l as [|x l IH]; intros a; cbn; [ring|].
    rewrite IH. ring. }
  unfold liquidity_in_key_order, totalContribution.
  transitivity (foldl Qcplus 0 (amount <$> (getStateByRange reg).*2)).
  { by rewrite !foldl_fmap. }
  rewrite Hfold, Qcplus_0_l. apply Qc_sum_Permutation.
  do 2 apply fmap_Permutation. apply getStateByRange_Permutation.
Qed.

(** In exact arithmetic, over a registry keyed by user name whose total
    contribution is not zero, [distributeFees] returns and credits each
    provider [fee * contribution / totalContribution]. *)
Lemma distributeFees_exact (w : World Qc) (fee : Qc) :
  registry_wf (providers w) →
  totalContribution (providers w) ≠ 0 →
  ∃ w',
    LiquidityPool.distributeFees fee w = Ok (tt, w') ∧
    same_but_providers w w' ∧
    ∀ k, providers w' !! k =
         credited (λ provider, fee * amount provider / totalContribution (providers w))
           <$> providers w !! k.
Proof.
  intros Hwf Htotal.
  destruct (distributeFees_credits fee w Hwf) as (w' & Hrun & Hframe & Hprov).
  { intros k p _. apply sendable_Qc. }
  exists w'. split_and!; [done..|].
  intros k. rewrite Hprov. destruct (providers w !! k) as [p|]; [|done].
  cbn [fmap option_fmap option_map]. f_equal.
  unfold credited, fee_share_received, fee_share. rewrite liquidity_in_key_order_Qc.
  unfold set_earnedFees. f_equal. cbn -[Qcplus Qcmult Qcdiv Q2Qc]. by field.
Qed.
End pool_exact.

(** C3 (amended): a swap that returns has raw output
    [otherReserve - K / (inputReserve + amountIn)], with [K] the product of
    the reserves before the trade; it stores the input reserve plus
    [amountIn] and the other reserve less the raw output, and it returns
    the raw output less the raw output times 0.003; this holds in the
    arithmetic of the engine as in every other.  In exact arithmetic, with
    [amountIn > 0] on positive reserves, the product of the stored reserves
    is [K] and the value returned is the raw output times [1 - 0.003]. *)
Theorem Swap_constant_product :
  (∀ (N : Type) (HN : Number N) (env : Chaincodes N) (tokenAContract tokenBContract : string)
     (w w' : World N) (userId inputToken : string) (amountIn amountOut : N),
     LiquidityPool.Swap env tokenAContract tokenBContract userId inputToken amountIn w
       = Ok (amountOut, w') →
     ∃ reserve reserve',
       pool_reserve w = Some reserve ∧
       pool_reserve w' = Some reserve' ∧
       let K := tokenA reserve * tokenB reserve in
       let inputReserve :=
         if bool_decide (inputToken = "tokenA") then tokenA reserve else tokenB reserve in
       let otherReserve :=
         if bool_decide (inputToken = "tokenA") then tokenB reserve else tokenA reserve in
       let raw := otherReserve - K / (inputReserve + amountIn) in
       (if bool_decide (inputToken = "tokenA")
        then tokenA reserve' = inputReserve + amountIn ∧ tokenB reserve' = otherReserve - raw
        else tokenB reserve' = inputReserve + amountIn ∧ tokenA reserve' = otherReserve - raw) ∧
       amountOut = raw - raw * LiquidityPool.FEE_RATE)%num ∧
  (∀ (env : Chaincodes Qc) (tokenAContract tokenBContract : string)
     (w w' : World Qc) (userId inputToken : string) (amountIn amountOut : Qc)
     (reserve reserve' : Reserve Qc),
     pool_reserve w = Some reserve →
     0 < tokenA reserve → 0 < tokenB reserve → 0 < amountIn →
     LiquidityPool.Swap env tokenAContract tokenBContract userId inputToken amountIn w
       = Ok (amountOut, w') →
     pool_reserve w' = Some reserve' →
     let K := tokenA reserve * tokenB reserve in
     let inputReserve :=
       if bool_decide (inputToken = "tokenA") then tokenA reserve else tokenB reserve in
     let otherReserve :=
       if bool_decide (inputToken = "tokenA") then tokenB reserve else tokenA reserve in
     let raw := otherReserve - K / (inputReserve + amountIn) in
     tokenA reserve' * tokenB reserve' = K ∧
     amountOut = raw * (1 - Q2Qc (3 # 1000)))%Qc.
Proof.
  split.
  - intros N HN env tokenAContract tokenBContract w w' userId inputToken amountIn amountOut
      Hrun.
    apply Swap_Ok in Hrun as (reserve & Hres & Hout & Hres' & _).
    cbn zeta in Hout, Hres'.
    eexists reserve, _. split; [done|]. split; [exact Hres'|]. cbn zeta.
    by case_bool_decide.
  - intros env tokenAContract tokenBContract w w' userId inputToken amountIn amountOut
      reserve reserve'.
    apply Swap_exact.
Qed.

(** C5 (amended): an [AddLiquidity] that succeeds stores the old reserves
    plus the supplied amounts and adds to the user's LP tokens
    [sqrt (amountA * amountB)] when a reserve of the pool is zero, be the
    other reserve zero or not, and the smaller of [amountA / reserveA] and
    [amountB / reserveB] when both reserves are non-zero; this holds in the
    arithmetic of the engine as in every other, for every square-root
    function.  On a pool of two zero reserves the reserves stored are the
    supplied amounts: in exact arithmetic, and in binary64, where they are
    the same numbers for amounts that are not NaN.  In exact arithmetic the
    smaller of the two quotients is at most each of them and is one of
    them. *)
Theorem AddLiquidity_minted_shares :
  (∀ (N : Type) (HN : Number N) (Math_sqrt : N → N) (env : Chaincodes N)
     (tokenAContract tokenBContract : string) (w w' : World N) (userId : string)
     (amountA amountB : N) (r : bool),
     LiquidityPool.AddLiquidity Math_sqrt env tokenAContract tokenBContract
       userId amountA amountB w = Ok (r, w') →
     ∃ reserve u u',
       pool_reserve w = Some reserve ∧
       pool_contributions w !! (LiquidityPool.USER_CONTRIBUTION_PREFIX +:+ userId) = Some u ∧
       pool_contributions w' !! (LiquidityPool.USER_CONTRIBUTION_PREFIX +:+ userId) = Some u' ∧
       pool_reserve w' =
         Some (Build_Reserve (tokenA reserve + amountA) (tokenB reserve + amountB)) ∧
       lpTokens u' =
         lpTokens u +
         (if (tokenA reserve === lit 0) || (tokenB reserve === lit 0)
          then Math_sqrt (amountA * amountB)
          else Math_min (amountA / tokenA reserve) (amountB / tokenB reserve)))%num ∧
  (∀ (Math_sqrt : Qc → Qc) (env : Chaincodes Qc) (tokenAContract tokenBContract : string)
     (w w' : World Qc) (userId : string) (amountA amountB : Qc) (reserve : Reserve Qc)
     (r : bool),
     LiquidityPool.AddLiquidity Math_sqrt env tokenAContract tokenBContract
       userId amountA amountB w = Ok (r, w') →
     pool_reserve w = Some reserve →
     (tokenA reserve = 0 ∧ tokenB reserve = 0 →
        pool_reserve w' = Some (Build_Reserve amountA amountB)) ∧
     (tokenA reserve ≠ 0 ∧ tokenB reserve ≠ 0 →
        ∃ u u' minted,
          pool_contributions w !! (LiquidityPool.USER_CONTRIBUTION_PREFIX +:+ userId)
            = Some u ∧
          pool_contributions w' !! (LiquidityPool.USER_CONTRIBUTION_PREFIX +:+ userId)
            = Some u' ∧
          lpTokens u' = lpTokens u + minted ∧
          minted ≤ amountA / tokenA reserve ∧
          minted ≤ amountB / tokenB reserve ∧
          (minted = amountA / tokenA reserve ∨ minted = amountB / tokenB reserve)))%Qc ∧
  (∀ (Math_sqrt : float → float) (env : Chaincodes float)
     (tokenAContract tokenBContract : string) (w w' : World float) (userId : string)
     (amountA amountB : float) (reserve : Reserve float) (r : bool),
     LiquidityPool.AddLiquidity Math_sqrt env tokenAContract tokenBContract
       userId amountA amountB w = Ok (r, w') →
     pool_reserve w = Some reserve →
     (tokenA reserve === lit 0) = true → (tokenB reserve === lit 0) = true →
     (amountA === amountA) = true → (amountB === amountB) = true →
     ∃ reserve',
       pool_reserve w' = Some reserve' ∧
       (tokenA reserve' === amountA) = true ∧
       (tokenB reserve' === amountB) = true)%num.
Proof.
  split_and!.
  - intros N HN Math_sqrt env tokenAContract tokenBContract w w' userId amountA amountB r
      Hrun.
    apply AddLiquidity_Ok in Hrun as (reserve & u & Hres & Hu & Hres' & Hu').
    eexists reserve, u, _. split; [done|]. split; [done|].
    split; [rewrite Hu'; apply lookup_insert_eq|]. split; [exact Hres'|]. reflexivity.
  - intros Math_sqrt env tokenAContract tokenBContract w w' userId amountA amountB reserve r.
    apply AddLiquidity_exact.
  - intros Math_sqrt env tokenAContract tokenBContract w w' userId amountA amountB reserve r
      Hrun Hres HzeroA HzeroB HA HB.
    apply AddLiquidity_Ok in Hrun as (reserve0 & u & Hres0 & _ & Hres' & _).
    rewrite Hres in Hres0. injection Hres0 as <-.
    eexists. split; [exact Hres'|]. cbn [tokenA tokenB].
    split; by apply float_zero_add.
Qed.

(** C8 (amended): over a registry keyed by user name, a [distributeFees]
    that returns has added to the earned fees of each provider its share
    [(contribution / liquidity) * fee], the liquidity being the contributions
    added up from 0 in the order of the keys, and has changed nothing else;
    it returns when every share is a finite number and fails when a share
    is NaN; the credits depend on the fee and the registry only.  This holds
    in the arithmetic of the engine as in every other.  In exact arithmetic,
    when the total contribution is not zero, it returns and the share is
    [fee * contribution / totalContribution].  In binary64 the shares that
    can be sent are the finite ones, and a share is received as it is, a
    zero as 0. *)
Theorem distributeFees_pro_rata :
  (∀ (N : Type) (HN : Number N) (w : World N) (fee : N),
     registry_wf (providers w) →
     (∀ w' r,
        LiquidityPool.distributeFees fee w = Ok (r, w') →
        same_but_providers w w' ∧
        ∀ k, providers w' !! k
             = credited (fee_share_received (providers w) fee) <$> providers w !! k) ∧
     ((∀ k p, providers w !! k = Some p →
              sendable (fee_share (providers w) fee p) = true) →
      ∃ w', LiquidityPool.distributeFees fee w = Ok (tt, w')) ∧
     (∀ k p, providers w !! k = Some p →
             (fee_share (providers w) fee p === fee_share (providers w) fee p)%num = false →
             ∀ r w', LiquidityPool.distributeFees fee w ≠ Ok (r, w')) ∧
     (∀ w2, providers w2 = providers w →
            providers (commit w2 (LiquidityPool.distributeFees fee w2))
            = providers (commit w (LiquidityPool.distributeFees fee w)))) ∧
  (∀ (w : World Qc) (fee : Qc),
     registry_wf (providers w) →
     totalContribution (providers w) ≠ 0 →
     ∃ w',
       LiquidityPool.distributeFees fee w = Ok (tt, w') ∧
       ∀ k, providers w' !! k =
            credited (λ provider, fee * amount provider / totalContribution (providers w))
              <$> providers w !! k)%Qc ∧
  (∀ (reg : gmap string (LiquidityProvider float)) (fee : float)
     (provider : LiquidityProvider float),
     sendable (fee_share reg fee provider) = is_finite (fee_share reg fee provider) ∧
     fee_share_received reg fee provider
     = if PrimFloat.eqb (fee_share reg fee provider) 0 then 0%float
       else fee_share reg fee provider).
Proof.
  split; [|split].
  - intros N HN w fee Hwf. split_and!.
    + intros w' r Hrun. by apply distributeFees_Ok in Hrun as (_ & Hframe & Hprov).
    + intros Hsend.
      destruct (distributeFees_credits fee w Hwf Hsend) as (w' & Hrun & _). eauto.
    + intros k p Hp Hnan r w' Hrun.
      apply distributeFees_Ok in Hrun as (Hsend & _); [|done].
      specialize (Hsend k p Hp). unfold sendable in Hsend. by rewrite Hnan in Hsend.
    + intros w2 Heq.
      destruct (LiquidityPool.distributeFees fee w) as [[r w']|e] eqn:Hrun.
      * apply distributeFees_Ok in Hrun as (Hsend & _ & Hprov); [|done].
        destruct (distributeFees_credits fee w2) as (w2' & Hrun2 & _ & Hprov2).
        { by rewrite Heq. }
        { by rewrite Heq. }
        rewrite Hrun2. cbn. apply map_eq. intros k. by rewrite Hprov, Hprov2, Heq.
      * destruct (LiquidityPool.distributeFees fee w2) as [[r2 w2']|e2] eqn:Hrun2; [|done].
        apply distributeFees_Ok in Hrun2 as (Hsend & _); [|by rewrite Heq].
        rewrite Heq in Hsend.
        destruct (distributeFees_credits fee w Hwf Hsend) as (w' & Hrun' & _).
        rewrite Hrun in Hrun'. discriminate Hrun'.
  - intros w fee Hwf Htotal.
    destruct (distributeFees_exact w fee Hwf Htotal) as (w' & Hrun & _ & Hprov). eauto.
  - intros reg fee provider. split; [apply sendable_binary64|].
    unfold fee_share_received. apply float_add_zero.
Qed.

(** ** The basket swap *)

Section basket_generic.
Context {N : Type} `{Number N}.
Variable env : Chaincodes N.
Local Open Scope num_scope.

Lemma SwapCBDCs_Ok (w w' : World N) (amount : N) (fromCBDC toCBDC user : string) res :
  BasketContract.SwapCBDCs env amount fromCBDC toCBDC user w = Ok (res, w') →
  ∃ basket fromIndex toIndex from_reserve to_reserve,
    baskets w !! "basket1" = Some basket ∧
    BasketContract.indexOf (Tokens basket) fromCBDC = Some fromIndex ∧
    BasketContract.indexOf (Tokens basket) toCBDC = Some toIndex ∧
    Reserves basket !! fromIndex = Some from_reserve ∧
    let Reserves1 := <[fromIndex := from_reserve - amount]> (Reserves basket) in
    Reserves1 !! toIndex = Some to_reserve ∧
    let toAmount :=
      BasketContract.invariant (Reserves basket) - BasketContract.invariant Reserves1 in
    res = (amount, fromCBDC, toAmount, toCBDC) ∧
    w' = set_basket "basket1"
           (set_Reserves basket (<[toIndex := to_reserve + toAmount]> Reserves1))
           (log_call (Build_TokenCall "alpha" "Transfer"
                        BasketContract.reserveWallet user toAmount)
              (log_call (Build_TokenCall "alpha" "Transfer"
                           user BasketContract.reserveWallet amount) w)).
Proof.
  unfold BasketContract.SwapCBDCs, BasketContract.at_index. intros Hrun.
  tx_run. eexists _, _, _, _, _. split_and!; done.
Qed.

(** The inner loop of the invariant, over the reserves from index [j] on. *)
Lemma inner_loop_scaled (i : nat) (ri : N) (rest : list N) :
  ∀ (j : nat) (D : N),
    foldl (λ D jr, if bool_decide (i ≠ jr.1) then D * (lit 1 + ri / jr.2) else D)
      D (imap (λ k r, ((j + k)%nat, r)) rest)
    = scaled i ri j rest D.
Proof.
  induction rest as [|rj rest IH]; intros j D; [done|].
  cbn [imap foldl scaled fst snd]. rewrite Nat.add_0_r.
  rewrite <- IH. f_equal. apply imap_ext. intros k r _. cbn. f_equal. lia.
Qed.

(** The outer loop of the invariant, over the reserves from index [i] on. *)
Lemma outer_loop_accumulate (Reserves : list N) (todo : list N) :
  ∀ (i : nat) (D : N),
    foldl (λ D ir,
             foldl (λ D jr, if bool_decide (ir.1 ≠ jr.1)
                            then D * (lit 1 + ir.2 / jr.2) else D)
               (D + ir.2) (imap pair Reserves))
      D (imap (λ k r, ((i + k)%nat, r)) todo)
    = accumulate Reserves i todo D.
Proof.
  induction todo as [|ri todo IH]; intros i D; [done|].
  cbn [imap foldl accumulate fst snd]. rewrite Nat.add_0_r.
  rewrite <- (inner_loop_scaled i ri Reserves 0), <- IH. f_equal.
  apply imap_ext. intros k r _. cbn. f_equal. lia.
Qed.

(** The two loops of [SwapCBDCs] compute the invariant by running
    accumulation, in every arithmetic. *)
Lemma invariant_running (Reserves : list N) :
  BasketContract.invariant Reserves = running_invariant Reserves.
Proof.
  unfold BasketContract.invariant, running_invariant.
  by rewrite <- (outer_loop_accumulate Reserves Reserves 0).
Qed.

(** C1 (amended): a basket swap that returns has computed [D] by running
    accumulation: from 0, the reserve of each asset in turn is added to [D],
    and [D] is then multiplied by [1 + reserve_i / reserve_j] for every other
    asset [j].  It has done so on the stored reserves and again after
    subtracting [amount] from the [from] reserve; the difference of the two
    is the amount transferred to the user and added to the [to] reserve.
    This holds in the arithmetic of the engine as in every other. *)
Theorem SwapCBDCs_credits_invariant_drop (w w' : World N) (amount : N)
    (fromCBDC toCBDC user : string) res :
  BasketContract.SwapCBDCs env amount fromCBDC toCBDC user w = Ok (res, w') →
  ∃ basket fromIndex toIndex from_reserve to_reserve,
    baskets w !! "basket1" = Some basket ∧
    BasketContract.indexOf (Tokens basket) fromCBDC = Some fromIndex ∧
    BasketContract.indexOf (Tokens basket) toCBDC = Some toIndex ∧
    Reserves basket !! fromIndex = Some from_reserve ∧
    let Reserves1 := <[fromIndex := from_reserve - amount]> (Reserves basket) in
    Reserves1 !! toIndex = Some to_reserve ∧
    let toAmount := running_invariant (Reserves basket) - running_invariant Reserves1 in
    res = (amount, fromCBDC, toAmount, toCBDC) ∧
    baskets w' !! "basket1" =
      Some (set_Reserves basket (<[toIndex := to_reserve + toAmount]> Reserves1)) ∧
    calls w' = calls w ++
      [ Build_TokenCall "alpha" "Transfer" user BasketContract.reserveWallet amount;
        Build_TokenCall "alpha" "Transfer" BasketContract.reserveWallet user toAmount ].
Proof.
  intros Hrun.
  apply SwapCBDCs_Ok in Hrun
    as (basket & fromIndex & toIndex & from_reserve & to_reserve
        & Hbasket & Hfrom & Hto & Hfrom_res & Hto_res & -> & ->).
  rewrite !invariant_running in *.
  exists basket, fromIndex, toIndex, from_reserve, to_reserve.
  do 4 (split; [done|]). cbn zeta. do 2 (split; [done|]). split.
  - cbn. by rewrite lookup_insert_eq.
  - cbn. by rewrite <- app_assoc.
Qed.
End basket_generic.

Section basket_exact.
Variable env : Chaincodes Qc.
Local Open Scope Qc_scope.

Lemma inner_loop_product (i : nat) (ri D : Qc) (l : list (nat * Qc)) :
  foldl (λ D jr, if bool_decide (i ≠ jr.1) then (D * (lit 1 + ri / jr.2))%num else D) D l
  = D * product ((λ jr, if bool_decide (i ≠ jr.1) then (lit 1 + ri / jr.2)%num else lit 1)
                   <$> l).
Proof.
  revert D. induction l as [|jr l IH]; intros D; cbn -[Qcplus Qcmult Qcdiv Q2Qc].
  - change (lit (N:=Qc) 1) with 1. ring.
  - rewrite IH. unfold product. case_bool_decide; cbn -[Qcplus Qcmult Qcdiv Q2Qc];
      change (Q2Qc 1) with 1; ring.
Qed.

Lemma outer_loop_accumulated (R : list Qc) (D : Qc) (l : list (nat * Qc)) :
  foldl (λ D ir,
           foldl (λ D jr, if bool_decide (ir.1 ≠ jr.1)
                          then (D * (lit 1 + ir.2 / jr.2))%num else D)
             (D + ir.2)%num (imap pair R)) D l
  = D * product ((λ ir, factor R ir.1 ir.2) <$> l)
    + accumulated ((λ ir, (ir.2, factor R ir.1 ir.2)) <$> l).
Proof.
  revert D. induction l as [|ir l IH]; intros D; cbn -[Qcplus Qcmult Qcdiv Q2Qc factor].
  - change (lit (N:=Qc) 1) with 1. change (lit (N:=Qc) 0) with 0. ring.
  - rewrite IH, inner_loop_product. fold (factor R ir.1 ir.2).
    rewrite <- list_fmap_compose. unfold product. cbn -[Qcplus Qcmult Qcdiv Q2Qc factor].
    change (snd ∘ (λ ir0 : nat * Qc, (ir0.2, factor R ir0.1 ir0.2)))
      with (λ ir0 : nat * Qc, factor R ir0.1 ir0.2).
    ring.
Qed.

(** Exact arithmetic only: the invariant that the loops compute is the sum
    over [i] of [reserve_i] times the factors [Π_{j≠k} (1 + reserve_k /
    reserve_j)] of every [k] from [i] on. *)
Lemma invariant_accumulated (R : list Qc) :
  BasketContract.invariant R = accumulated_invariant R.
Proof.
  unfold BasketContract.invariant, accumulated_invariant.
  rewrite outer_loop_accumulated. change (lit (N:=Qc) 0) with 0. ring.
Qed.

(** Exact arithmetic only: the closed form of the running accumulation. *)
Lemma running_invariant_accumulated (R : list Qc) :
  running_invariant R = accumulated_invariant R.
Proof. by rewrite <- invariant_running, invariant_accumulated. Qed.
End basket_exact.

(** ** What a pool swap does to the reserves *)

Section pool_swap.
Context {N : Type} `{Number N}.
Variable env : Chaincodes N.
Variables tokenAContract tokenBContract : string.
Local Open Scope num_scope.

(** C2 (amended): after a swap that returns, the stored reserve of the output
    side is lower by exactly the raw, pre-fee output, while the caller
    receives the raw output less the fee of 0.3 %; the fee is passed to
    [distributeFees], which credits the providers, and is not part of the
    stored reserves. *)
Theorem Swap_output_reserve_drops_by_raw_output (w w' : World N)
    (userId inputToken : string) (amountIn amountOut : N) :
  LiquidityPool.Swap env tokenAContract tokenBContract userId inputToken amountIn w
    = Ok (amountOut, w') →
  ∃ reserve reserve' raw,
    pool_reserve w = Some reserve ∧
    pool_reserve w' = Some reserve' ∧
    raw = (if bool_decide (inputToken = "tokenA")
           then tokenB reserve - tokenA reserve * tokenB reserve / (tokenA reserve + amountIn)
           else tokenA reserve - tokenA reserve * tokenB reserve / (tokenB reserve + amountIn)) ∧
    amountOut = raw - raw * LiquidityPool.FEE_RATE ∧
    (if bool_decide (inputToken = "tokenA")
     then tokenB reserve' = tokenB reserve - raw
     else tokenA reserve' = tokenA reserve - raw) ∧
    ∃ w1, LiquidityPool.distributeFees (raw * LiquidityPool.FEE_RATE) w = Ok (tt, w1) ∧
          providers w' = providers w1.
Proof.
  intros Hrun. apply Swap_Ok in Hrun as (reserve & Hres & Hout & Hres' & Hfee).
  eexists reserve, _, _. split_and!; [done | exact Hres' | reflexivity | done | | done].
  by case_bool_decide.
Qed.
End pool_swap.

(** ** The basket pays earned fees on withdrawal *)

Section basket_withdrawal.
Context {N : Type} `{Number N}.
Variable env : Chaincodes N.
Local Open Scope num_scope.

Lemma basket_RemoveLiquidity_pays_earned_fees (w w' : World N)
    (percentage : N) (user : string) r :
  BasketContract.RemoveLiquidity env percentage user w = Ok (r, w') →
  ∃ provider,
    providers w !! user = Some provider ∧
    calls w' = calls w ++
      [ Build_TokenCall "alpha" "Transfer" BasketContract.reserveWallet user
          (earnedFees provider) ] ∧
    providers w' !! user =
      Some (set_earnedFees provider (earnedFees provider + (- earnedFees provider + lit 0))).
Proof.
  unfold BasketContract.RemoveLiquidity, LiquidityProviderContract.GetLiquidityProvider,
    LiquidityProviderContract.UpdateEarnedFees.
  intros Hrun. tx_run. cbn in *. simplify_eq.
  eexists. split_and!; [done | done |]. by rewrite lookup_insert_eq.
Qed.
End basket_withdrawal.

(** ** The volatility check *)

Section volatility_check.
Context {N : Type} `{Number N}.
Variable env : Chaincodes N.
Variable oracleContractName : string.
Variable volatilityThreshold : N.
Local Open Scope num_scope.

Local Abbreviation loop :=
  (RiskManagementContract.volatility_loop env volatilityThreshold oracleContractName).
Local Abbreviation change := (price_change env oracleContractName).
Local Abbreviation is_volatile := (volatile env oracleContractName volatilityThreshold).

Lemma loop_lookup_fails (token : string) (rest : list string) (w : World N) :
  change token = None →
  loop (token :: rest) w = Err (fetch_error env oracleContractName token).
Proof.
  unfold price_change, price_of, fetch_error. cbn [RiskManagementContract.volatility_loop].
  intros Hnone. tx_unfold.
  destruct (oracle env oracleContractName "GetCurrencyPrice" token) as [m|s1 p1]; [done|].
  destruct (oracle env oracleContractName "GetPreviousCurrencyPrice" token) as [m|s2 p2];
    [done|].
  cbn. repeat case_bool_decide; simplify_eq; done.
Qed.

Lemma loop_lookup_succeeds (token : string) (rest : list string) (w : World N) c :
  change token = Some c →
  loop (token :: rest) w = if c >? volatilityThreshold then Ok (false, w) else loop rest w.
Proof.
  unfold price_change, price_of. cbn [RiskManagementContract.volatility_loop].
  intros Hsome. tx_unfold.
  destruct (oracle env oracleContractName "GetCurrencyPrice" token) as [m|s1 p1]; [done|].
  destruct (oracle env oracleContractName "GetPreviousCurrencyPrice" token) as [m|s2 p2];
    [by case_bool_decide|].
  cbn. repeat case_bool_decide; simplify_eq; try done.
  by destruct (_ >? _).
Qed.

Lemma loop_quiet_prefix (pre rest : list string) (w : World N) :
  Forall (λ t, is_Some (change t) ∧ is_volatile t = false) pre →
  loop (pre ++ rest) w = loop rest w.
Proof.
  induction 1 as [|t pre [[c Hc] Hquiet] _ IH]; [done|].
  cbn [app]. rewrite (loop_lookup_succeeds _ _ _ _ Hc).
  unfold volatile in Hquiet. rewrite Hc in Hquiet. by rewrite Hquiet.
Qed.

Lemma loop_all_available (tokens : list string) (w : World N) :
  Forall (λ t, is_Some (change t)) tokens →
  loop tokens w = Ok (forallb (λ t, negb (is_volatile t)) tokens, w).
Proof.
  induction 1 as [|t tokens [c Hc] _ IH]; [done|].
  rewrite (loop_lookup_succeeds _ _ _ _ Hc). cbn [forallb].
  unfold volatile at 1. rewrite Hc. by destruct (c >? volatilityThreshold).
Qed.

(** C9 (amended): on a stored basket, when both prices of every asset are
    available, [CheckAssetVolatility] returns true exactly when no asset's
    relative change exceeds the threshold; a failed lookup fails the check
    when no asset before it exceeded the threshold, and an asset that
    exceeds it ends the check with false, later assets not being looked up. *)
Theorem CheckAssetVolatility_stops_at_first_volatile_asset (w : World N)
    (basket : Basket N) :
  baskets w !! "basket1" = Some basket →
  (Forall (λ t, is_Some (change t)) (Tokens basket) →
     RiskManagementContract.CheckAssetVolatility env volatilityThreshold oracleContractName w
     = Ok (forallb (λ t, negb (is_volatile t)) (Tokens basket), w)) ∧
  (∀ pre t post,
     Tokens basket = pre ++ t :: post →
     Forall (λ t', is_Some (change t') ∧ is_volatile t' = false) pre →
     change t = None →
     RiskManagementContract.CheckAssetVolatility env volatilityThreshold oracleContractName w
     = Err (fetch_error env oracleContractName t)) ∧
  (∀ pre t post,
     Tokens basket = pre ++ t :: post →
     Forall (λ t', is_Some (change t') ∧ is_volatile t' = false) pre →
     is_volatile t = true →
     RiskManagementContract.CheckAssetVolatility env volatilityThreshold oracleContractName w
     = Ok (false, w)).
Proof.
  intros Hbasket.
  assert (RiskManagementContract.CheckAssetVolatility env volatilityThreshold
            oracleContractName w = loop (Tokens basket) w) as ->.
  { unfold RiskManagementContract.CheckAssetVolatility. tx_unfold. by rewrite Hbasket. }
  split_and!.
  - apply loop_all_available.
  - intros pre t post -> Hpre Hnone.
    rewrite (loop_quiet_prefix _ _ _ Hpre). by apply loop_lookup_fails.
  - intros pre t post -> Hpre Hvol.
    rewrite (loop_quiet_prefix _ _ _ Hpre).
    unfold volatile in Hvol. destruct (change t) as [c|] eqn:Hc; [|done].
    by rewrite (loop_lookup_succeeds _ _ _ _ Hc), Hvol.
Qed.
End volatility_check.

(** The placeholder of [risk/chaincode] looks nothing up: it returns true on
    every ledger, whatever the prices were. *)
Lemma placeholder_CheckAssetVolatility_true {N} (w : World N) :
  RiskManagementPlaceholder.CheckAssetVolatility w = Ok (true, w).
Proof. reflexivity. Qed.

(** ** The statements on concrete ledgers *)

Section scenarios_float.
Local Open Scope float_scope.

Local Abbreviation position := (LiquidityPool.USER_CONTRIBUTION_PREFIX +:+ "user1").

(** C4, counterexample: on a pool with reserves 5 and 7 [Init] does not fail; it
    succeeds and replaces the reserves by zero. *)
Lemma Init_on_initialized_pool_counterexample :
  LiquidityPool.Init (pool_world 5 7 ∅ ∅)
    = Ok (tt, pool_world (lit 0) (lit 0) ∅ ∅) ∧
  pool_reserve (commit (pool_world 5 7 ∅ ∅) (LiquidityPool.Init (pool_world 5 7 ∅ ∅)))
    ≠ pool_reserve (pool_world 5 7 ∅ ∅).
Proof. split; [reflexivity|]. cbn. by intros [=]. Qed.

(** C2, counterexample: swapping 1000 of tokenA into a pool of 1000 and 1000
    returns 498.5 and leaves 500 of tokenB, not 1000 - 498.5. *)
Lemma Swap_output_reserve_counterexample :
  ∃ w' reserve',
    LiquidityPool.Swap (priced_env 1 1) "A" "B" "user1" "tokenA" 1000
      (pool_world 1000 1000 ∅ ∅) = Ok (498.5, w') ∧
    pool_reserve w' = Some reserve' ∧
    tokenB reserve' = 500 ∧
    tokenB reserve' ≠ 1000 - 498.5.
Proof.
  eexists _, _. split_and!; [vm_compute; reflexivity | reflexivity | reflexivity |].
  vm_compute. by intros [=].
Qed.

(** C2, witness: the same swap. *)
Lemma Swap_output_reserve_witness :
  ∃ reserve reserve' raw,
    pool_reserve (pool_world 1000 1000 ∅ ∅) = Some reserve ∧
    pool_reserve
      (commit (pool_world 1000 1000 ∅ ∅)
         (LiquidityPool.Swap (priced_env 1 1) "A" "B" "user1" "tokenA" 1000
            (pool_world 1000 1000 ∅ ∅))) = Some reserve' ∧
    raw = (if bool_decide ("tokenA" = "tokenA")
           then tokenB reserve - tokenA reserve * tokenB reserve / (tokenA reserve + 1000)
           else tokenA reserve - tokenA reserve * tokenB reserve / (tokenB reserve + 1000))%num ∧
    498.5 = (raw - raw * LiquidityPool.FEE_RATE)%num ∧
    (if bool_decide ("tokenA" = "tokenA")
     then tokenB reserve' = (tokenB reserve - raw)%num
     else tokenA reserve' = (tokenA reserve - raw)%num) ∧
    ∃ w1, LiquidityPool.distributeFees (raw * LiquidityPool.FEE_RATE)%num
            (pool_world 1000 1000 ∅ ∅) = Ok (tt, w1) ∧
          providers
            (commit (pool_world 1000 1000 ∅ ∅)
               (LiquidityPool.Swap (priced_env 1 1) "A" "B" "user1" "tokenA" 1000
                  (pool_world 1000 1000 ∅ ∅))) = providers w1.
Proof.
  apply (Swap_output_reserve_drops_by_raw_output (priced_env 1 1) "A" "B"
           (pool_world 1000 1000 ∅ ∅) _ "user1" "tokenA" 1000 498.5).
  vm_compute. reflexivity.
Defined.

(** C6, counterexample: on an empty pool the positive amounts 1000 and 500 are
    refused at equal prices; on a pool of 1000 and 1000 the amounts 10 and 20,
    off the ratio of the reserves, are accepted at the prices 2 and 1. *)
Lemma AddLiquidity_ratio_counterexample :
  LiquidityPool.AddLiquidity PrimFloat.sqrt (priced_env 1 1) "A" "B" "user1" 1000 500
    (pool_world 0 0 {[ position := Build_UserContribution "user1" 0 0 0 ]} ∅)
    = Err (Error "Provided amounts don't match the current price ratio.") ∧
  ∃ w', LiquidityPool.AddLiquidity PrimFloat.sqrt (priced_env 2 1) "A" "B" "user1" 10 20
          (pool_world 1000 1000
             {[ position := Build_UserContribution "user1" 1000 1000 1000 ]} ∅)
        = Ok (true, w').
Proof. split; [vm_compute; reflexivity|]. eexists. vm_compute. reflexivity. Qed.

(** C6, witness: amounts 10 and 20 at the prices 3 and 1. *)
Lemma AddLiquidity_price_ratio_witness :
  LiquidityPool.AddLiquidity PrimFloat.sqrt (priced_env 3 1) "A" "B" "user1" 10 20
    (pool_world 1000 1000 ∅ ∅)
    = Err (Error "Provided amounts don't match the current price ratio.")
  ↔ (Math_abs (10 * 3 - 20 * 1) >? lit (1 # 100))%num = true.
Proof.
  apply (AddLiquidity_price_ratio_check PrimFloat.sqrt (priced_env 3 1) "A" "B");
    reflexivity.
Defined.

(** C10, witness: user1 has no position in an initialized pool. *)
Lemma first_time_provider_witness :
  LiquidityPool.AddLiquidity PrimFloat.sqrt (priced_env 1 1) "A" "B" "user1" 1000 1000
    (pool_world 0 0 ∅ ∅) = Err SyntaxError ∧
  LiquidityPool.RemoveLiquidity (priced_env 1 1) "A" "B" "user1" 10
    (pool_world 0 0 ∅ ∅) = Err SyntaxError.
Proof.
  destruct (first_time_provider_never_commits PrimFloat.sqrt (priced_env 1 1) "A" "B"
              (pool_world 0 0 ∅ ∅) "user1") as (_ & Hadd & Hremove); [reflexivity|].
  split; [|apply Hremove].
  eapply Hadd; try reflexivity; by eexists _, _.
Defined.

(** C7, witness: user1 is owed earned fees of 5 and withdraws half of a
    position; two transfers of 498.5 are made and the earned fees stay 5. *)
Lemma pool_RemoveLiquidity_earned_fees_witness :
  ∃ w',
    LiquidityPool.RemoveLiquidity (priced_env 1 1) "A" "B" "user1" 500
      (pool_world 1000 1000
         {[ position := Build_UserContribution "user1" 1000 1000 1000 ]}
         {[ "user1" := Build_LiquidityProvider "user1" 1000 5 ]}) = Ok (true, w') ∧
    calls w' =
      [ Build_TokenCall "A" "transfer" LiquidityPool.RESERVE_WALLET_KEY "user1" 498.5;
        Build_TokenCall "B" "transfer" LiquidityPool.RESERVE_WALLET_KEY "user1" 498.5 ] ∧
    providers w' = {[ "user1" := Build_LiquidityProvider "user1" 1000 5 ]}.
Proof.
  eexists. split; [vm_compute; reflexivity|].
  match goal with
  | |- calls ?w' = _ ∧ _ =>
      destruct (pool_RemoveLiquidity_pays_no_earned_fees (priced_env 1 1) "A" "B"
                  (pool_world 1000 1000
                     {[ position := Build_UserContribution "user1" 1000 1000 1000 ]}
                     {[ "user1" := Build_LiquidityProvider "user1" 1000 5 ]})
                  w' "user1" 500 true) as (u & Hu & Hcalls & Hprov);
        [vm_compute; reflexivity|]
  end.
  split; [|exact Hprov].
  rewrite Hcalls. vm_compute in Hu. injection Hu as <-. vm_compute. reflexivity.
Defined.

(** C1, counterexample: on reserves 4 and 4 a swap of 2 credits 3, where the
    invariant of the specification drops by 1. *)
Lemma SwapCBDCs_spec_invariant_counterexample :
  ∃ w',
    BasketContract.SwapCBDCs (priced_env 1 1) 2 "a" "b" "user1"
      (basket_world 2 ["a"; "b"] [4; 4]) = Ok ((2, "a", 3, "b"), w') ∧
    (spec_invariant [4; 4] - spec_invariant [2; 4])%num = 1 ∧
    3 ≠ 1.
Proof.
  eexists. split_and!; [vm_compute; reflexivity | vm_compute; reflexivity |].
  by intros [=].
Qed.

(** C1, witness: the swap of 2 on reserves 4 and 4, in binary64. *)
Lemma SwapCBDCs_credits_invariant_drop_witness :
  ∃ w',
    BasketContract.SwapCBDCs (priced_env 1 1) 2 "a" "b" "user1"
      (basket_world 2 ["a"; "b"] [4; 4])
    = Ok ((2, "a", (running_invariant [4; 4] - running_invariant [4 - 2; 4])%num, "b"), w').
Proof.
  destruct (BasketContract.SwapCBDCs (priced_env 1 1) 2 "a" "b" "user1"
              (basket_world 2 ["a"; "b"] [4; 4])) as [[res w']|e] eqn:Hrun;
    [|vm_compute in Hrun; discriminate Hrun].
  destruct (SwapCBDCs_credits_invariant_drop (priced_env 1 1) _ w' 2 "a" "b" "user1" res Hrun)
    as (basket & fromIndex & toIndex & from_reserve & to_reserve
        & Hbasket & Hfrom & _ & Hfrom_res & _ & -> & _).
  cbn in Hbasket. injection Hbasket as <-.
  cbn in Hfrom. injection Hfrom as <-.
  cbn in Hfrom_res. injection Hfrom_res as <-.
  by exists w'.
Defined.

(** C3, counterexample: in binary64, 17 of tokenA into a pool of 1000 and
    1000 return a value that is not the raw output times [1 - 0.003], and
    300 of tokenA leave reserves whose product is not the product before. *)
Lemma Swap_constant_product_counterexample :
  (∃ amountOut w',
     LiquidityPool.Swap (priced_env 1 1) "A" "B" "user1" "tokenA" 17
       (pool_world 1000 1000 ∅ ∅) = Ok (amountOut, w') ∧
     amountOut ≠ ((1000 - 1000 * 1000 / (1000 + 17)) * (1 - LiquidityPool.FEE_RATE))%num) ∧
  (∃ amountOut w' reserve',
     LiquidityPool.Swap (priced_env 1 1) "A" "B" "user1" "tokenA" 300
       (pool_world 1000 1000 ∅ ∅) = Ok (amountOut, w') ∧
     pool_reserve w' = Some reserve' ∧
     (tokenA reserve' * tokenB reserve')%num ≠ (1000 * 1000)%num).
Proof.
  split.
  - eexists _, _. split; [vm_compute; reflexivity|]. vm_compute. by intros [=].
  - eexists _, _, _. split_and!; [vm_compute; reflexivity | reflexivity |].
    vm_compute. by intros [=].
Qed.

(** C5, counterexample: on a pool with reserves 0 and 5, the amounts 2 and 8
    at the prices 4 and 1 mint [sqrt (2 * 8) = 4] LP tokens, not the smaller
    of [2 / 0] and [8 / 5], and the reserves become 2 and 13, not 2 and 8. *)
Lemma AddLiquidity_minted_shares_counterexample :
  ∃ w' u',
    LiquidityPool.AddLiquidity PrimFloat.sqrt (priced_env 4 1) "A" "B" "user1" 2 8
      (pool_world 0 5 {[ position := Build_UserContribution "user1" 0 0 0 ]} ∅)
      = Ok (true, w') ∧
    pool_contributions w' !! position = Some u' ∧
    lpTokens u' = 4 ∧
    lpTokens u' ≠ Math_min (2 / 0) (8 / 5) ∧
    pool_reserve w' = Some (Build_Reserve 2 13) ∧
    pool_reserve w' ≠ Some (Build_Reserve 2 8).
Proof.
  eexists _, _. split_and!.
  - vm_compute. reflexivity.
  - vm_compute. reflexivity.
  - reflexivity.
  - vm_compute. by intros [=].
  - reflexivity.
  - vm_compute. by intros [=].
Qed.

(** C8, counterexample: in binary64, with contributions of 1 and 48 a fee of
    49 credits the first provider [(1 / 49) * 49], which is below 1, where
    [49 * 1 / 49] is 1. *)
Lemma distributeFees_pro_rata_counterexample :
  ∃ w' p1,
    LiquidityPool.distributeFees 49
      (pool_world 1000 1000 ∅
         {[ "p1" := Build_LiquidityProvider "p1" 1 0;
            "p2" := Build_LiquidityProvider "p2" 48 0 ]}) = Ok (tt, w') ∧
    providers w' !! "p1" = Some p1 ∧
    earnedFees p1 = 0x1.fffffffffffffp-1 ∧
    (49 * 1 / 49)%num = 1 ∧
    earnedFees p1 ≠ (49 * 1 / 49)%num.
Proof.
  eexists _, _. split_and!.
  - vm_compute. reflexivity.
  - vm_compute. reflexivity.
  - reflexivity.
  - vm_compute. reflexivity.
  - vm_compute. by intros [=].
Qed.

(** C9, counterexample: the price of "a" doubled and the lookup of "b" fails;
    the check does not fail, it returns false. *)
Lemma CheckAssetVolatility_failed_lookup_counterexample :
  price_change (history_env 200 100 None) "OracleContract" "b" = None ∧
  RiskManagementContract.CheckAssetVolatility (history_env 200 100 None)
    (lit (5 # 100)) "OracleContract" (basket_world 2 ["a"; "b"] [4; 4])
    = Ok (false, basket_world 2 ["a"; "b"] [4; 4]).
Proof. split; vm_compute; reflexivity. Qed.

(** C9, witness: "a" moved by one percent, "b" not at all. *)
Lemma CheckAssetVolatility_witness :
  RiskManagementContract.CheckAssetVolatility (history_env 101 100 (Some (50, 50)))
    (lit (5 # 100)) "OracleContract" (basket_world 2 ["a"; "b"] [4; 4])
    = Ok (true, basket_world 2 ["a"; "b"] [4; 4]).
Proof.
  destruct (CheckAssetVolatility_stops_at_first_volatile_asset
              (history_env 101 100 (Some (50, 50))) "OracleContract" (lit (5 # 100))
              (basket_world 2 ["a"; "b"] [4; 4])
              (Build_Basket "basket1" 2 ["a"; "b"] [4; 4] [] [] []))
    as (Hall & _ & _); [reflexivity|].
  rewrite Hall; [vm_compute; reflexivity|].
  repeat constructor; vm_compute; eauto.
Defined.
End scenarios_float.

Section scenarios_exact.
Local Open Scope Qc_scope.

Local Abbreviation position := (LiquidityPool.USER_CONTRIBUTION_PREFIX +:+ "user1").
Local Abbreviation q := Q2Qc.

(** C3, witness: 100 of tokenA into a pool of 1000 and 1000, in exact
    arithmetic and in binary64. *)
Lemma Swap_constant_product_witness :
  (∃ amountOut w' reserve',
     LiquidityPool.Swap (priced_env (q 1) (q 1)) "A" "B" "user1" "tokenA" (q 100)
       (pool_world (q 1000) (q 1000) ∅ ∅) = Ok (amountOut, w') ∧
     pool_reserve w' = Some reserve' ∧
     tokenA reserve' * tokenB reserve' = q 1000 * q 1000 ∧
     amountOut = (q 1000 - q 1000 * q 1000 / (q 1000 + q 100)) * (1 - q (3 # 1000))) ∧
  (∃ amountOut w',
     LiquidityPool.Swap (priced_env 1%float 1%float) "A" "B" "user1" "tokenA" 100%float
       (pool_world 1000%float 1000%float ∅ ∅) = Ok (amountOut, w') ∧
     amountOut
     = ((1000 - 1000 * 1000 / (1000 + 100))
        - (1000 - 1000 * 1000 / (1000 + 100)) * LiquidityPool.FEE_RATE)%float).
Proof.
  destruct Swap_constant_product as [Hengine Hexact]. split.
  - destruct (LiquidityPool.Swap (priced_env (q 1) (q 1)) "A" "B" "user1" "tokenA" (q 100)
                (pool_world (q 1000) (q 1000) ∅ ∅)) as [[amountOut w']|e] eqn:Hrun;
      [|vm_compute in Hrun; discriminate Hrun].
    destruct (Hengine _ _ _ _ _ _ _ _ _ _ _ Hrun)
      as (reserve & reserve' & Hres & Hres' & _).
    cbn in Hres. injection Hres as <-.
    destruct (Hexact (priced_env (q 1) (q 1)) "A" "B"
                (pool_world (q 1000) (q 1000) ∅ ∅) w' "user1" "tokenA" (q 100) amountOut
                (Build_Reserve (q 1000) (q 1000)) reserve')
      as (HK & Hout);
      [reflexivity | reflexivity | reflexivity | reflexivity | exact Hrun | exact Hres' |].
    by exists amountOut, w', reserve'.
  - destruct (LiquidityPool.Swap (priced_env 1%float 1%float) "A" "B" "user1" "tokenA"
                100%float (pool_world 1000%float 1000%float ∅ ∅))
      as [[amountOut w']|e] eqn:Hrun; [|vm_compute in Hrun; discriminate Hrun].
    destruct (Hengine _ _ _ _ _ _ _ _ _ _ _ Hrun)
      as (reserve & reserve' & Hres & _ & _ & Hout).
    cbn in Hres. injection Hres as <-.
    by exists amountOut, w'.
Defined.

(** C5, witness: 1000 and 1000 into an empty pool mint 1000 LP tokens. *)
Lemma AddLiquidity_minted_shares_witness :
  ∃ w' u',
    LiquidityPool.AddLiquidity sqrt_of_square (priced_env (q 1) (q 1)) "A" "B" "user1"
      (q 1000) (q 1000)
      (pool_world (q 0) (q 0) {[ position := Build_UserContribution "user1" 0 0 0 ]} ∅)
      = Ok (true, w') ∧
    pool_contributions w' !! position = Some u' ∧
    lpTokens u' = q 1000 ∧
    pool_reserve w' = Some (Build_Reserve (q 1000) (q 1000)).
Proof.
  destruct AddLiquidity_minted_shares as (Hengine & Hexact & _).
  destruct (LiquidityPool.AddLiquidity sqrt_of_square (priced_env (q 1) (q 1)) "A" "B"
              "user1" (q 1000) (q 1000)
              (pool_world (q 0) (q 0)
                 {[ position := Build_UserContribution "user1" 0 0 0 ]} ∅))
    as [[r w']|e] eqn:Hrun; [|vm_compute in Hrun; discriminate Hrun].
  destruct (Hengine _ _ _ _ _ _ _ _ _ _ _ _ Hrun)
    as (reserve & u & u' & Hres & Hu & Hu' & _ & Hlp).
  destruct (Hexact _ _ _ _ _ _ _ _ _ (Build_Reserve (q 0) (q 0)) _ Hrun eq_refl)
    as (Hempty & _).
  assert (r = true) as ->.
  { vm_compute in Hrun. by injection Hrun as <- _. }
  cbn in Hres. injection Hres as <-.
  vm_compute in Hu. injection Hu as <-.
  exists w', u'. split_and!; [done | done | | by apply Hempty].
  rewrite Hlp. apply Qc_is_canon. vm_compute. reflexivity.
Defined.

(** C8, witness: a fee of 10 over contributions of 30 and 70 credits 3 and 7,
    in exact arithmetic and in binary64. *)
Lemma distributeFees_pro_rata_witness :
  (∃ w' p1 p2,
     LiquidityPool.distributeFees (q 10)
       (pool_world (q 1000) (q 1000) ∅
          {[ "p1" := Build_LiquidityProvider "p1" (q 30) (q 0);
             "p2" := Build_LiquidityProvider "p2" (q 70) (q 0) ]}) = Ok (tt, w') ∧
     providers w' !! "p1" = Some p1 ∧ earnedFees p1 = q 3 ∧
     providers w' !! "p2" = Some p2 ∧ earnedFees p2 = q 7) ∧
  (∃ w',
     LiquidityPool.distributeFees 10%float
       (pool_world 1000%float 1000%float ∅
          {[ "p1" := Build_LiquidityProvider "p1" 30%float 0%float;
             "p2" := Build_LiquidityProvider "p2" 70%float 0%float ]}) = Ok (tt, w') ∧
     providers w' !! "p1" = Some (Build_LiquidityProvider "p1" 30%float 3%float) ∧
     providers w' !! "p2" = Some (Build_LiquidityProvider "p2" 70%float 7%float)).
Proof.
  destruct distributeFees_pro_rata as (Hengine & Hexact & _). split.
  - destruct (Hexact
                (pool_world (q 1000) (q 1000) ∅
                   {[ "p1" := Build_LiquidityProvider "p1" (q 30) (q 0);
                      "p2" := Build_LiquidityProvider "p2" (q 70) (q 0) ]}) (q 10))
      as (w' & Hrun & Hcredit).
    + cbn. apply map_Forall_insert_2; [done|]. by apply map_Forall_singleton.
    + intros Heq. apply (f_equal (λ x, Qnum (this x))) in Heq.
      vm_compute in Heq. discriminate Heq.
    + pose proof (Hcredit "p1") as H1. pose proof (Hcredit "p2") as H2.
      eexists w', _, _. split_and!; [exact Hrun | exact H1 | | exact H2 |];
        apply Qc_is_canon; vm_compute; reflexivity.
  - destruct (LiquidityPool.distributeFees 10%float
                (pool_world 1000%float 1000%float ∅
                   {[ "p1" := Build_LiquidityProvider "p1" 30%float 0%float;
                      "p2" := Build_LiquidityProvider "p2" 70%float 0%float ]}))
      as [[[] w']|e] eqn:Hrun; [|vm_compute in Hrun; discriminate Hrun].
    destruct (Hengine float _
                (pool_world 1000%float 1000%float ∅
                   {[ "p1" := Build_LiquidityProvider "p1" 30%float 0%float;
                      "p2" := Build_LiquidityProvider "p2" 70%float 0%float ]}) 10%float)
      as (Hreturned & _).
    { cbn. apply map_Forall_insert_2; [done|]. by apply map_Forall_singleton. }
    destruct (Hreturned w' tt Hrun) as (_ & Hcredit).
    exists w'. split_and!; [done | rewrite (Hcredit "p1") | rewrite (Hcredit "p2")];
      vm_compute; reflexivity.
Defined.
End scenarios_exact.

(** * Further properties of the contracts *)

(** ** The pool *)

Section pool_more.
Context {N : Type} `{Number N}.
Variable Math_sqrt : N → N.
Variable env : Chaincodes N.
Variables tokenAContract tokenBContract : string.
Local Open Scope num_scope.

Local Abbreviation AddLiquidity :=
  (LiquidityPool.AddLiquidity Math_sqrt env tokenAContract tokenBContract).
Local Abbreviation Swap := (LiquidityPool.Swap env tokenAContract tokenBContract).
Local Abbreviation RemoveLiquidity :=
  (LiquidityPool.RemoveLiquidity env tokenAContract tokenBContract).
Local Abbreviation key userId := (LiquidityPool.USER_CONTRIBUTION_PREFIX +:+ userId).

(** What a successful [RemoveLiquidity] read and wrote. *)
Lemma RemoveLiquidity_Ok (w w' : World N) (userId : string) (lpAmount : N) r :
  RemoveLiquidity userId lpAmount w = Ok (r, w') →
  ∃ reserve u,
    pool_reserve w = Some reserve ∧
    pool_contributions w !! key userId = Some u ∧
    (lpTokens u <? lpAmount) = false ∧
    let proportion := lpAmount / lpTokens u in
    let amountA := contributionA u * proportion in
    let amountB := contributionB u * proportion in
    pool_reserve w' = Some (Build_Reserve (tokenA reserve - amountA) (tokenB reserve - amountB)) ∧
    pool_contributions w' =
      <[key userId := set_contribution u (contributionA u - amountA)
                        (contributionB u - amountB) (lpTokens u - lpAmount)]>
        (pool_contributions w).
Proof.
  unfold LiquidityPool.RemoveLiquidity. intros Hrun.
  tx_run. eexists _, _. split_and!; done.
Qed.

(** X1: a pool whose ledger holds no position never gets one.  Whatever
    transactions commit afterwards, no position is stored, [AddLiquidity]
    does not commit for any user and [RemoveLiquidity] fails with the
    [SyntaxError] of the missing record. *)
Theorem pool_without_positions_stays_closed (w w' : World N) :
  pool_contributions w = ∅ →
  rtc (pool_step Math_sqrt env tokenAContract tokenBContract) w w' →
  pool_contributions w' = ∅ ∧
  (∀ userId amountA amountB r w'', AddLiquidity userId amountA amountB w' ≠ Ok (r, w'')) ∧
  (∀ userId lpAmount, RemoveLiquidity userId lpAmount w' = Err SyntaxError).
Proof.
  intros Hempty Hsteps.
  pose proof (pool_never_gains_a_position _ _ _ _ _ _ Hsteps Hempty) as Hempty'.
  split_and!; [done | |].
  - intros userId amountA amountB r w'' Hrun.
    apply AddLiquidity_Ok in Hrun as (reserve & u & _ & Hu & _).
    by rewrite Hempty', lookup_empty in Hu.
  - intros userId lpAmount. unfold LiquidityPool.RemoveLiquidity. tx_unfold.
    rewrite Hempty', lookup_empty. by destruct (pool_reserve w').
Qed.

(** X2: the pool validates the token name when it reads a reserve and not when
    it swaps.  For a name other than "tokenA" and "tokenB", [GetReserve] on an
    initialized pool fails with "Invalid token identifier", while [Swap] does
    what it does for "tokenB". *)
Theorem Swap_takes_unknown_token_for_tokenB (w : World N) (reserve : Reserve N)
    (userId inputToken : string) (amountIn : N) :
  pool_reserve w = Some reserve →
  inputToken ≠ "tokenA" → inputToken ≠ "tokenB" →
  LiquidityPool.GetReserve inputToken w = Err (Error "Invalid token identifier") ∧
  Swap userId inputToken amountIn w = Swap userId "tokenB" amountIn w.
Proof.
  intros Hres HA HB. split.
  - unfold LiquidityPool.GetReserve. tx_unfold. rewrite Hres.
    by rewrite !bool_decide_eq_false_2.
  - unfold LiquidityPool.Swap.
    by rewrite (bool_decide_eq_false_2 (inputToken = "tokenA")),
      (bool_decide_eq_false_2 ("tokenB" = "tokenA")).
Qed.

(** X3: the pool cannot settle on the token contract.  The pool asks the
    token chaincodes for the function "transfer"; the token contract has
    [Transfer] and no "transfer".  When both token chaincodes are the token
    contract, none of [AddLiquidity], [Swap] and [RemoveLiquidity] ever
    succeeds, so that the pool never changes. *)
Theorem pool_cannot_settle_on_the_token_contract (w : World N) :
  hosts_Token env tokenAContract →
  hosts_Token env tokenBContract →
  (∀ userId amountA amountB r w', AddLiquidity userId amountA amountB w ≠ Ok (r, w')) ∧
  (∀ userId inputToken amountIn r w', Swap userId inputToken amountIn w ≠ Ok (r, w')) ∧
  (∀ userId lpAmount r w', RemoveLiquidity userId lpAmount w ≠ Ok (r, w')).
Proof.
  intros HtokenA HtokenB.
  assert (("transfer", 3%nat) ∉ Token.transactions) as Hnone.
  { intros Hin. repeat (apply elem_of_cons in Hin as [Hin|Hin]; [done|]).
    by apply elem_of_nil in Hin. }
  assert (∀ cc from to amt status payload,
            cc = tokenAContract ∨ cc = tokenBContract →
            token env cc "transfer" from to amt ≠ Response status payload) as Hno.
  { intros cc from to amt status payload [->| ->] Hcall.
    - destruct (HtokenA "transfer" from to amt Hnone) as [m Hm]. congruence.
    - destruct (HtokenB "transfer" from to amt Hnone) as [m Hm]. congruence. }
  split_and!.
  - intros userId amountA amountB r w' Hrun.
    unfold LiquidityPool.AddLiquidity, LiquidityPool.getPriceFromOracle in Hrun.
    tx_run; eapply Hno; eauto.
  - intros userId inputToken amountIn r w' Hrun.
    unfold LiquidityPool.Swap in Hrun. tx_run; eapply Hno; eauto.
  - intros userId lpAmount r w' Hrun.
    unfold LiquidityPool.RemoveLiquidity in Hrun. tx_run; eapply Hno; eauto.
Qed.

End pool_more.

Section pool_more_exact.
Variable Math_sqrt : Qc → Qc.
Variable env : Chaincodes Qc.
Variables tokenAContract tokenBContract : string.
Local Open Scope Qc_scope.

Local Abbreviation Swap := (LiquidityPool.Swap env tokenAContract tokenBContract).
Local Abbreviation RemoveLiquidity :=
  (LiquidityPool.RemoveLiquidity env tokenAContract tokenBContract).
Local Abbreviation key userId := (LiquidityPool.USER_CONTRIBUTION_PREFIX +:+ userId).

(** X4: in exact arithmetic, when a reserve of the pool is zero a swap pays out
    the whole reserve of the other side, less the fee, for any input that
    leaves the input side non-zero: the other side is stored as zero.  A swap
    into the side whose reserve is zero thus empties the side that is not. *)
Theorem Swap_with_a_zero_reserve_pays_the_other_side (w w' : World Qc)
    (userId inputToken : string) (amountIn amountOut : Qc) (reserve : Reserve Qc) :
  pool_reserve w = Some reserve →
  tokenA reserve = 0 ∨ tokenB reserve = 0 →
  (if bool_decide (inputToken = "tokenA") then tokenA reserve else tokenB reserve)
    + amountIn ≠ 0 →
  Swap userId inputToken amountIn w = Ok (amountOut, w') →
  if bool_decide (inputToken = "tokenA")
  then amountOut = tokenB reserve * (1 - Q2Qc (3 # 1000)) ∧
       pool_reserve w' = Some (Build_Reserve (tokenA reserve + amountIn) 0)
  else amountOut = tokenA reserve * (1 - Q2Qc (3 # 1000)) ∧
       pool_reserve w' = Some (Build_Reserve 0 (tokenB reserve + amountIn)).
Proof.
  intros Hres Hzero Hin Hrun.
  apply Swap_Ok in Hrun as (reserve0 & Hres0 & -> & -> & _).
  rewrite Hres in Hres0. injection Hres0 as <-.
  assert (tokenA reserve * tokenB reserve = 0) as HK.
  { destruct Hzero as [-> | ->]; ring. }
  unfold LiquidityPool.FEE_RATE.
  cbn -[Qcplus Qcminus Qcmult Qcdiv Q2Qc] in *.
  case_bool_decide; rewrite HK; split; try (f_equal; f_equal); by field.
Qed.

(** X5: [RemoveLiquidity] does not look at the reserves.  In exact arithmetic,
    for a position with LP tokens not below the non-zero amount asked for, on
    an initialized pool whose token chaincodes answer, it commits and stores
    each reserve less the full proportional amount; a reserve smaller than
    that amount is stored negative. *)
Theorem RemoveLiquidity_can_overdraw_the_reserves (w : World Qc) (userId : string)
    (lpAmount : Qc) (reserve : Reserve Qc) (u : UserContribution Qc) :
  pool_reserve w = Some reserve →
  pool_contributions w !! key userId = Some u →
  lpTokens u ≠ 0 →
  ¬ lpTokens u < lpAmount →
  (∀ cc f from to amt, responds (token env cc f from to amt)) →
  let amountA := contributionA u * (lpAmount / lpTokens u) in
  let amountB := contributionB u * (lpAmount / lpTokens u) in
  ∃ w',
    RemoveLiquidity userId lpAmount w = Ok (true, w') ∧
    pool_reserve w' =
      Some (Build_Reserve (tokenA reserve - amountA) (tokenB reserve - amountB)) ∧
    (tokenA reserve < amountA → tokenA reserve - amountA < 0) ∧
    (tokenB reserve < amountB → tokenB reserve - amountB < 0).
Proof.
  intros Hres Hu _ Hlp Htoken amountA amountB.
  assert (∀ x y : Qc, x < y → x - y < 0) as Hneg.
  { intros x y Hxy. apply (Qcplus_lt_mono_r _ _ y).
    by replace (x - y + y) with x by ring; rewrite Qcplus_0_l. }
  destruct (RemoveLiquidity userId lpAmount w) as [[r w']|e] eqn:Hrun.
  - pose proof Hrun as Hrun'.
    apply RemoveLiquidity_Ok in Hrun' as (reserve0 & u0 & Hres0 & Hu0 & _ & Hres' & _).
    rewrite Hres in Hres0. injection Hres0 as <-.
    rewrite Hu in Hu0. injection Hu0 as <-.
    assert (r = true) as ->.
    { unfold LiquidityPool.RemoveLiquidity in Hrun. by tx_run. }
    exists w'. split_and!; [done | exact Hres' | apply Hneg | apply Hneg].
  - exfalso. unfold LiquidityPool.RemoveLiquidity in Hrun. tx_unfold.
    rewrite Hres, Hu in Hrun. cbn beta iota in Hrun.
    assert ((lpTokens u <? lpAmount)%num = false) as Hlt.
    { cbn. by apply bool_decide_eq_false_2. }
    rewrite Hlt in Hrun. cbn beta iota in Hrun.
    destruct (Htoken tokenAContract "transfer" LiquidityPool.RESERVE_WALLET_KEY userId
                (sub (mul (contributionA u) (div lpAmount (lpTokens u)))
                   (mul (mul (contributionA u) (div lpAmount (lpTokens u))) (lit (3 # 1000)))))
      as (s1 & p1 & H1).
    destruct (Htoken tokenBContract "transfer" LiquidityPool.RESERVE_WALLET_KEY userId
                (sub (mul (contributionB u) (div lpAmount (lpTokens u)))
                   (mul (mul (contributionB u) (div lpAmount (lpTokens u))) (lit (3 # 1000)))))
      as (s2 & p2 & H2).
    rewrite H1 in Hrun. cbn beta iota in Hrun. rewrite H2 in Hrun. done.
Qed.

(** X6: in exact arithmetic, withdrawing all the LP tokens of a position, when
    there are any, sends the user the whole contributions less 0.3 % and
    leaves the position with contributions and LP tokens zero. *)
Theorem RemoveLiquidity_of_all_LP_tokens_empties_the_position (w w' : World Qc)
    (userId : string) (u : UserContribution Qc) r :
  pool_contributions w !! key userId = Some u →
  lpTokens u ≠ 0 →
  RemoveLiquidity userId (lpTokens u) w = Ok (r, w') →
  pool_contributions w' !! key userId = Some (set_contribution u 0 0 0) ∧
  calls w' = calls w ++
    [ Build_TokenCall tokenAContract "transfer" LiquidityPool.RESERVE_WALLET_KEY userId
        (contributionA u * (1 - Q2Qc (3 # 1000)));
      Build_TokenCall tokenBContract "transfer" LiquidityPool.RESERVE_WALLET_KEY userId
        (contributionB u * (1 - Q2Qc (3 # 1000))) ].
Proof.
  intros Hu Hlp Hrun. split.
  - apply RemoveLiquidity_Ok in Hrun as (reserve & u0 & _ & Hu0 & _ & _ & ->).
    rewrite Hu in Hu0. injection Hu0 as <-.
    rewrite lookup_insert_eq. f_equal. unfold set_contribution. f_equal; cbn; by field.
  - unfold LiquidityPool.RemoveLiquidity in Hrun. tx_run.
    cbn -[Qcplus Qcminus Qcmult Qcdiv Q2Qc]. rewrite <- app_assoc. cbn [app].
    do 2 f_equal; [|f_equal]; f_equal; cbn -[Qcplus Qcminus Qcmult Qcdiv Q2Qc]; by field.
Qed.
End pool_more_exact.

(** ** The provider registry *)

Section registry_more.
Context {N : Type} `{Number N}.
Local Open Scope num_scope.

Lemma registry_wf_insert (reg : gmap string (LiquidityProvider N)) (k : string)
    (p : LiquidityProvider N) :
  registry_wf reg → user p = k → registry_wf (<[k := p]> reg).
Proof. intros Hwf Hp. by apply map_Forall_insert_2. Qed.

(** X7: the registry stays keyed by user name.  Each of its three writing
    transactions, and the pool's [distributeFees] and [Swap] and the basket's
    [RemoveLiquidity], which write to it, leaves every provider stored under
    its own user name. *)
Theorem registry_stays_keyed_by_user (env : Chaincodes N) (w w' : World N) :
  registry_wf (providers w) →
  (∀ user amount r,
     LiquidityProviderContract.AddLiquidityProvider user amount w = Ok (r, w') →
     registry_wf (providers w')) ∧
  (∀ user fee r,
     LiquidityProviderContract.UpdateEarnedFees user fee w = Ok (r, w') →
     registry_wf (providers w')) ∧
  (∀ user newAmount r,
     LiquidityProviderContract.UpdateLiquidityProvider user newAmount w = Ok (r, w') →
     registry_wf (providers w')) ∧
  (∀ fee r,
     LiquidityPool.distributeFees fee w = Ok (r, w') → registry_wf (providers w')) ∧
  (∀ tokenAContract tokenBContract userId inputToken amountIn r,
     LiquidityPool.Swap env tokenAContract tokenBContract userId inputToken amountIn w
       = Ok (r, w') →
     registry_wf (providers w')) ∧
  (∀ percentage user r,
     BasketContract.RemoveLiquidity env percentage user w = Ok (r, w') →
     registry_wf (providers w')).
Proof.
  intros Hwf.
  assert (∀ fee w1, LiquidityPool.distributeFees fee w = Ok (tt, w1) →
                    registry_wf (providers w1)) as Hfees.
  { intros fee w1 Hrun.
    apply distributeFees_Ok in Hrun as (_ & _ & Hprov); [|done].
    intros k p Hk. rewrite Hprov in Hk.
    destruct (providers w !! k) as [p0|] eqn:Hp0; [|done].
    injection Hk as <-. by apply (Hwf k p0). }
  split_and!.
  - intros user amount r Hrun.
    unfold LiquidityProviderContract.AddLiquidityProvider in Hrun. tx_run.
    by apply registry_wf_insert.
  - intros user fee r Hrun. apply UpdateEarnedFees_Ok in Hrun as (p & Hp & ->).
    apply registry_wf_insert; [done|]. exact (Hwf user p Hp).
  - intros user newAmount r Hrun.
    unfold LiquidityProviderContract.UpdateLiquidityProvider in Hrun. tx_run.
    apply registry_wf_insert; [done|].
    match goal with
    | Hp : providers _ !! _ = Some _ |- _ => exact (Hwf _ _ Hp)
    end.
  - intros fee [] Hrun. by eapply Hfees.
  - intros tokenAContract tokenBContract userId inputToken amountIn r Hrun.
    apply Swap_Ok in Hrun as (reserve & _ & _ & _ & w1 & Hrun & ->).
    by eapply Hfees.
  - intros percentage user r Hrun.
    unfold BasketContract.RemoveLiquidity, LiquidityProviderContract.GetLiquidityProvider,
      LiquidityProviderContract.UpdateEarnedFees in Hrun.
    tx_run; cbn in *; simplify_eq.
    all: apply registry_wf_insert; [done|].
    all: match goal with
         | Hp : providers _ !! _ = Some _ |- _ => exact (Hwf _ _ Hp)
         end.
Qed.

(** X8: [AddLiquidityProvider] always succeeds and writes over what is stored:
    afterwards [GetLiquidityProvider] returns the user with the given amount
    and earned fees zero, whatever fees the user had earned before, and the
    other providers are as they were. *)
Theorem AddLiquidityProvider_overwrites (w : World N) (user : string) (amount : N) :
  ∃ w',
    LiquidityProviderContract.AddLiquidityProvider user amount w = Ok (tt, w') ∧
    LiquidityProviderContract.GetLiquidityProvider user w'
      = Ok (Build_LiquidityProvider user amount (lit 0), w') ∧
    (∀ other, other ≠ user → providers w' !! other = providers w !! other) ∧
    same_but_providers w w'.
Proof.
  eexists. split; [reflexivity|]. split_and!.
  - unfold LiquidityProviderContract.GetLiquidityProvider. tx_unfold. cbn.
    by rewrite lookup_insert_eq.
  - intros other Hother. cbn. by rewrite lookup_insert_ne.
  - done.
Qed.

(** X9: [GetAllLiquidityProviders] changes nothing and returns every stored
    provider once: as many providers as the registry has keys, a provider
    being returned exactly when it is stored, and, in a registry keyed by user
    name, no user name twice. *)
Theorem GetAllLiquidityProviders_lists_the_registry (w : World N) :
  ∃ l,
    LiquidityProviderContract.GetAllLiquidityProviders w = Ok (l, w) ∧
    length l = size (providers w) ∧
    (∀ p, p ∈ l ↔ ∃ k, providers w !! k = Some p) ∧
    (registry_wf (providers w) → NoDup (user <$> l)).
Proof.
  eexists. split; [reflexivity|]. split_and!.
  - by rewrite length_fmap, getStateByRange_Permutation, length_map_to_list.
  - intros p. rewrite list_elem_of_fmap. split.
    + intros ([k p'] & -> & Hin). exists k. by apply elem_of_getStateByRange.
    + intros [k Hk]. exists (k, p). split; [done|]. by apply elem_of_getStateByRange.
  - intros Hwf.
    assert (user <$> (getStateByRange (providers w)).*2
            = (getStateByRange (providers w)).*1) as ->.
    { rewrite <- list_fmap_compose. apply list_fmap_ext.
      intros i [k p] Hin. cbn. apply (Hwf k p).
      apply elem_of_getStateByRange. by eapply list_elem_of_lookup_2. }
    apply getStateByRange_NoDup.
Qed.
End registry_more.

Section registry_exact.
Local Open Scope Qc_scope.

Lemma set_provider_same (w : World Qc) (k : string) (p : LiquidityProvider Qc) :
  providers w !! k = Some p → set_provider k p w = w.
Proof. intros Hp. destruct w. unfold set_provider. cbn in *. by rewrite insert_id. Qed.

(** X10: in exact arithmetic, two credits to a provider's earned fees are one
    credit of their sum, and a credit followed by its negative, which is how
    the basket's [RemoveLiquidity] resets a balance, gives back the ledger as
    it was. *)
Theorem UpdateEarnedFees_adds_up (w : World Qc) (user : string) (fee1 fee2 : Qc) :
  bind (LiquidityProviderContract.UpdateEarnedFees user fee1)
       (λ _, LiquidityProviderContract.UpdateEarnedFees user fee2) w
  = LiquidityProviderContract.UpdateEarnedFees user (fee1 + fee2) w ∧
  (is_Some (providers w !! user) →
   bind (LiquidityProviderContract.UpdateEarnedFees user fee1)
        (λ _, LiquidityProviderContract.UpdateEarnedFees user (- fee1)) w = Ok (tt, w)).
Proof.
  assert (∀ f g,
    bind (LiquidityProviderContract.UpdateEarnedFees user f)
         (λ _, LiquidityProviderContract.UpdateEarnedFees user g) w
    = LiquidityProviderContract.UpdateEarnedFees user (f + g) w) as Hsum.
  { intros f g. unfold LiquidityProviderContract.UpdateEarnedFees. tx_unfold.
    destruct (providers w !! user) as [p|] eqn:Hp; [|done].
    cbn. rewrite lookup_insert_eq. cbn. do 2 f_equal.
    destruct w. unfold set_provider, set_earnedFees. cbn.
    rewrite insert_insert_eq. do 3 f_equal. ring. }
  split; [apply Hsum|].
  intros [p Hp]. rewrite Hsum.
  unfold LiquidityProviderContract.UpdateEarnedFees. tx_unfold. rewrite Hp. cbn.
  do 2 f_equal. apply set_provider_same. rewrite Hp. f_equal.
  destruct p. unfold set_earnedFees. cbn. f_equal. ring.
Qed.

Lemma Qc_sum_credited (c : Qc) (l : list (LiquidityProvider Qc)) :
  foldr Qcplus 0 (earnedFees <$> (credited (λ p, c * amount p) <$> l))
  = foldr Qcplus 0 (earnedFees <$> l) + c * foldr Qcplus 0 (amount <$> l).
Proof.
  induction l as [|p l IH]; cbn -[Qcplus Qcmult].
  - ring.
  - rewrite IH. ring.
Qed.

(** X11: in exact arithmetic, over a registry keyed by user name whose total
    contribution is not zero, [distributeFees] hands out the whole fee: the
    earned fees of all providers together grow by exactly the fee. *)
Theorem distributeFees_hands_out_the_whole_fee (w : World Qc) (fee : Qc) :
  registry_wf (providers w) →
  totalContribution (providers w) ≠ 0 →
  ∃ w',
    LiquidityPool.distributeFees fee w = Ok (tt, w') ∧
    totalEarnedFees (providers w') = totalEarnedFees (providers w) + fee.
Proof.
  intros Hwf Htotal.
  destruct (distributeFees_exact w fee Hwf Htotal) as (w' & Hrun & _ & Hprov).
  exists w'. split; [done|].
  set (T := totalContribution (providers w)) in *.
  assert (providers w'
          = credited (λ p, fee / T * amount p) <$> providers w) as ->.
  { apply map_eq. intros k. rewrite Hprov, lookup_fmap.
    destruct (providers w !! k) as [p|]; [|done]. cbn. f_equal.
    unfold credited, set_earnedFees. f_equal. cbn. by field. }
  unfold totalEarnedFees. rewrite map_to_list_fmap.
  assert (∀ (g : LiquidityProvider Qc → LiquidityProvider Qc)
            (L : list (string * LiquidityProvider Qc)),
            (prod_map id g <$> L).*2 = g <$> L.*2) as Hsnd.
  { intros g L. rewrite <- !list_fmap_compose. by apply list_fmap_ext. }
  rewrite Hsnd, Qc_sum_credited.
  change (foldr Qcplus 0 (amount <$> (map_to_list (providers w)).*2)) with T.
  by field.
Qed.
End registry_exact.

Section fees_without_providers.
Context {N : Type} `{Number N}.
Variable env : Chaincodes N.
Variables tokenAContract tokenBContract : string.
Local Open Scope num_scope.

(** X12: a swap on a pool without providers still takes the fee.  The caller
    receives the raw output less 0.3 %, the registry stays empty, and so the
    fee is credited to nobody. *)
Theorem Swap_without_providers_credits_nobody (w w' : World N)
    (userId inputToken : string) (amountIn amountOut : N) :
  providers w = ∅ →
  LiquidityPool.Swap env tokenAContract tokenBContract userId inputToken amountIn w
    = Ok (amountOut, w') →
  providers w' = ∅ ∧
  ∃ reserve raw,
    pool_reserve w = Some reserve ∧
    raw = (if bool_decide (inputToken = "tokenA")
           then tokenB reserve - tokenA reserve * tokenB reserve / (tokenA reserve + amountIn)
           else tokenA reserve - tokenA reserve * tokenB reserve / (tokenB reserve + amountIn)) ∧
    amountOut = raw - raw * LiquidityPool.FEE_RATE.
Proof.
  intros Hempty Hrun.
  apply Swap_Ok in Hrun as (reserve & Hres & Hout & _ & w1 & Hfees & ->).
  split.
  - apply distributeFees_Ok in Hfees as (_ & _ & Hprov).
    + apply map_eq. intros k. by rewrite Hprov, Hempty, !lookup_empty.
    + rewrite Hempty. apply map_Forall_empty.
  - by eexists reserve, _.
Qed.
End fees_without_providers.

(** ** The basket *)

Section basket_more.
Context {N : Type} `{Number N}.
Variable env : Chaincodes N.
Local Open Scope num_scope.

(** X13: [InitBasket] fails with a [SyntaxError] on a text that is not JSON,
    such as the empty text, and with a [TypeError] on the text [null]; given
    the text of a basket record it writes the basket under the basket's own
    [ID], over whatever is stored there.  [ReadBasket] then returns that
    basket when the [ID] is "basket1"; for another [ID] the entry "basket1"
    that [ReadBasket] reads is as it was, and without such an entry
    [ReadBasket] fails with the error of the missing basket. *)
Theorem InitBasket_then_ReadBasket (w : World N) (basket : Basket N) :
  BasketContract.InitBasket None w = Err SyntaxError ∧
  BasketContract.InitBasket (Some JNull) w = Err TypeError ∧
  ∃ w',
    BasketContract.InitBasket (Some (JObject basket)) w = Ok (tt, w') ∧
    (ID basket = "basket1" → BasketContract.ReadBasket w' = Ok (basket, w')) ∧
    (ID basket ≠ "basket1" → baskets w' !! "basket1" = baskets w !! "basket1") ∧
    (baskets w' !! "basket1" = None →
     BasketContract.ReadBasket w' = Err (Error basket_missing)).
Proof.
  split; [done|]. split; [done|]. eexists. split; [reflexivity|]. split_and!.
  - intros HID. unfold BasketContract.ReadBasket. tx_unfold. cbn.
    by rewrite HID, lookup_insert_eq.
  - intros HID. cbn. by rewrite lookup_insert_ne.
  - intros Hnone. unfold BasketContract.ReadBasket. tx_unfold. cbn in *.
    by rewrite Hnone.
Qed.

Lemma prices_loop_fetched (tokens : list string) (w : World N) :
  ∀ (i : nat) (Prices prices : list N),
    (i ≤ length Prices)%nat →
    fetched_prices env tokens = Some prices →
    BasketContract.prices_loop env tokens i Prices w
    = Ok (take i Prices ++ prices ++ drop (i + length prices) Prices, w).
Proof.
  induction tokens as [|token rest IH]; intros i Prices prices Hi Hfetched.
  - cbn in Hfetched. injection Hfetched as <-. cbn.
    by rewrite Nat.add_0_r, take_drop.
  - cbn in Hfetched.
    destruct (price_of _) as [price|] eqn:Hprice; [|done].
    destruct (fetched_prices env rest) as [ps|] eqn:Hrest; [|done].
    cbn in Hfetched. injection Hfetched as <-.
    unfold price_of in Hprice.
    destruct (oracle env BasketContract.oracleContractName "GetCurrencyPrice" token)
      as [m|status p] eqn:Horacle; [done|].
    case_bool_decide as Hstatus; [|done]. injection Hprice as ->. subst status.
    cbn [BasketContract.prices_loop]. unfold invoke_oracle. rewrite Horacle.
    tx_unfold. cbn [fst snd]. rewrite bool_decide_eq_false_2 by (intros Hne; by apply Hne).
    unfold assign.
    case_bool_decide as Hlt.
    + unfold ret. rewrite (IH (S i) _ ps) by (done || (rewrite ?length_insert; lia)).
      do 2 f_equal.
      rewrite (take_S_r _ _ price) by (by apply list_lookup_insert_eq).
      rewrite take_insert_ge by lia.
      rewrite drop_insert_lt by lia.
      rewrite <- app_assoc. cbn [length app]. by rewrite Nat.add_succ_r.
    + case_bool_decide as Heq; [|lia].
      unfold ret. rewrite (IH (S i) _ ps) by (done || (rewrite length_app; cbn; lia)).
      do 2 f_equal. subst i.
      rewrite take_ge by (rewrite length_app; cbn; lia).
      rewrite take_ge by lia.
      rewrite !drop_ge by (rewrite ?length_app; cbn; lia).
      by rewrite <- app_assoc.
Qed.

Lemma prices_loop_fails (tokens : list string) (w : World N) :
  ∀ (i : nat) (Prices : list N),
    (i ≤ length Prices)%nat →
    fetched_prices env tokens = None →
    ∃ e, BasketContract.prices_loop env tokens i Prices w = Err e.
Proof.
  induction tokens as [|token rest IH]; intros i Prices Hi Hfetched; [done|].
  cbn in Hfetched. cbn [BasketContract.prices_loop]. unfold invoke_oracle, price_of in *.
  destruct (oracle env BasketContract.oracleContractName "GetCurrencyPrice" token)
    as [m|status p] eqn:Horacle; [by eexists|].
  tx_unfold. cbn [fst snd].
  case_bool_decide as Hstatus.
  - subst status. rewrite bool_decide_eq_false_2 by (intros Hne; by apply Hne).
    destruct (fetched_prices env rest) as [ps|] eqn:Hrest; [done|].
    unfold assign, ret. case_bool_decide as Hlt.
    + apply IH; [by rewrite length_insert; lia | done].
    + case_bool_decide as Heq; [|lia].
      apply IH; [rewrite length_app; cbn; lia | done].
  - rewrite bool_decide_eq_true_2 by done. by eexists.
Qed.

(** X14: [UpdateBasketPrices] is all or nothing.  When the oracle delivers a
    price for every token of the stored basket, the prices of the basket
    become those prices, in token order, followed by what the old price list
    held beyond the number of tokens, and nothing else changes; when a lookup
    fails for any token the transaction fails and no price is updated. *)
Theorem UpdateBasketPrices_all_or_nothing (w : World N) (basket : Basket N) :
  baskets w !! "basket1" = Some basket →
  (∀ prices,
     fetched_prices env (Tokens basket) = Some prices →
     BasketContract.UpdateBasketPrices env w
     = Ok (tt, set_basket "basket1"
                 (set_Prices basket (prices ++ drop (length prices) (Prices basket))) w)) ∧
  (fetched_prices env (Tokens basket) = None →
   ∃ e, BasketContract.UpdateBasketPrices env w = Err e).
Proof.
  intros Hbasket. unfold BasketContract.UpdateBasketPrices. split.
  - intros prices Hprices. tx_unfold. rewrite Hbasket. cbn.
    rewrite (prices_loop_fetched _ _ 0 _ prices) by (done || lia). done.
  - intros Hnone. tx_unfold. rewrite Hbasket. cbn.
    destruct (prices_loop_fails (Tokens basket) w 0 (Prices basket)) as [e He]; [lia | done |].
    rewrite He. by eexists.
Qed.
End basket_more.

Section basket_liquidity.
Context {N : Type} `{Number N}.
Variable env : Chaincodes N.
Local Open Scope num_scope.

Lemma liquidity_loop_Ok (user : string) (tokens : list string) :
  ∀ (amounts : list N) (i : nat) (Reserves Reserves' : list N) (w w' : World N),
    length tokens = length amounts →
    (i ≤ length Reserves)%nat →
    BasketContract.liquidity_loop env user tokens amounts i Reserves w = Ok (Reserves', w') →
    (i + length tokens ≤ length Reserves)%nat ∧
    Reserves' = take i Reserves ++ zip_with add (drop i Reserves) amounts
                  ++ drop (i + length tokens) Reserves ∧
    w' = Build_World (pool_reserve w) (pool_contributions w) (baskets w) (providers w)
           (calls w ++ zip_with (λ token amount,
                                   Build_TokenCall token "Transfer" user
                                     BasketContract.reserveWallet amount)
                         tokens amounts).
Proof.
  induction tokens as [|tk tokens IH];
    intros [|amount amounts] i Reserves Reserves' w w' Hlen Hi Hrun; try done.
  - cbn in Hrun. unfold ret in Hrun. simplify_eq. split; [cbn; lia|]. split.
    + cbn. rewrite zip_with_nil_r, Nat.add_0_r. cbn. by rewrite take_drop.
    + match goal with |- ?x = _ => destruct x end. cbn. by rewrite app_nil_r.
  - cbn [BasketContract.liquidity_loop] in Hrun.
    apply bind_Ok in Hrun as (status & w1 & Htransfer & Hrun).
    unfold invoke_token in Htransfer.
    apply bind_Ok in Htransfer as ([] & w0 & Hlog & Htransfer).
    unfold modify in Hlog. simplify_eq.
    destruct (token env _ _ _ _ _) as [m|status' payload]; [done|].
    unfold ret in Htransfer. simplify_eq.
    case_bool_decide as Hstatus; [done|].
    apply bind_Ok in Hrun as (reserve & w2 & Hreserve & Hrun).
    unfold BasketContract.at_index in Hreserve.
    destruct (Reserves !! i) as [r|] eqn:Hr; [|done].
    unfold ret in Hreserve. simplify_eq.
    pose proof (lookup_lt_Some _ _ _ Hr) as Hlt.
    apply IH in Hrun as (Hbound & -> & ->);
      [| cbn in Hlen; lia | rewrite length_insert; lia].
    rewrite length_insert in Hbound. split; [cbn; lia|]. split.
    + rewrite (take_S_r _ _ (reserve + amount)) by (by apply list_lookup_insert_eq).
      rewrite take_insert_ge by lia.
      rewrite !drop_insert_lt by lia.
      rewrite (drop_S _ _ _ Hr). cbn [zip_with length].
      rewrite <- app_assoc. cbn [app]. by rewrite Nat.add_succ_r.
    + cbn. by rewrite <- app_assoc.
Qed.

(** X15: a successful [AddLiquidity] on the basket went through only with one
    amount per token.  On a basket that has a reserve for each token (the
    model does not go past the end of the reserves) it adds each amount to
    the reserve at the same index and keeps the reserves beyond the tokens;
    it asks the chaincode named by each token, in token order, for one
    [Transfer] of that amount from the user to the reserve wallet; and it
    records no liquidity provider: the registry is as before. *)
Theorem basket_AddLiquidity_adds_each_amount (w w' : World N) (amounts : list N)
    (user : string) r :
  BasketContract.AddLiquidity env amounts user w = Ok (r, w') →
  ∃ basket,
    baskets w !! "basket1" = Some basket ∧
    length amounts = length (Tokens basket) ∧
    baskets w' =
      <["basket1" := set_Reserves basket
                       (zip_with add (Reserves basket) amounts
                          ++ drop (length amounts) (Reserves basket))]> (baskets w) ∧
    calls w' =
      calls w ++ zip_with (λ token amount,
                             Build_TokenCall token "Transfer" user
                               BasketContract.reserveWallet amount)
                   (Tokens basket) amounts ∧
    providers w' = providers w.
Proof.
  unfold BasketContract.AddLiquidity. intros Hrun.
  apply bind_Ok in Hrun as (w0 & w1 & Hget & Hrun). unfold get in Hget. simplify_eq.
  apply bind_Ok in Hrun as (parsed & w2 & Hparse & Hrun).
  unfold lift, JSON_parse in Hparse.
  destruct (baskets _ !! "basket1") as [basket|] eqn:Hbasket; [|done]. simplify_eq.
  apply bind_Ok in Hrun as (basket' & w3 & Hobject & Hrun).
  unfold object_of, ret in Hobject. simplify_eq.
  case_bool_decide as Hlen; [done|].
  apply bind_Ok in Hrun as (Reserves' & w4 & Hloop & Hrun).
  apply liquidity_loop_Ok in Hloop as (Hbound & -> & ->); [| done | lia].
  unfold modify in Hrun. simplify_eq. exists basket'. cbn.
  split_and!; try done. by rewrite Hlen.
Qed.

End basket_liquidity.

Lemma Q_two_asset_polynomial (A B X : Q) :
  (0 < X → X < A → 2 * A <= B →
   X * ((2 * A - X + 2 * B) * A * (A - X) - B * B * B) < 0)%Q.
Proof.
  intros H1 H2 H3.
  assert (0 < A * (A - X))%Q as Ha by (apply Qmult_lt_0_compat; lra).
  assert (0 <= (B - 2 * A + X) * (A * (A - X)))%Q as Hb
    by (apply Qmult_le_0_compat; lra).
  assert (0 < B * A)%Q as Hc by (apply Qmult_lt_0_compat; lra).
  assert (0 < B * A * X)%Q as Hd by (apply Qmult_lt_0_compat; lra).
  assert (0 <= (B - 2 * A) * (B + 2 * A))%Q as He by (apply Qmult_le_0_compat; lra).
  assert (0 < B * B)%Q as Hf by (apply Qmult_lt_0_compat; lra).
  assert (0 <= B * ((B - 2 * A) * (B + 2 * A)))%Q as Hg
    by (apply Qmult_le_0_compat; lra).
  assert (0 < B * (B * B))%Q as Hh by (apply Qmult_lt_0_compat; lra).
  assert (0 < X * (B * B * B - (2 * A - X + 2 * B) * A * (A - X)))%Q
    by (apply Qmult_lt_0_compat; lra).
  lra.
Qed.

Section basket_two_assets.
Variable env : Chaincodes Qc.
Local Open Scope Qc_scope.

Lemma Qc_two_asset_polynomial (a b x : Qc) :
  0 < x → x < a → 2 * a ≤ b →
  x * ((2 * a - x + 2 * b) * a * (a - x) - b * b * b) < 0.
Proof.
  unfold Qclt, Qcle. intros H1 H2 H3.
  unfold Qcmult, Qcminus, Qcplus, Qcopp, Q2Qc in *. cbn [this] in *.
  repeat rewrite Qred_correct in *.
  by apply Q_two_asset_polynomial.
Qed.

Lemma invariant_two_assets (a b : Qc) :
  BasketContract.invariant [a; b] = (a * (1 + a / b) + b) * (1 + b / a).
Proof.
  unfold BasketContract.invariant. cbn -[Qcplus Qcmult Qcdiv Q2Qc].
  change (Q2Qc 1) with 1. change (Q2Qc 0) with 0.
  repeat (case_bool_decide; try done). ring.
Qed.

Lemma two_asset_drop_negative (a b x : Qc) :
  0 < x → x < a → 2 * a ≤ b →
  (a * (1 + a / b) + b) * (1 + b / a)
    - ((a - x) * (1 + (a - x) / b) + b) * (1 + b / (a - x)) < 0
  ∧ (b * (1 + b / a) + a) * (1 + a / b)
    - (b * (1 + b / (a - x)) + (a - x)) * (1 + (a - x) / b) < 0.
Proof.
  intros Hx Hxa Hab.
  assert (0 < a) as Ha by (by etrans).
  assert (0 < a - x) as Hax.
  { apply (Qcplus_lt_mono_r _ _ x). by replace (a - x + x) with a by ring;
      replace (0 + x) with x by ring. }
  assert (0 < b) as Hb.
  { eapply Qclt_le_trans; [|exact Hab]. by apply Qcmult_pos_pos. }
  pose proof (Qclt_not_eq _ _ Ha) as Ha0.
  pose proof (Qclt_not_eq _ _ Hax) as Hax0.
  pose proof (Qclt_not_eq _ _ Hb) as Hb0.
  assert (0 < a * b * (a - x)) as Hc by (by repeat apply Qcmult_pos_pos).
  pose proof (Qc_two_asset_polynomial a b x Hx Hxa Hab) as Hpoly.
  assert (∀ t, t * (a * b * (a - x))
               = x * ((2 * a - x + 2 * b) * a * (a - x) - b * b * b) → t < 0) as Hsign.
  { intros t Ht. apply Qclt_nge. intros Hle.
    apply (Qcmult_le_mono_nonneg_r _ _ (a * b * (a - x))) in Hle;
      [| by apply Qclt_le_weak].
    rewrite Ht, Qcmult_0_l in Hle. by apply Qclt_not_le in Hpoly. }
  split; apply Hsign; field; auto.
Qed.

(** X16: on a basket of two assets, in exact arithmetic, a swap out of a
    reserve that is at most half the other one credits a negative amount:
    the user pays [amount], the amount transferred back is below zero, and
    it lowers the reserve of the other asset.  This holds in both
    directions, for every amount below the reserve that is drawn on. *)
Theorem SwapCBDCs_out_of_the_smaller_reserve (w : World Qc) (basket : Basket Qc)
    (tokenA tokenB user : string) (a b amount : Qc) :
  baskets w !! "basket1" = Some basket →
  Tokens basket = [tokenA; tokenB] →
  tokenA ≠ tokenB →
  0 < amount →
  (∀ res w',
     Reserves basket = [a; b] → amount < a → 2 * a ≤ b →
     BasketContract.SwapCBDCs env amount tokenA tokenB user w = Ok (res, w') →
     ∃ toAmount,
       res = (amount, tokenA, toAmount, tokenB) ∧ toAmount < 0 ∧
       Reserves <$> baskets w' !! "basket1" = Some [a - amount; b + toAmount]) ∧
  (∀ res w',
     Reserves basket = [b; a] → amount < a → 2 * a ≤ b →
     BasketContract.SwapCBDCs env amount tokenB tokenA user w = Ok (res, w') →
     ∃ toAmount,
       res = (amount, tokenB, toAmount, tokenA) ∧ toAmount < 0 ∧
       Reserves <$> baskets w' !! "basket1" = Some [b + toAmount; a - amount]).
Proof.
  intros Hbasket Htokens Hne Hamount.
  split; intros res w' Hreserves Hlt Hhalf Hrun.
  all: apply SwapCBDCs_Ok in Hrun
         as (basket0 & fromIndex & toIndex & from_reserve & to_reserve
             & Hbasket0 & Hfrom & Hto & Hfrom_res & Hto_res & -> & ->).
  all: rewrite Hbasket in Hbasket0; injection Hbasket0 as <-.
  all: rewrite Htokens in Hfrom, Hto; cbn in Hfrom, Hto.
  all: rewrite Hreserves in *.
  all: repeat (case_bool_decide; try done); cbn in Hfrom, Hto.
  all: injection Hfrom as <-; injection Hto as <-.
  all: cbn in Hfrom_res; injection Hfrom_res as <-.
  all: cbn in Hto_res; injection Hto_res as <-.
  all: cbn [insert list_insert].
  all: eexists; split; [reflexivity|].
  all: rewrite !invariant_two_assets.
  all: destruct (two_asset_drop_negative a b amount Hamount Hlt Hhalf) as [Hdrop0 Hdrop1].
  all: split; [done|].
  all: cbn [baskets set_basket]; by rewrite lookup_insert_eq.
Qed.
End basket_two_assets.

Section basket_withdrawal_exact.
Variable env : Chaincodes Qc.
Local Open Scope Qc_scope.

(** X17: a basket [RemoveLiquidity] that succeeds withdraws no reserve: the
    stored baskets are as before, whatever the percentage.  It leaves the
    user's earned fees at zero (in exact arithmetic), and the percentage
    plays no part beyond the range check: every percentage above 0 and up
    to 100 gives the same result and the same ledger. *)
Theorem basket_RemoveLiquidity_withdraws_no_reserve (w w' : World Qc)
    (percentage : Qc) (user : string) r :
  BasketContract.RemoveLiquidity env percentage user w = Ok (r, w') →
  baskets w' = baskets w ∧
  earnedFees <$> providers w' !! user = Some 0 ∧
  ∀ percentage',
    0 < percentage' → percentage' ≤ Q2Qc 100 →
    BasketContract.RemoveLiquidity env percentage' user w = Ok (r, w').
Proof.
  intros Hrun. split_and!.
  - unfold BasketContract.RemoveLiquidity, LiquidityProviderContract.GetLiquidityProvider,
      LiquidityProviderContract.UpdateEarnedFees in Hrun.
    tx_run; cbn in *; simplify_eq. by apply insert_id.
  - apply basket_RemoveLiquidity_pays_earned_fees in Hrun as (provider & _ & _ & ->).
    cbn. f_equal. ring.
  - intros percentage' Hpos Hle. unfold BasketContract.RemoveLiquidity in *.
    destruct ((percentage <=? lit 0)%num || (percentage >? lit 100)%num); [done|].
    assert ((percentage' <=? lit 0)%num = false) as ->.
    { cbn. apply bool_decide_eq_false_2. by apply Qclt_not_le. }
    assert ((percentage' >? lit 100)%num = false) as ->.
    { cbn. apply bool_decide_eq_false_2. by apply Qcle_not_lt. }
    exact Hrun.
Qed.
End basket_withdrawal_exact.

(** ** The risk checks *)

Section risk_exact.
Local Open Scope Qc_scope.

Lemma foldl_add_total (l : list Qc) (a : Qc) :
  foldl (λ a b, (a + b)%num) a l = a + total l.
Proof.
  revert a. induction l as [|x l IH]; intros a; cbn -[Qcplus].
  - unfold total. cbn -[Qcplus]. ring.
  - rewrite IH. unfold total. cbn -[Qcplus]. ring.
Qed.

Lemma threshold_loop_Forall (threshold : Qc) (Reserves : list Qc) :
  RiskManagementContract.threshold_loop threshold Reserves = true
  ↔ Forall (λ reserve, threshold ≤ reserve) Reserves.
Proof.
  induction Reserves as [|reserve rest IH]; cbn.
  - split; [constructor | done].
  - case_bool_decide as Hlt.
    + split; [done|]. intros Hall. apply Forall_cons_1 in Hall as [Hle _].
      by apply Qcle_not_lt in Hle.
    + rewrite IH. split.
      * intros Hall. constructor; [by apply Qcnot_lt_le | done].
      * intros Hall. by apply Forall_cons_1 in Hall as [_ Hall].
Qed.

(** X18: in exact arithmetic [CheckReserveThreshold] reads the basket and
    changes nothing; it answers true exactly when every reserve is at least
    the threshold, so that a basket passing a threshold passes every lower
    one, and a basket without reserves passes every threshold.  Without a
    stored basket it fails with the missing-basket error. *)
Theorem CheckReserveThreshold_all_reserves (w : World Qc) (threshold : Qc) :
  match baskets w !! "basket1" with
  | Some basket =>
      ∃ answer,
        RiskManagementContract.CheckReserveThreshold threshold w = Ok (answer, w) ∧
        (answer = true ↔ Forall (λ reserve, threshold ≤ reserve) (Reserves basket)) ∧
        (answer = true →
         ∀ lower, lower ≤ threshold →
           RiskManagementContract.CheckReserveThreshold lower w = Ok (true, w))
  | None =>
      RiskManagementContract.CheckReserveThreshold threshold w = Err (Error basket_missing)
  end.
Proof.
  unfold RiskManagementContract.CheckReserveThreshold. tx_unfold.
  destruct (baskets w !! "basket1") as [basket|]; [|done]. cbn.
  eexists. split; [reflexivity|]. split; [apply threshold_loop_Forall|].
  intros Hpass lower Hlower. do 2 f_equal.
  apply threshold_loop_Forall. apply threshold_loop_Forall in Hpass.
  eapply List.Forall_impl; [|exact Hpass]. intros reserve Hle. cbn in Hle. by etrans.
Qed.

Lemma exposure_loop_Forall (exposureLimit totalValue : Qc) (Reserves : list Qc) :
  RiskManagementContract.exposure_loop exposureLimit totalValue Reserves = true
  ↔ Forall (λ reserve, reserve / totalValue ≤ exposureLimit) Reserves.
Proof.
  induction Reserves as [|reserve rest IH]; cbn -[Qcdiv].
  - split; [constructor | done].
  - case_bool_decide as Hlt.
    + split; [done|]. intros Hall. apply Forall_cons_1 in Hall as [Hle _].
      by apply Qcle_not_lt in Hle.
    + rewrite IH. split.
      * intros Hall. constructor; [by apply Qcnot_lt_le | done].
      * intros Hall. by apply Forall_cons_1 in Hall as [_ Hall].
Qed.

Lemma shares_bounded (limit T : Qc) (l : list Qc) :
  Forall (λ r, r / T ≤ limit) l →
  total l / T ≤ limit * Qc_of_Z (Z.of_nat (length l)).
Proof.
  induction 1 as [|r l Hr _ IH]; unfold total in *; cbn -[Qcplus Qcmult Qcdiv Q2Qc].
  - replace (0 / T) with 0 by (unfold Qcdiv; ring).
    change (Qc_of_Z (Z.of_nat 0)) with (Qc_of_Z 0). rewrite Z2Qc_inj_0.
    by replace (limit * 0) with 0 by ring.
  - replace (Qc_of_Z (Z.of_nat (S (length l)))) with (1 + Qc_of_Z (Z.of_nat (length l))).
    2:{ rewrite Nat2Z.inj_succ. unfold Z.succ.
        rewrite Z2Qc_inj_add, Z2Qc_inj_1. ring. }
    replace ((r + foldr Qcplus 0 l) / T) with (r / T + foldr Qcplus 0 l / T)
      by (unfold Qcdiv; ring).
    replace (limit * (1 + Qc_of_Z (Z.of_nat (length l))))
      with (limit + limit * Qc_of_Z (Z.of_nat (length l))) by ring.
    by apply Qcplus_le_compat.
Qed.

(** X19: in exact arithmetic, on a stored basket whose reserves do not sum
    to zero, [CheckBasketExposure] answers true exactly when no reserve is a
    larger share of the sum of the reserves than the limit.  With [n]
    reserves a limit below [1/n] can therefore never be met: the check
    answers false whatever the reserves are. *)
Theorem CheckBasketExposure_largest_share (w : World Qc) (basket : Basket Qc)
    (exposureLimit : Qc) :
  baskets w !! "basket1" = Some basket →
  total (Reserves basket) ≠ 0 →
  ∃ answer,
    RiskManagementContract.CheckBasketExposure exposureLimit w = Ok (answer, w) ∧
    (answer = true ↔
     Forall (λ reserve, reserve / total (Reserves basket) ≤ exposureLimit)
       (Reserves basket)) ∧
    (exposureLimit * Qc_of_Z (Z.of_nat (length (Reserves basket))) < 1 →
     answer = false).
Proof.
  intros Hbasket Htotal.
  unfold RiskManagementContract.CheckBasketExposure. tx_unfold. rewrite Hbasket. cbn -[Qcdiv].
  eexists. split; [reflexivity|].
  change (Q2Qc 0) with 0. rewrite foldl_add_total, Qcplus_0_l.
  split; [apply exposure_loop_Forall|].
  intros Hlimit. apply not_true_is_false. intros Hpass.
  apply exposure_loop_Forall, shares_bounded in Hpass.
  replace (total (Reserves basket) / total (Reserves basket)) with 1 in Hpass
    by (by field).
  by apply Qcle_not_lt in Hpass.
Qed.
End risk_exact.

(** ** The oracle *)

Section oracle.
Local Abbreviation trusted := OracleContract.AUTHORIZED_MSP.

Lemma GetCurrencyPrice_stored (ledger : gmap string string) (currency : string) :
  OracleContract.GetCurrencyPrice currency ledger
  = match stored_price ledger currency with
    | Some text => Ok (text, ledger)
    | None => Err (Error ("No price set for currency: " +:+ currency))
    end.
Proof.
  unfold OracleContract.GetCurrencyPrice, stored_price, OracleContract.present.
  destruct (ledger !! currency) as [text|]; [|done]. cbn. by case_bool_decide.
Qed.

Lemma stored_price_putState (ledger : gmap string string) (currency price c : string) :
  stored_price (OracleContract.putState currency price ledger) c
  = if bool_decide (c = currency)
    then (if bool_decide (price ≠ EmptyString) then Some price else None)
    else stored_price ledger c.
Proof.
  unfold stored_price, OracleContract.putState.
  destruct (decide (c = currency)) as [->|Hc].
  - rewrite (bool_decide_eq_true_2 (currency = currency)) by done.
    destruct (decide (price = EmptyString)) as [->|Hprice].
    + rewrite bool_decide_eq_true_2 by done. rewrite lookup_delete_eq.
      by rewrite bool_decide_eq_false_2 by naive_solver.
    + rewrite (bool_decide_eq_false_2 (price = EmptyString)) by done.
      rewrite lookup_insert_eq. by rewrite !bool_decide_eq_true_2 by done.
  - rewrite (bool_decide_eq_false_2 (c = currency)) by done.
    case_bool_decide; [by rewrite lookup_delete_ne | by rewrite lookup_insert_ne].
Qed.

Lemma present_stored_price (ledger : gmap string string) (currency : string) :
  OracleContract.present (ledger !! currency)
  = match stored_price ledger currency with Some _ => true | None => false end.
Proof.
  unfold OracleContract.present, stored_price.
  destruct (ledger !! currency) as [text|]; [|done]. by case_bool_decide.
Qed.

Lemma AddCurrency_trusted (ledger : gmap string string) (currency price : string) :
  OracleContract.AddCurrency trusted currency price ledger
  = match stored_price ledger currency with
    | Some _ => Err (Error ("Currency " +:+ currency +:+ " already exists"))
    | None => Ok (tt, OracleContract.putState currency price ledger)
    end.
Proof.
  unfold OracleContract.AddCurrency.
  rewrite (bool_decide_eq_false_2 (trusted ≠ trusted)) by naive_solver.
  rewrite present_stored_price. by destruct (stored_price ledger currency).
Qed.

Lemma SetCurrencyPrice_trusted (ledger : gmap string string) (currency price : string) :
  OracleContract.SetCurrencyPrice trusted currency price ledger
  = match stored_price ledger currency with
    | Some _ => Ok (tt, OracleContract.putState currency price ledger)
    | None => Err (Error ("Currency " +:+ currency +:+ " does not exist"))
    end.
Proof.
  unfold OracleContract.SetCurrencyPrice.
  rewrite (bool_decide_eq_false_2 (trusted ≠ trusted)) by naive_solver.
  rewrite present_stored_price. by destruct (stored_price ledger currency).
Qed.

(** X20: the life of a price.  On a ledger that holds no price for a
    currency, the trusted organisation can add it with a price that is not
    the empty text; from then on [GetCurrencyPrice] returns that text,
    adding the currency again is refused, and [SetCurrencyPrice] replaces the
    text, which [GetCurrencyPrice] returns next.  No other currency's price
    is touched. *)
Theorem OracleContract_price_round_trip (ledger : gmap string string)
    (currency price price' again : string) :
  stored_price ledger currency = None →
  price ≠ EmptyString →
  price' ≠ EmptyString →
  ∃ ledger1 ledger2,
    OracleContract.AddCurrency trusted currency price ledger = Ok (tt, ledger1) ∧
    OracleContract.GetCurrencyPrice currency ledger1 = Ok (price, ledger1) ∧
    OracleContract.AddCurrency trusted currency again ledger1
      = Err (Error ("Currency " +:+ currency +:+ " already exists")) ∧
    OracleContract.SetCurrencyPrice trusted currency price' ledger1 = Ok (tt, ledger2) ∧
    OracleContract.GetCurrencyPrice currency ledger2 = Ok (price', ledger2) ∧
    ∀ other, other ≠ currency → stored_price ledger2 other = stored_price ledger other.
Proof.
  intros Habsent Hprice Hprice'.
  exists (OracleContract.putState currency price ledger),
    (OracleContract.putState currency price'
       (OracleContract.putState currency price ledger)).
  rewrite !AddCurrency_trusted, !SetCurrencyPrice_trusted, !GetCurrencyPrice_stored.
  rewrite !stored_price_putState, Habsent.
  rewrite !(bool_decide_eq_true_2 (currency = currency)) by done.
  rewrite !bool_decide_eq_true_2 by done.
  split_and!; try done.
  intros other Hother. rewrite !stored_price_putState.
  by rewrite !bool_decide_eq_false_2 by done.
Qed.

(** X21: the empty text is no price.  Whoever may set prices removes a
    currency by setting its price to the empty text: [SetCurrencyPrice]
    accepts it, after which [GetCurrencyPrice] finds no price, setting the
    price again is refused because the currency does not exist, and the
    currency can be added anew. *)
Theorem SetCurrencyPrice_to_the_empty_text_removes (ledger : gmap string string)
    (currency old price : string) :
  stored_price ledger currency = Some old →
  ∃ ledger1,
    OracleContract.SetCurrencyPrice trusted currency EmptyString ledger = Ok (tt, ledger1) ∧
    OracleContract.GetCurrencyPrice currency ledger1
      = Err (Error ("No price set for currency: " +:+ currency)) ∧
    OracleContract.SetCurrencyPrice trusted currency price ledger1
      = Err (Error ("Currency " +:+ currency +:+ " does not exist")) ∧
    OracleContract.AddCurrency trusted currency price ledger1
      = Ok (tt, OracleContract.putState currency price ledger1).
Proof.
  intros Hold.
  exists (OracleContract.putState currency EmptyString ledger).
  rewrite !AddCurrency_trusted, !SetCurrencyPrice_trusted, !GetCurrencyPrice_stored.
  rewrite !stored_price_putState, Hold.
  rewrite !(bool_decide_eq_true_2 (currency = currency)) by done.
  by rewrite (bool_decide_eq_false_2 (EmptyString ≠ EmptyString)) by naive_solver.
Qed.

(** X22: only the trusted organisation changes prices.  For a caller of any
    other organisation, [AddCurrency] and [SetCurrencyPrice] fail on every
    ledger, so that whatever it submits, every [GetCurrencyPrice] answers as
    before; and no transaction at all makes [GetCurrencyPrice] return the
    empty text or change the ledger. *)
Theorem OracleContract_prices_change_only_by_the_trusted (ledger ledger' : gmap string string)
    (mspid currency price : string) r :
  (OracleContract.AddCurrency mspid currency price ledger = Ok (r, ledger') ∨
   OracleContract.SetCurrencyPrice mspid currency price ledger = Ok (r, ledger')) →
  mspid = trusted ∧
  (∀ c text l, OracleContract.GetCurrencyPrice c ledger' = Ok (text, l) →
               text ≠ EmptyString ∧ l = ledger') ∧
  (∀ c, c ≠ currency →
        OracleContract.GetCurrencyPrice c ledger' = 
        match OracleContract.GetCurrencyPrice c ledger with
        | Ok (text, _) => Ok (text, ledger')
        | Err e => Err e
        end).
Proof.
  intros Hrun.
  assert (mspid = trusted ∧ ledger' = OracleContract.putState currency price ledger)
    as [-> ->].
  { unfold OracleContract.AddCurrency, OracleContract.SetCurrencyPrice in Hrun.
    destruct Hrun as [Hrun|Hrun]; case_bool_decide as Hmsp; try done.
    all: split; [done|].
    all: destruct (OracleContract.present _); cbn in Hrun; by simplify_eq. }
  split; [done|]. split.
  - intros c text l. rewrite GetCurrencyPrice_stored.
    destruct (stored_price _ c) as [text'|] eqn:Hstored; [|done].
    intros [= -> ->]. split; [|done].
    unfold stored_price in Hstored.
    destruct (_ !! c); [|done]. case_bool_decide; by simplify_eq.
  - intros c Hc. rewrite !GetCurrencyPrice_stored, stored_price_putState.
    rewrite bool_decide_eq_false_2 by done. by destruct (stored_price ledger c).
Qed.
End oracle.

(** ** The contracts against the oracle contract *)

Section against_OracleContract.
Context {N : Type} `{Number N}.
Variable env : Chaincodes N.
Variable parseFloat : string → N.
Variable ledger : gmap string string.
Local Open Scope num_scope.

Lemma chaincode_GetCurrencyPrice (currency : string) :
  OracleContract.chaincode parseFloat ledger "GetCurrencyPrice" currency
  = match stored_price ledger currency with
    | Some text => Response 200 (parseFloat text)
    | None => Rejected ("No price set for currency: " +:+ currency)
    end.
Proof.
  unfold OracleContract.chaincode. rewrite bool_decide_eq_true_2 by done.
  rewrite GetCurrencyPrice_stored. by destruct (stored_price ledger currency).
Qed.

(** X23: the volatility check against the oracle contract.
    [CheckAssetVolatility] asks the oracle for [GetPreviousCurrencyPrice],
    which [OracleContract] does not have: on a stored basket with at least
    one token the check fails, whatever the prices and the threshold; only a
    basket without tokens passes. *)
Theorem CheckAssetVolatility_against_OracleContract (w : World N) (basket : Basket N)
    (volatilityThreshold : N) (oracleContractName : string) :
  served_by_OracleContract env oracleContractName parseFloat ledger →
  baskets w !! "basket1" = Some basket →
  match Tokens basket with
  | [] =>
      RiskManagementContract.CheckAssetVolatility env volatilityThreshold
        oracleContractName w = Ok (true, w)
  | token :: _ =>
      ∃ m, RiskManagementContract.CheckAssetVolatility env volatilityThreshold
             oracleContractName w = Err (ChaincodeError m)
  end.
Proof.
  intros Hserved Hbasket.
  assert (RiskManagementContract.CheckAssetVolatility env volatilityThreshold
            oracleContractName w
          = RiskManagementContract.volatility_loop env volatilityThreshold
              oracleContractName (Tokens basket) w) as ->.
  { unfold RiskManagementContract.CheckAssetVolatility. tx_unfold. by rewrite Hbasket. }
  destruct (Tokens basket) as [|tk rest]; [reflexivity|].
  cbn [RiskManagementContract.volatility_loop]. unfold invoke_oracle, bind, throw, ret.
  rewrite !Hserved, chaincode_GetCurrencyPrice.
  destruct (stored_price ledger tk); [|by eexists].
  unfold OracleContract.chaincode. rewrite bool_decide_eq_false_2 by done.
  rewrite bool_decide_eq_false_2; [by eexists|].
  intros Hin. repeat (apply elem_of_cons in Hin as [Hin|Hin]; [done|]).
  by apply elem_of_nil in Hin.
Qed.

Lemma fetched_prices_against_OracleContract (tokens : list string) :
  served_by_OracleContract env BasketContract.oracleContractName parseFloat ledger →
  fetched_prices env tokens
  = fmap (M:=list) parseFloat <$> mapM (stored_price ledger) tokens.
Proof.
  intros Hserved. induction tokens as [|tk rest IH]; [done|].
  cbn. rewrite Hserved, chaincode_GetCurrencyPrice, IH.
  destruct (stored_price ledger tk); [|done]. cbn.
  by destruct (mapM (stored_price ledger) rest).
Qed.

(** X24: the basket's price update against the oracle contract.  When every
    token of the stored basket has a price text on the oracle's ledger,
    [UpdateBasketPrices] stores what [parseFloat] reads from each text, in
    token order, before the old prices beyond the tokens; when a token has no
    price text the update fails and stores nothing. *)
Theorem UpdateBasketPrices_against_OracleContract (w : World N) (basket : Basket N) :
  served_by_OracleContract env BasketContract.oracleContractName parseFloat ledger →
  baskets w !! "basket1" = Some basket →
  match mapM (stored_price ledger) (Tokens basket) with
  | Some texts =>
      BasketContract.UpdateBasketPrices env w
      = Ok (tt, set_basket "basket1"
                  (set_Prices basket
                     ((parseFloat <$> texts)
                        ++ drop (length (Tokens basket)) (Prices basket))) w)
  | None => ∃ e, BasketContract.UpdateBasketPrices env w = Err e
  end.
Proof.
  intros Hserved Hbasket.
  pose proof (fetched_prices_against_OracleContract (Tokens basket) Hserved) as Hfetched.
  unfold BasketContract.UpdateBasketPrices. tx_unfold. rewrite Hbasket. cbn.
  destruct (mapM (stored_price ledger) (Tokens basket)) as [texts|] eqn:Htexts.
  - rewrite (prices_loop_fetched _ _ _ 0 _ (parseFloat <$> texts)) by (done || lia).
    cbn. rewrite length_fmap. by rewrite (length_mapM _ _ _ Htexts).
  - destruct (prices_loop_fails env (Tokens basket) w 0 (Prices basket)) as [e He];
      [lia | done |].
    rewrite He. by eexists.
Qed.
End against_OracleContract.

(** ** The token *)

Section token.
Local Open Scope Z_scope.

Ltac tk_unfold :=
  unfold Token.Transfer, Token.TransferFrom, Token._transfer, Token.Mint, Token.Burn,
    Token.InitLedger, Token.CheckInitialized, Token.TokenName, Token.add, Token.sub,
    Token.plus, Token.minus, Token.number_of, Token.bind, Token.ret, Token.throw,
    Token.get, Token.modify in *.

Ltac tk_run :=
  repeat first
    [ progress (tk_unfold; cbn beta iota zeta delta [fst snd negb] in *; simplify_eq)
    | case_match ].

(** What a successful [_transfer] read and wrote. *)
Lemma _transfer_Ok (from to : string) (amount : Token.number) (l l' : Token.Ledger) r :
  Token._transfer from to amount l = Ok (r, l') →
  ∃ v b t,
    r = true ∧ from ≠ to ∧ amount = Token.Int v ∧ 0 ≤ v ≤ b ∧
    Token.balances l !! from = Some (Token.Int b) ∧
    Token.balances l !! to = t ∧
    (t = None ∨ ∃ z, t = Some (Token.Int z)) ∧
    l' = Token.set_balance to (Token.Int (counted (default (Token.Int 0) t) + v))
           (Token.set_balance from (Token.Int (b - v)) l).
Proof.
  intros Hrun. tk_run.
  all: repeat match goal with
         | H : Token.lt _ _ = false |- _ =>
             cbn in H; apply bool_decide_eq_false_1 in H
         end.
  all: match goal with
       | Hv : ¬ (?v < 0), Hb : ¬ (?b < ?v) |- _ => exists v, b
       end.
  all: eexists; split_and!; try done; try lia; eauto.
  all: match goal with
       | Hne : bool_decide (_ = _) = false |- _ => by apply bool_decide_eq_false_1 in Hne
       end.
Qed.

Lemma Transfer_Ok (from to : string) (amount : Token.number) (l l' : Token.Ledger) r :
  Token.Transfer from to amount l = Ok (r, l') →
  Token.name l ≠ EmptyString ∧ Token._transfer from to amount l = Ok (true, l').
Proof.
  unfold Token.Transfer, Token.CheckInitialized, Token.bind, Token.get, Token.ret,
    Token.throw.
  case_bool_decide as Hname; [done|].
  destruct (Token._transfer from to amount l) as [[[] l1]|e]; cbn; [|done..].
  by intros [= <- <-].
Qed.

Lemma sum_insert (m : gmap string Token.number) (account : string) (n : Token.number) :
  map_fold (λ _ n s, counted n + s) 0 (<[account := n]> m)
  = map_fold (λ _ n s, counted n + s) 0 m
    - from_option counted 0 (m !! account) + counted n.
Proof.
  destruct (m !! account) as [old|] eqn:Hold; cbn.
  - rewrite <- insert_delete_eq.
    rewrite map_fold_insert_L; [| intros; lia | by rewrite lookup_delete_eq].
    rewrite (map_fold_delete_L _ _ account old m); [lia | intros; lia | done].
  - rewrite map_fold_insert_L; [lia | intros; lia | done].
Qed.

Lemma circulating_set_balance (l : Token.Ledger) (account : string) (n : Token.number) :
  circulating (Token.set_balance account n l)
  = circulating l - from_option counted 0 (Token.balances l !! account) + counted n.
Proof. unfold circulating. cbn. apply sum_insert. Qed.

(** X25: a [Transfer] that succeeds moves a non-negative amount between two
    different accounts: the sender's balance falls by it, the recipient's
    rises by it, from 0 for a recipient without a balance, and no other
    balance changes, so that the sum of the balances is as before; the total
    supply and the allowances are not touched. *)
Theorem Transfer_conserves_the_balances (from to : string) (amount : Token.number)
    (l l' : Token.Ledger) r :
  Token.Transfer from to amount l = Ok (r, l') →
  (∃ v b,
     amount = Token.Int v ∧ 0 ≤ v ≤ b ∧
     Token.balances l !! from = Some (Token.Int b) ∧
     Token.balances l' !! from = Some (Token.Int (b - v)) ∧
     Token.balances l' !! to
       = Some (Token.Int (from_option counted 0 (Token.balances l !! to) + v))) ∧
  (∀ account, account ≠ from → account ≠ to →
              Token.balances l' !! account = Token.balances l !! account) ∧
  circulating l' = circulating l ∧
  Token.totalSupply l' = Token.totalSupply l ∧
  Token.allowances l' = Token.allowances l.
Proof.
  intros Hrun. apply Transfer_Ok in Hrun as [_ Hrun].
  apply _transfer_Ok in Hrun as (v & b & t & _ & Hne & -> & Hv & Hfrom & Hto & Ht & ->).
  split_and!.
  - exists v, b. unfold Token.set_balance. cbn [Token.balances].
    split_and!; [done | lia | lia | done | |].
    + rewrite lookup_insert_ne by done. by rewrite lookup_insert_eq.
    + rewrite lookup_insert_eq, Hto. by destruct Ht as [->|[z ->]].
  - intros account Hfrom' Hto'. unfold Token.set_balance. cbn [Token.balances].
    by rewrite !lookup_insert_ne.
  - rewrite !circulating_set_balance. unfold Token.set_balance. cbn [Token.balances].
    rewrite lookup_insert_ne by done.
    rewrite Hfrom, Hto. destruct Ht as [->|[z ->]]; cbn; lia.
  - done.
  - done.
Qed.

(** X26: when a [Transfer] goes through.  For a sender with an integer
    balance and a recipient with an integer balance or none, an integer
    amount is transferred exactly when the contract is initialized, the two
    accounts differ and the amount is neither negative nor above the
    sender's balance; an amount that is not a number is never transferred. *)
Theorem Transfer_succeeds_iff (from to : string) (l : Token.Ledger) (v b : Z)
    (t : option Z) :
  Token.balances l !! from = Some (Token.Int b) →
  Token.balances l !! to = Token.Int <$> t →
  Token.exact v = true → Token.exact b = true →
  Token.exact (default 0 t) = true → Token.exact (default 0 t + v) = true →
  ((∃ r l', Token.Transfer from to (Token.Int v) l = Ok (r, l'))
   ↔ Token.name l ≠ EmptyString ∧ from ≠ to ∧ 0 ≤ v ≤ b) ∧
  (∀ r l', Token.Transfer from to Token.NaN l ≠ Ok (r, l')).
Proof.
  intros Hfrom Hto Hv Hb Ht Htv. split; [split|].
  - intros (r & l' & Hrun). apply Transfer_Ok in Hrun as [Hname Hrun].
    apply _transfer_Ok in Hrun as (v' & b' & t' & _ & Hne & [= <-] & Hle & Hfrom' & _).
    rewrite Hfrom in Hfrom'. injection Hfrom' as <-. done.
  - intros (Hname & Hne & Hle).
    assert (Token.exact (b - v) = true) as Hbv.
    { unfold Token.exact in *. apply bool_decide_eq_true_2.
      apply bool_decide_eq_true_1 in Hv, Hb. lia. }
    unfold Token.Transfer, Token.CheckInitialized, Token._transfer.
    unfold Token.bind, Token.get, Token.ret, Token.throw, Token.modify,
      Token.number_of, Token.sub, Token.add, Token.minus, Token.plus,
      Token.number_of, Token.bind, Token.ret, Token.lt.
    rewrite (bool_decide_eq_false_2 (Token.name l = EmptyString)) by done.
    rewrite (bool_decide_eq_false_2 (from = to)) by done.
    rewrite Hv. rewrite (bool_decide_eq_false_2 (v < 0)) by lia.
    rewrite Hfrom, Hb. rewrite (bool_decide_eq_false_2 (b < v)) by lia.
    rewrite Hto. destruct t as [z|]; cbn in *.
    + rewrite Ht, Hbv, Htv. cbn. by eexists _, _.
    + rewrite Hbv, Htv. cbn. by eexists _, _.
  - intros r l' Hrun. apply Transfer_Ok in Hrun as [_ Hrun].
    by apply _transfer_Ok in Hrun as (v' & b' & t' & _ & _ & [=] & _).
Qed.

Lemma TransferFrom_Ok (spender from to : string) (amount : Token.number)
    (l l' : Token.Ledger) r :
  Token.TransferFrom spender from to amount l = Ok (r, l') →
  ∃ a v l1,
    Token.name l ≠ EmptyString ∧
    Token.allowances l !! (from, spender) = Some (Token.Int a) ∧
    amount = Token.Int v ∧ v ≤ a ∧
    Token._transfer from to amount l = Ok (true, l1) ∧
    l' = Token.set_allowance from spender (Token.Int (a - v)) l1.
Proof.
  unfold Token.TransferFrom, Token.CheckInitialized.
  unfold Token.bind at 1 2. unfold Token.get at 1. unfold Token.ret at 1.
  unfold Token.throw at 1.
  case_bool_decide as Hname; [done|].
  unfold Token.bind at 1. unfold Token.get at 1.
  destruct (Token.allowances l !! (from, spender)) as [allowance|] eqn:Hallowance; [|done].
  unfold Token.bind at 1.
  destruct (Token.number_of allowance l) as [[a l0]|e] eqn:Ha; [|done].
  unfold Token.bind at 1.
  destruct (Token.number_of amount l0) as [[v l0']|e] eqn:Hv; [|done].
  assert (l0 = l ∧ l0' = l) as [-> ->].
  { unfold Token.number_of, Token.ret, Token.throw in Ha, Hv.
    repeat case_match; by simplify_eq. }
  destruct (Token.lt a v) eqn:Hlt; [done|].
  unfold Token.bind at 1.
  destruct (Token._transfer from to amount l) as [[resp l1]|e] eqn:Htransfer; [|done].
  pose proof Htransfer as Hfacts.
  apply _transfer_Ok in Hfacts as (v' & b & t & -> & _ & -> & _).
  cbn [negb]. intros Hrun.
  unfold Token.number_of, Token.ret, Token.throw in Ha, Hv.
  destruct allowance as [|a0]; [|destruct (Token.exact a0) eqn:Ha0; [|done]];
    destruct (Token.exact v') eqn:Hv0; simplify_eq.
  all: unfold Token.sub, Token.minus, Token.number_of, Token.bind, Token.ret,
         Token.throw, Token.modify in Hrun; cbn in Hrun; try done.
  cbn in Hlt. apply bool_decide_eq_false_1 in Hlt.
  destruct (Token.exact (a0 - v')); cbn in Hrun; [|done]. simplify_eq.
  eexists a0, v', l1. split_and!; try done. lia.
Qed.

Lemma Mint_Ok (to : string) (amount : Token.number) (l l' : Token.Ledger) r :
  Token.Mint to amount l = Ok (r, l') →
  ∃ newTotalSupply newToBalance,
    l' = Token.set_balance to newToBalance (Token.set_totalSupply newTotalSupply l) ∧
    ∀ a, amount = Token.Int a →
      (Token.totalSupply l = None ∧ newTotalSupply = Token.Int a ∨
       Token.totalSupply l = Some Token.NaN ∧ newTotalSupply = Token.NaN ∨
       ∃ s, Token.totalSupply l = Some (Token.Int s) ∧ newTotalSupply = Token.Int (s + a)) ∧
      (Token.balances l !! to = None ∧ newToBalance = Token.Int a ∨
       Token.balances l !! to = Some Token.NaN ∧ newToBalance = Token.NaN ∨
       ∃ b, Token.balances l !! to = Some (Token.Int b) ∧ newToBalance = Token.Int (b + a)).
Proof.
  intros Hrun. tk_run.
  all: eexists _, _; split; [reflexivity|].
  all: intros a' [= <-]; split; eauto.
Qed.

Lemma Burn_Ok (from : string) (amount : Token.number) (l l' : Token.Ledger) r :
  Token.Burn from amount l = Ok (r, l') →
  ∃ newTotalSupply newFromBalance,
    l' = Token.set_balance from newFromBalance (Token.set_totalSupply newTotalSupply l) ∧
    ∀ a, amount = Token.Int a →
      ((∃ s, Token.totalSupply l = Some (Token.Int s) ∧ newTotalSupply = Token.Int (s - a)) ∨
       (∀ s, Token.totalSupply l ≠ Some (Token.Int s)) ∧ newTotalSupply = Token.NaN) ∧
      ((∃ b, Token.balances l !! from = Some (Token.Int b) ∧ newFromBalance = Token.Int (b - a)) ∨
       (∀ b, Token.balances l !! from ≠ Some (Token.Int b)) ∧ newFromBalance = Token.NaN).
Proof.
  intros Hrun. tk_run.
  all: eexists _, _; split; [reflexivity|].
  all: intros a' [= <-]; split; eauto.
  all: right; split; [|done]; congruence.
Qed.

Lemma step_allowance_keys (l l' : Token.Ledger) :
  token_step l l' → dom (Token.allowances l') = dom (Token.allowances l).
Proof.
  destruct 1 as [n s d l l' r Hrun|from to amount l l' r Hrun
                |spender from to amount l l' r Hrun|to amount l l' r Hrun
                |from amount l l' r Hrun].
  - unfold Token.InitLedger in Hrun. tk_run. done.
  - apply Transfer_Ok in Hrun as [_ Hrun].
    by apply _transfer_Ok in Hrun as (v & b & t & _ & _ & _ & _ & _ & _ & _ & ->).
  - apply TransferFrom_Ok in Hrun as (a & v & l1 & _ & Ha & _ & _ & Htransfer & ->).
    apply _transfer_Ok in Htransfer as (v' & b & t & _ & _ & _ & _ & _ & _ & _ & ->).
    cbn. by apply dom_insert_lookup_L.
  - by apply Mint_Ok in Hrun as (s & b & -> & _).
  - by apply Burn_Ok in Hrun as (s & b & -> & _).
Qed.

(** X27: no transaction of the token creates an allowance: the contract has
    no [Approve], and [TransferFrom] only lowers an allowance that is there.
    Through any sequence of successful transactions the spenders with an
    allowance stay the same, so that on a ledger that started without
    allowances every [TransferFrom] fails. *)
Theorem TransferFrom_needs_an_allowance_that_is_never_given (l l' : Token.Ledger) :
  rtc token_step l l' →
  dom (Token.allowances l') = dom (Token.allowances l) ∧
  (Token.allowances l = ∅ →
   ∀ spender from to amount, ∃ m,
     Token.TransferFrom spender from to amount l' = Err (Error m)).
Proof.
  intros Hsteps.
  assert (dom (Token.allowances l') = dom (Token.allowances l)) as Hdom.
  { induction Hsteps as [|l0 l1 l2 Hstep _ IH]; [done|].
    by rewrite IH, (step_allowance_keys _ _ Hstep). }
  split; [done|]. intros Hempty spender from to amount.
  rewrite Hempty, dom_empty_L in Hdom. apply dom_empty_inv_L in Hdom.
  unfold Token.TransferFrom, Token.CheckInitialized, Token.bind, Token.get, Token.ret,
    Token.throw.
  case_bool_decide; [by eexists|]. rewrite Hdom, lookup_empty. by eexists.
Qed.

Lemma backed_set_allowance (l : Token.Ledger) (owner spender : string) (v : Token.number) :
  backed l → backed (Token.set_allowance owner spender v l).
Proof. done. Qed.

Lemma _transfer_backed (from to : string) (amount : Token.number)
    (l l' : Token.Ledger) r :
  backed l → Token._transfer from to amount l = Ok (r, l') → backed l'.
Proof.
  intros [Hnan Hsupply] Hrun.
  apply _transfer_Ok in Hrun as (v & b & t & _ & Hne & -> & Hv & Hfrom & Hto & Ht & ->).
  split.
  - intros account. unfold Token.set_balance. cbn [Token.balances].
    destruct (decide (account = to)) as [->|Hto']; [by rewrite lookup_insert_eq|].
    rewrite lookup_insert_ne by done.
    destruct (decide (account = from)) as [->|Hfrom']; [by rewrite lookup_insert_eq|].
    rewrite lookup_insert_ne by done. apply Hnan.
  - assert (circulating (Token.set_balance to
                           (Token.Int (counted (default (Token.Int 0) t) + v))
                           (Token.set_balance from (Token.Int (b - v)) l))
            = circulating l) as Hsame.
    { rewrite !circulating_set_balance. unfold Token.set_balance. cbn [Token.balances].
      rewrite lookup_insert_ne by done.
      rewrite Hfrom, Hto. destruct Ht as [->|[z ->]]; cbn; lia. }
    cbn [Token.totalSupply Token.set_balance]. rewrite Hsame. exact Hsupply.
Qed.

(** X28: the total supply stays the sum of the balances.  On a ledger where
    the stored total supply is the sum of the balances and no balance is
    NaN, this is again so after [InitLedger], [Transfer], [TransferFrom], a
    [Mint] of an integer amount, and a [Burn] of an integer amount from an
    account that has a balance while a total supply is stored. *)
Theorem total_supply_stays_backed (l l' : Token.Ledger) :
  backed l →
  (∀ name symbol decimals r,
     Token.InitLedger name symbol decimals l = Ok (r, l') → backed l') ∧
  (∀ from to amount r, Token.Transfer from to amount l = Ok (r, l') → backed l') ∧
  (∀ spender from to amount r,
     Token.TransferFrom spender from to amount l = Ok (r, l') → backed l') ∧
  (∀ to a r, Token.Mint to (Token.Int a) l = Ok (r, l') → backed l') ∧
  (∀ from a r,
     Token.Burn from (Token.Int a) l = Ok (r, l') →
     is_Some (Token.balances l !! from) → is_Some (Token.totalSupply l) →
     backed l').
Proof.
  intros Hbacked. split_and!.
  - intros n s d r Hrun. unfold Token.InitLedger in Hrun. tk_run. exact Hbacked.
  - intros from to amount r Hrun. apply Transfer_Ok in Hrun as [_ Hrun].
    by eapply _transfer_backed.
  - intros spender from to amount r Hrun.
    apply TransferFrom_Ok in Hrun as (a & v & l1 & _ & _ & _ & _ & Htransfer & ->).
    apply backed_set_allowance. by eapply _transfer_backed.
  - intros to a r Hrun. destruct Hbacked as [Hnan Hsupply].
    apply Mint_Ok in Hrun as (s' & b' & -> & Hfacts).
    destruct (Hfacts a eq_refl) as [Hs Hb]. split.
    + intros account. unfold Token.set_balance. cbn [Token.balances].
      destruct (decide (account = to)) as [->|Hto'].
      * rewrite lookup_insert_eq.
        destruct Hb as [[_ ->]|[[Hb _]|(b & _ & ->)]]; [done | by apply Hnan in Hb | done].
      * rewrite lookup_insert_ne by done. apply Hnan.
    + cbn [Token.totalSupply Token.set_balance Token.set_totalSupply].
      rewrite circulating_set_balance.
      replace (circulating (Token.set_totalSupply s' l)) with (circulating l) by done.
      cbn [Token.balances Token.set_totalSupply].
      destruct Hs as [[Hs ->]|[[Hs _]|(s & Hs & ->)]]; rewrite Hs in Hsupply; [|done|].
      all: destruct Hb as [[Hb ->]|[[Hb _]|(b & Hb & ->)]];
        [| by apply Hnan in Hb |]; rewrite Hb; cbn; lia.
  - intros from a r Hrun [b0 Hb0] [s0 Hs0]. destruct Hbacked as [Hnan Hsupply].
    apply Burn_Ok in Hrun as (s' & b' & -> & Hfacts).
    destruct (Hfacts a eq_refl) as [Hs Hb].
    assert (∃ s, Token.totalSupply l = Some (Token.Int s) ∧ s' = Token.Int (s - a))
      as (s & Hs' & ->).
    { destruct Hs as [Hs|[Hs _]]; [done|]. rewrite Hs0 in Hsupply, Hs.
      destruct s0 as [|s]; [done|]. by destruct (Hs s). }
    assert (∃ b, Token.balances l !! from = Some (Token.Int b) ∧ b' = Token.Int (b - a))
      as (b & Hb' & ->).
    { destruct Hb as [Hb|[Hb _]]; [done|]. rewrite Hb0 in Hb.
      destruct b0 as [|b]; [by apply Hnan in Hb0 | by destruct (Hb b)]. }
    split.
    + intros account. unfold Token.set_balance. cbn [Token.balances].
      destruct (decide (account = from)) as [->|Hfrom']; [by rewrite lookup_insert_eq|].
      rewrite lookup_insert_ne by done. apply Hnan.
    + cbn [Token.totalSupply Token.set_balance Token.set_totalSupply].
      rewrite circulating_set_balance.
      replace (circulating (Token.set_totalSupply (Token.Int (s - a)) l))
        with (circulating l) by done.
      cbn [Token.balances Token.set_totalSupply].
      rewrite Hs' in Hsupply. rewrite Hb'. cbn. lia.
Qed.

(** X29: [Burn] checks no funds.  On an initialized contract with a stored
    total supply it takes an integer amount from an account whatever the
    balance, which falls below zero when the amount is larger; and for an
    account without a balance, or with the balance NaN, it succeeds too and
    stores NaN as the balance while it lowers the total supply. *)
Theorem Burn_checks_no_funds (from : string) (a s : Z) (l : Token.Ledger) :
  Token.name l ≠ EmptyString →
  Token.totalSupply l = Some (Token.Int s) →
  Token.exact s = true → Token.exact a = true → Token.exact (s - a) = true →
  match Token.balances l !! from with
  | Some (Token.Int b) =>
      Token.exact b = true → Token.exact (b - a) = true →
      Token.Burn from (Token.Int a) l
      = Ok (true, Token.set_balance from (Token.Int (b - a))
                    (Token.set_totalSupply (Token.Int (s - a)) l))
  | _ =>
      Token.Burn from (Token.Int a) l
      = Ok (true, Token.set_balance from Token.NaN
                    (Token.set_totalSupply (Token.Int (s - a)) l))
  end.
Proof.
  intros Hname Hsupply Hs Ha Hsa.
  unfold Token.Burn, Token.CheckInitialized, Token.minus, Token.number_of, Token.bind,
    Token.get, Token.ret, Token.throw, Token.modify.
  rewrite (bool_decide_eq_false_2 (Token.name l = EmptyString)) by done.
  rewrite Hsupply, Hs.
  destruct (Token.balances l !! from) as [[|b]|].
  - by rewrite Ha, Hsa.
  - intros Hb Hba. by rewrite Hb, Ha, Hsa, Hba.
  - by rewrite Ha, Hsa.
Qed.

(** X30: [InitLedger] works once, when the name is not empty: on a contract
    without a name it stores the name, which [TokenName] then returns, and
    every later [InitLedger] is refused.  With the empty text as the name the
    contract stays uninitialized: [TokenName] fails and [InitLedger] can be
    run again. *)
Theorem InitLedger_once_with_a_name (l : Token.Ledger) (name symbol decimals : string) :
  Token.name l = EmptyString →
  ∃ l',
    Token.InitLedger name symbol decimals l = Ok (true, l') ∧
    Token.balances l' = Token.balances l ∧
    if bool_decide (name = EmptyString)
    then (∃ m, Token.TokenName l' = Err (Error m)) ∧
         ∀ name2 symbol2 decimals2, ∃ l'',
           Token.InitLedger name2 symbol2 decimals2 l' = Ok (true, l'')
    else Token.TokenName l' = Ok (name, l') ∧
         ∀ name2 symbol2 decimals2,
           Token.InitLedger name2 symbol2 decimals2 l'
           = Err (Error "Contract is already initialized").
Proof.
  intros Hempty. eexists. split.
  { unfold Token.InitLedger, Token.bind, Token.get, Token.ret, Token.throw, Token.modify.
    rewrite (bool_decide_eq_false_2 (Token.name l ≠ EmptyString)) by naive_solver.
    reflexivity. }
  split; [done|].
  unfold Token.TokenName, Token.InitLedger, Token.CheckInitialized, Token.bind,
    Token.get, Token.ret, Token.throw, Token.modify. cbn [Token.name].
  case_bool_decide as Hname.
  - subst name. split; [by eexists|]. intros name2 symbol2 decimals2.
    rewrite (bool_decide_eq_false_2 (EmptyString ≠ EmptyString)) by naive_solver.
    by eexists.
  - split; [done|]. intros name2 symbol2 decimals2.
    by rewrite (bool_decide_eq_true_2 (name ≠ EmptyString)).
Qed.
End token.

(** ** The further properties on concrete ledgers *)

Section scenarios_more.
Local Open Scope Qc_scope.

Local Abbreviation position := (LiquidityPool.USER_CONTRIBUTION_PREFIX +:+ "user1").
Local Abbreviation q := Q2Qc.

(** X1, witness: after [Init] on a ledger without positions, user1 can
    withdraw nothing. *)
Lemma pool_without_positions_witness :
  pool_contributions (pool_world (q 0) (q 0) ∅ ∅) = ∅ ∧
  LiquidityPool.RemoveLiquidity (priced_env (q 1) (q 1)) "A" "B" "user1" (q 10)
    (pool_world (q 0) (q 0) ∅ ∅) = Err SyntaxError.
Proof.
  destruct (pool_without_positions_stays_closed sqrt_of_square (priced_env (q 1) (q 1))
              "A" "B" (pool_world (q 5) (q 5) ∅ ∅) (pool_world (q 0) (q 0) ∅ ∅))
    as (Hnone & _ & Hremove).
  - reflexivity.
  - eapply rtc_once, step_Init. reflexivity.
  - split; [exact Hnone | apply Hremove].
Defined.

(** X2, witness: the token name "tokenC" on a pool of 1000 and 1000. *)
Lemma Swap_takes_unknown_token_witness :
  LiquidityPool.GetReserve "tokenC" (pool_world (q 1000) (q 1000) ∅ ∅)
    = Err (Error "Invalid token identifier") ∧
  LiquidityPool.Swap (priced_env (q 1) (q 1)) "A" "B" "user1" "tokenC" (q 100)
    (pool_world (q 1000) (q 1000) ∅ ∅)
  = LiquidityPool.Swap (priced_env (q 1) (q 1)) "A" "B" "user1" "tokenB" (q 100)
      (pool_world (q 1000) (q 1000) ∅ ∅).
Proof.
  apply (Swap_takes_unknown_token_for_tokenB (priced_env (q 1) (q 1)) "A" "B"
           (pool_world (q 1000) (q 1000) ∅ ∅) (Build_Reserve (q 1000) (q 1000))
           "user1" "tokenC" (q 100)).
  - reflexivity.
  - discriminate.
  - discriminate.
Defined.

Lemma token_contract_env_hosts_Token (cc : string) :
  hosts_Token (token_contract_env (q 1) (q 1)) cc.
Proof.
  intros f from to amt Hnot. cbn. rewrite bool_decide_eq_false_2 by done. by eexists.
Qed.

(** X3, witness: a pool of 1000 and 1000 whose two tokens are the token
    contract. *)
Lemma pool_cannot_settle_witness :
  (∀ r w',
     LiquidityPool.AddLiquidity sqrt_of_square (token_contract_env (q 1) (q 1)) "A" "B"
       "user1" (q 10) (q 10) (pool_world (q 1000) (q 1000) ∅ ∅) ≠ Ok (r, w')) ∧
  (∀ r w',
     LiquidityPool.Swap (token_contract_env (q 1) (q 1)) "A" "B" "user1" "tokenA" (q 10)
       (pool_world (q 1000) (q 1000) ∅ ∅) ≠ Ok (r, w')).
Proof.
  destruct (pool_cannot_settle_on_the_token_contract sqrt_of_square
              (token_contract_env (q 1) (q 1)) "A" "B"
              (pool_world (q 1000) (q 1000) ∅ ∅)
              (token_contract_env_hosts_Token "A") (token_contract_env_hosts_Token "B"))
    as (Hadd & Hswap & _).
  split; intros r w'; [apply Hadd | apply Hswap].
Defined.

(** X4, witness: 10 of tokenA into a pool of 0 and 1000 is paid 997. *)
Lemma Swap_with_a_zero_reserve_witness :
  ∃ w',
    LiquidityPool.Swap (priced_env (q 1) (q 1)) "A" "B" "user1" "tokenA" (q 10)
      (pool_world (q 0) (q 1000) ∅ ∅) = Ok (q 1000 * (1 - q (3 # 1000)), w') ∧
    pool_reserve w' = Some (Build_Reserve (q 0 + q 10) (q 0)).
Proof.
  destruct (LiquidityPool.Swap (priced_env (q 1) (q 1)) "A" "B" "user1" "tokenA" (q 10)
              (pool_world (q 0) (q 1000) ∅ ∅)) as [[amountOut w']|e] eqn:Hrun;
    [|vm_compute in Hrun; discriminate Hrun].
  destruct (Swap_with_a_zero_reserve_pays_the_other_side (priced_env (q 1) (q 1)) "A" "B"
              (pool_world (q 0) (q 1000) ∅ ∅) w' "user1" "tokenA" (q 10) amountOut
              (Build_Reserve (q 0) (q 1000))) as [-> Hreserve].
  - reflexivity.
  - by left.
  - intros Heq. apply (f_equal (λ x, Qnum (this x))) in Heq. vm_compute in Heq. discriminate Heq.
  - exact Hrun.
  - by exists w'.
Defined.

(** X5, witness: user1 withdraws half of a position of 1000 and 1000 from a
    pool that holds 10 and 10. *)
Lemma RemoveLiquidity_can_overdraw_witness :
  ∃ w',
    LiquidityPool.RemoveLiquidity (priced_env (q 1) (q 1)) "A" "B" "user1" (q 500)
      (pool_world (q 10) (q 10)
         {[ position := Build_UserContribution "user1" (q 1000) (q 1000) (q 1000) ]} ∅)
    = Ok (true, w') ∧
    pool_reserve w' =
      Some (Build_Reserve (q 10 - q 1000 * (q 500 / q 1000))
              (q 10 - q 1000 * (q 500 / q 1000))).
Proof.
  destruct (RemoveLiquidity_can_overdraw_the_reserves (priced_env (q 1) (q 1)) "A" "B"
              (pool_world (q 10) (q 10)
                 {[ position := Build_UserContribution "user1" (q 1000) (q 1000) (q 1000) ]} ∅)
              "user1" (q 500) (Build_Reserve (q 10) (q 10))
              (Build_UserContribution "user1" (q 1000) (q 1000) (q 1000)))
    as (w' & Hrun & Hreserve & _).
  - reflexivity.
  - reflexivity.
  - intros Heq. apply (f_equal (λ x, Qnum (this x))) in Heq. vm_compute in Heq. discriminate Heq.
  - intros Hlt. vm_compute in Hlt. discriminate Hlt.
  - intros cc f from to amt. by eexists _, _.
  - by exists w'.
Defined.

(** X6, witness: user1 withdraws all 1000 LP tokens of a position of 1000
    and 1000. *)
Lemma RemoveLiquidity_of_all_LP_tokens_witness :
  ∃ w',
    LiquidityPool.RemoveLiquidity (priced_env (q 1) (q 1)) "A" "B" "user1" (q 1000)
      (pool_world (q 1000) (q 1000)
         {[ position := Build_UserContribution "user1" (q 1000) (q 1000) (q 1000) ]} ∅)
    = Ok (true, w') ∧
    pool_contributions w' !! position
    = Some (Build_UserContribution "user1" (q 0) (q 0) (q 0)).
Proof.
  destruct (LiquidityPool.RemoveLiquidity (priced_env (q 1) (q 1)) "A" "B" "user1" (q 1000)
              (pool_world (q 1000) (q 1000)
                 {[ position := Build_UserContribution "user1" (q 1000) (q 1000) (q 1000) ]} ∅))
    as [[r w']|e] eqn:Hrun; [|vm_compute in Hrun; discriminate Hrun].
  destruct (RemoveLiquidity_of_all_LP_tokens_empties_the_position
              (priced_env (q 1) (q 1)) "A" "B"
              (pool_world (q 1000) (q 1000)
                 {[ position := Build_UserContribution "user1" (q 1000) (q 1000) (q 1000) ]} ∅)
              w' "user1" (Build_UserContribution "user1" (q 1000) (q 1000) (q 1000)) r)
    as [Hposition _].
  - reflexivity.
  - intros Heq. apply (f_equal (λ x, Qnum (this x))) in Heq. vm_compute in Heq. discriminate Heq.
  - exact Hrun.
  - exists w'. split; [|exact Hposition].
    destruct r; [reflexivity|]. vm_compute in Hrun. discriminate Hrun.
Defined.
End scenarios_more.

Section scenarios_more2.
Local Open Scope Qc_scope.

Local Abbreviation q := Q2Qc.

(** X7, witness: a registry that holds user1 under the name user1, credited
    a fee of 3. *)
Lemma registry_stays_keyed_witness :
  ∃ w',
    LiquidityProviderContract.UpdateEarnedFees "user1" (q 3)
      (pool_world (q 1000) (q 1000) ∅
         {[ "user1" := Build_LiquidityProvider "user1" (q 1000) (q 5) ]}) = Ok (tt, w') ∧
    registry_wf (providers w').
Proof.
  destruct (LiquidityProviderContract.UpdateEarnedFees "user1" (q 3)
              (pool_world (q 1000) (q 1000) ∅
                 {[ "user1" := Build_LiquidityProvider "user1" (q 1000) (q 5) ]}))
    as [[[] w']|e] eqn:Hrun; [|vm_compute in Hrun; discriminate Hrun].
  exists w'. split; [reflexivity|].
  destruct (registry_stays_keyed_by_user (priced_env (q 1) (q 1))
              (pool_world (q 1000) (q 1000) ∅
                 {[ "user1" := Build_LiquidityProvider "user1" (q 1000) (q 5) ]}) w')
    as (_ & Hfees & _).
  - by apply map_Forall_singleton.
  - exact (Hfees "user1" (q 3) tt Hrun).
Defined.

(** X11, witness: a fee of 10 over contributions of 30 and 70, with earned
    fees of 1 and 2 before. *)
Lemma distributeFees_hands_out_the_whole_fee_witness :
  ∃ w',
    LiquidityPool.distributeFees (q 10)
      (pool_world (q 1000) (q 1000) ∅
         {[ "p1" := Build_LiquidityProvider "p1" (q 30) (q 1);
            "p2" := Build_LiquidityProvider "p2" (q 70) (q 2) ]}) = Ok (tt, w') ∧
    totalEarnedFees (providers w') = q 13.
Proof.
  destruct (distributeFees_hands_out_the_whole_fee
              (pool_world (q 1000) (q 1000) ∅
                 {[ "p1" := Build_LiquidityProvider "p1" (q 30) (q 1);
                    "p2" := Build_LiquidityProvider "p2" (q 70) (q 2) ]}) (q 10))
    as (w' & Hrun & Htotal).
  - cbn. apply map_Forall_insert_2; [done|]. by apply map_Forall_singleton.
  - intros Heq. apply (f_equal (λ x, Qnum (this x))) in Heq.
    vm_compute in Heq. discriminate Heq.
  - exists w'. split; [exact Hrun|]. rewrite Htotal.
    apply Qc_is_canon. vm_compute. reflexivity.
Defined.

(** X12, witness: 100 of tokenA into a pool of 1000 and 1000 without
    providers. *)
Lemma Swap_without_providers_witness :
  ∃ amountOut w',
    LiquidityPool.Swap (priced_env (q 1) (q 1)) "A" "B" "user1" "tokenA" (q 100)
      (pool_world (q 1000) (q 1000) ∅ ∅) = Ok (amountOut, w') ∧
    providers w' = ∅.
Proof.
  destruct (LiquidityPool.Swap (priced_env (q 1) (q 1)) "A" "B" "user1" "tokenA" (q 100)
              (pool_world (q 1000) (q 1000) ∅ ∅)) as [[amountOut w']|e] eqn:Hrun;
    [|vm_compute in Hrun; discriminate Hrun].
  destruct (Swap_without_providers_credits_nobody (priced_env (q 1) (q 1)) "A" "B"
              (pool_world (q 1000) (q 1000) ∅ ∅) w' "user1" "tokenA" (q 100) amountOut)
    as [Hnone _].
  - reflexivity.
  - exact Hrun.
  - by exists amountOut, w'.
Defined.

(** X14, witness: a basket of the tokens tokenA and b with three old prices,
    against an oracle that prices tokenA at 2 and every other token at 3. *)
Lemma UpdateBasketPrices_all_or_nothing_witness :
  BasketContract.UpdateBasketPrices (priced_env (q 2) (q 3))
    (Build_World None ∅
       {[ "basket1" := Build_Basket "basket1" (q 1) ["tokenA"; "b"] [q 4; q 4] [] []
                         [q 7; q 8; q 9] ]} ∅ [])
  = Ok (tt, Build_World None ∅
              {[ "basket1" := Build_Basket "basket1" (q 1) ["tokenA"; "b"] [q 4; q 4] [] []
                                [q 2; q 3; q 9] ]} ∅ []).
Proof.
  destruct (UpdateBasketPrices_all_or_nothing (priced_env (q 2) (q 3))
              (Build_World None ∅
                 {[ "basket1" := Build_Basket "basket1" (q 1) ["tokenA"; "b"] [q 4; q 4] [] []
                                   [q 7; q 8; q 9] ]} ∅ [])
              (Build_Basket "basket1" (q 1) ["tokenA"; "b"] [q 4; q 4] [] [] [q 7; q 8; q 9]))
    as [Hall _]; [reflexivity|].
  rewrite (Hall [q 2; q 3] eq_refl). unfold set_basket. cbn. by rewrite insert_singleton_eq.
Defined.

(** X15, witness: user1 adds 1 and 2 to a basket of 4 and 4 with a third
    reserve of 9. *)
Lemma basket_AddLiquidity_witness :
  ∃ w',
    BasketContract.AddLiquidity (priced_env (q 1) (q 1)) [q 1; q 2] "user1"
      (basket_world (q 1) ["a"; "b"] [q 4; q 4; q 9]) = Ok (tt, w') ∧
    Reserves <$> baskets w' !! "basket1" = Some [q 4 + q 1; q 4 + q 2; q 9] ∧
    calls w' =
      [ Build_TokenCall "a" "Transfer" "user1" BasketContract.reserveWallet (q 1);
        Build_TokenCall "b" "Transfer" "user1" BasketContract.reserveWallet (q 2) ].
Proof.
  destruct (BasketContract.AddLiquidity (priced_env (q 1) (q 1)) [q 1; q 2] "user1"
              (basket_world (q 1) ["a"; "b"] [q 4; q 4; q 9])) as [[[] w']|e] eqn:Hrun;
    [|vm_compute in Hrun; discriminate Hrun].
  destruct (basket_AddLiquidity_adds_each_amount (priced_env (q 1) (q 1))
              (basket_world (q 1) ["a"; "b"] [q 4; q 4; q 9]) w' [q 1; q 2] "user1" tt Hrun)
    as (basket & Hbasket & _ & Hbaskets & Hcalls & _).
  injection Hbasket as <-.
  exists w'. split; [reflexivity|]. split.
  - rewrite Hbaskets. by rewrite lookup_insert_eq.
  - exact Hcalls.
Defined.

(** X16, witness: half a unit of a out of a basket that holds 1 of a and 100
    of b. *)
Lemma SwapCBDCs_out_of_the_smaller_reserve_witness :
  ∃ toAmount w',
    BasketContract.SwapCBDCs (priced_env (q 1) (q 1)) (q (1 # 2)) "a" "b" "user1"
      (basket_world (q 1) ["a"; "b"] [q 1; q 100])
    = Ok ((q (1 # 2), "a", toAmount, "b"), w') ∧
    toAmount < 0.
Proof.
  destruct (BasketContract.SwapCBDCs (priced_env (q 1) (q 1)) (q (1 # 2)) "a" "b" "user1"
              (basket_world (q 1) ["a"; "b"] [q 1; q 100])) as [[res w']|e] eqn:Hrun;
    [|vm_compute in Hrun; discriminate Hrun].
  destruct (SwapCBDCs_out_of_the_smaller_reserve (priced_env (q 1) (q 1))
              (basket_world (q 1) ["a"; "b"] [q 1; q 100])
              (Build_Basket "basket1" (q 1) ["a"; "b"] [q 1; q 100] [] [] [])
              "a" "b" "user1" (q 1) (q 100) (q (1 # 2)))
    as [Hforth _]; [reflexivity | reflexivity | discriminate | reflexivity |].
  destruct (Hforth res w') as (toAmount & -> & Hneg & _);
    [reflexivity | reflexivity | by vm_compute | exact Hrun |].
  by exists toAmount, w'.
Defined.

(** X17, witness: user1, with earned fees of 5, removes 50 % from a basket of
    4 and 4. *)
Lemma basket_RemoveLiquidity_witness :
  ∃ w',
    BasketContract.RemoveLiquidity (priced_env (q 1) (q 1)) (q 50) "user1"
      (Build_World None ∅
         {[ "basket1" := Build_Basket "basket1" (q 1) ["a"; "b"] [q 4; q 4] [] [] [] ]}
         {[ "user1" := Build_LiquidityProvider "user1" (q 1000) (q 5) ]} [])
    = Ok (tt, w') ∧
    Reserves <$> baskets w' !! "basket1" = Some [q 4; q 4] ∧
    earnedFees <$> providers w' !! "user1" = Some 0.
Proof.
  destruct (BasketContract.RemoveLiquidity (priced_env (q 1) (q 1)) (q 50) "user1"
              (Build_World None ∅
                 {[ "basket1" := Build_Basket "basket1" (q 1) ["a"; "b"] [q 4; q 4] [] [] [] ]}
                 {[ "user1" := Build_LiquidityProvider "user1" (q 1000) (q 5) ]} []))
    as [[[] w']|e] eqn:Hrun; [|vm_compute in Hrun; discriminate Hrun].
  destruct (basket_RemoveLiquidity_withdraws_no_reserve (priced_env (q 1) (q 1)) _ w'
              (q 50) "user1" tt Hrun) as (Hbaskets & Hfees & _).
  exists w'. split; [reflexivity|]. split; [|exact Hfees].
  by rewrite Hbaskets.
Defined.

(** X19, witness: three reserves of 1 against a limit of 3/10. *)
Lemma CheckBasketExposure_witness :
  RiskManagementContract.CheckBasketExposure (q (3 # 10))
    (basket_world (q 1) ["a"; "b"; "c"] [q 1; q 1; q 1])
  = Ok (false, basket_world (q 1) ["a"; "b"; "c"] [q 1; q 1; q 1]).
Proof.
  destruct (CheckBasketExposure_largest_share
              (basket_world (q 1) ["a"; "b"; "c"] [q 1; q 1; q 1])
              (Build_Basket "basket1" (q 1) ["a"; "b"; "c"] [q 1; q 1; q 1] [] [] [])
              (q (3 # 10)))
    as (answer & Hrun & _ & Hlimit).
  - reflexivity.
  - intros Heq. apply (f_equal (λ x, Qnum (this x))) in Heq.
    vm_compute in Heq. discriminate Heq.
  - rewrite Hrun, Hlimit; [reflexivity|]. by vm_compute.
Defined.
End scenarios_more2.

Section scenarios_more3.
Local Open Scope Qc_scope.

Local Abbreviation q := Q2Qc.
Local Abbreviation trusted := OracleContract.AUTHORIZED_MSP.

(** X20, witness: the price of USD is added as 1.5 and set to 1.6 on an empty
    ledger. *)
Lemma OracleContract_price_round_trip_witness :
  ∃ ledger1 ledger2,
    OracleContract.AddCurrency trusted "USD" "1.5" ∅ = Ok (tt, ledger1) ∧
    OracleContract.GetCurrencyPrice "USD" ledger1 = Ok ("1.5", ledger1) ∧
    OracleContract.SetCurrencyPrice trusted "USD" "1.6" ledger1 = Ok (tt, ledger2) ∧
    OracleContract.GetCurrencyPrice "USD" ledger2 = Ok ("1.6", ledger2).
Proof.
  destruct (OracleContract_price_round_trip ∅ "USD" "1.5" "1.6" "9")
    as (ledger1 & ledger2 & Hadd & Hget & _ & Hset & Hget' & _);
    [reflexivity | discriminate | discriminate |].
  by exists ledger1, ledger2.
Defined.

(** X21, witness: the price of USD, stored as 1.5, is set to the empty text. *)
Lemma SetCurrencyPrice_to_the_empty_text_witness :
  ∃ ledger1,
    OracleContract.SetCurrencyPrice trusted "USD" EmptyString {[ "USD" := "1.5" ]}
      = Ok (tt, ledger1) ∧
    OracleContract.GetCurrencyPrice "USD" ledger1
      = Err (Error ("No price set for currency: " +:+ "USD")).
Proof.
  destruct (SetCurrencyPrice_to_the_empty_text_removes {[ "USD" := "1.5" ]} "USD" "1.5" "2")
    as (ledger1 & Hset & Hget & _); [by vm_compute|].
  by exists ledger1.
Defined.

(** X22, witness: the trusted organisation adds USD at 1.5 to an empty
    ledger. *)
Lemma OracleContract_prices_change_witness :
  ∃ ledger',
    OracleContract.AddCurrency trusted "USD" "1.5" ∅ = Ok (tt, ledger') ∧
    OracleContract.GetCurrencyPrice "EUR" ledger'
    = match OracleContract.GetCurrencyPrice "EUR" ∅ with
      | Ok (text, _) => Ok (text, ledger')
      | Err e => Err e
      end.
Proof.
  destruct (OracleContract.AddCurrency trusted "USD" "1.5" ∅) as [[[] ledger']|e] eqn:Hrun;
    [|vm_compute in Hrun; discriminate Hrun].
  destruct (OracleContract_prices_change_only_by_the_trusted ∅ ledger' trusted "USD" "1.5" tt)
    as (_ & _ & Hother); [by left|].
  exists ledger'. split; [reflexivity|]. by apply Hother.
Defined.

Lemma oracle_contract_env_served (name : string) (ledger : gmap string string) :
  served_by_OracleContract (oracle_contract_env parse_price ledger) name parse_price ledger.
Proof. by intros f currency. Qed.

(** X23, witness: a basket of a and b checked against the oracle contract
    that prices a at 1.5. *)
Lemma CheckAssetVolatility_against_OracleContract_witness :
  ∃ m,
    RiskManagementContract.CheckAssetVolatility
      (oracle_contract_env parse_price {[ "a" := "1.5" ]}) (q (1 # 10)) "OracleContract"
      (basket_world (q 1) ["a"; "b"] [q 4; q 4]) = Err (ChaincodeError m).
Proof.
  exact (CheckAssetVolatility_against_OracleContract
           (oracle_contract_env parse_price {[ "a" := "1.5" ]}) parse_price
           {[ "a" := "1.5" ]} (basket_world (q 1) ["a"; "b"] [q 4; q 4])
           (Build_Basket "basket1" (q 1) ["a"; "b"] [q 4; q 4] [] [] [])
           (q (1 # 10)) "OracleContract"
           (oracle_contract_env_served "OracleContract" {[ "a" := "1.5" ]}) eq_refl).
Defined.

(** X24, witness: a basket of a and b against the oracle contract that
    prices a at 1.5 and b at 2. *)
Lemma UpdateBasketPrices_against_OracleContract_witness :
  BasketContract.UpdateBasketPrices
    (oracle_contract_env parse_price {[ "a" := "1.5"; "b" := "2" ]})
    (basket_world (q 1) ["a"; "b"] [q 4; q 4])
  = Ok (tt, set_basket "basket1"
              (Build_Basket "basket1" (q 1) ["a"; "b"] [q 4; q 4] [] []
                 [q (3 # 2); q 2])
              (basket_world (q 1) ["a"; "b"] [q 4; q 4])).
Proof.
  pose proof (UpdateBasketPrices_against_OracleContract
                (oracle_contract_env parse_price {[ "a" := "1.5"; "b" := "2" ]}) parse_price
                {[ "a" := "1.5"; "b" := "2" ]} (basket_world (q 1) ["a"; "b"] [q 4; q 4])
                (Build_Basket "basket1" (q 1) ["a"; "b"] [q 4; q 4] [] [] [])
                (oracle_contract_env_served _ _) eq_refl) as Hrun.
  assert (mapM (stored_price {[ "a" := "1.5"; "b" := "2" ]}) ["a"; "b"]
          = Some ["1.5"; "2"]) as Htexts by (by vm_compute).
  cbn [Tokens] in Hrun. rewrite Htexts in Hrun. exact Hrun.
Defined.

Local Abbreviation ledger :=
  (token_ledger (Some (Token.Int 100))
     {[ "alice" := Token.Int 70; "bob" := Token.Int 30 ]}).

(** X25, witness: alice, who has 70, transfers 20 to bob, who has 30. *)
Lemma Transfer_conserves_the_balances_witness :
  ∃ l',
    Token.Transfer "alice" "bob" (Token.Int 20) ledger = Ok (true, l') ∧
    Token.balances l' !! "alice" = Some (Token.Int 50) ∧
    Token.balances l' !! "bob" = Some (Token.Int 50) ∧
    circulating l' = circulating ledger.
Proof.
  destruct (Token.Transfer "alice" "bob" (Token.Int 20) ledger) as [[r l']|e] eqn:Hrun;
    [|vm_compute in Hrun; discriminate Hrun].
  destruct (Transfer_conserves_the_balances "alice" "bob" (Token.Int 20) ledger l' r Hrun)
    as ((v & b & [= <-] & _ & Hb & Hfrom & Hto) & _ & Hsum & _).
  vm_compute in Hb. injection Hb as <-.
  exists l'. split_and!; [| exact Hfrom | exact Hto | exact Hsum].
  destruct r; [reflexivity|]. vm_compute in Hrun. discriminate Hrun.
Defined.

(** X26, witness: alice, who has 70, transfers 20 to carol, who has no
    balance. *)
Lemma Transfer_succeeds_iff_witness :
  ∃ r l', Token.Transfer "alice" "carol" (Token.Int 20) ledger = Ok (r, l').
Proof.
  destruct (Transfer_succeeds_iff "alice" "carol" ledger 20 70 None) as [[_ Hgo] _];
    try reflexivity.
  apply Hgo. split_and!; [discriminate | discriminate | lia | lia].
Defined.

(** X27, witness: after 5 are minted for bob on a ledger without allowances,
    a spender cannot transfer from alice. *)
Lemma TransferFrom_needs_an_allowance_witness :
  ∃ l' m,
    Token.Mint "bob" (Token.Int 5) ledger = Ok (true, l') ∧
    Token.TransferFrom "spender" "alice" "bob" (Token.Int 1) l' = Err (Error m).
Proof.
  destruct (Token.Mint "bob" (Token.Int 5) ledger) as [[r l']|e] eqn:Hrun;
    [|vm_compute in Hrun; discriminate Hrun].
  destruct (TransferFrom_needs_an_allowance_that_is_never_given ledger l') as [_ Hnever].
  - eapply rtc_once, step_Mint. exact Hrun.
  - destruct (Hnever eq_refl "spender" "alice" "bob" (Token.Int 1)) as [m Hm].
    exists l', m. split; [|exact Hm].
    destruct r; [reflexivity|]. vm_compute in Hrun. discriminate Hrun.
Defined.

Lemma ledger_backed : backed ledger.
Proof.
  split.
  - intros account Hnan. cbn in Hnan.
    apply lookup_insert_Some in Hnan as [[_ [=]]|[_ Hnan]].
    by apply lookup_singleton_Some in Hnan as [_ [=]].
  - by vm_compute.
Qed.

(** X28, witness: 5 are minted for bob on a ledger whose total supply of 100
    is the sum of the balances 70 and 30. *)
Lemma total_supply_stays_backed_witness :
  ∃ l', Token.Mint "bob" (Token.Int 5) ledger = Ok (true, l') ∧ backed l'.
Proof.
  destruct (Token.Mint "bob" (Token.Int 5) ledger) as [[r l']|e] eqn:Hrun;
    [|vm_compute in Hrun; discriminate Hrun].
  destruct (total_supply_stays_backed ledger l' ledger_backed) as (_ & _ & _ & Hmint & _).
  exists l'. split; [|exact (Hmint "bob" 5%Z r Hrun)].
  destruct r; [reflexivity|]. vm_compute in Hrun. discriminate Hrun.
Defined.

(** X29, witness: 50 are burnt from bob, who has 30. *)
Lemma Burn_checks_no_funds_witness :
  Token.Burn "bob" (Token.Int 50) ledger
  = Ok (true, Token.set_balance "bob" (Token.Int (30 - 50))
                (Token.set_totalSupply (Token.Int (100 - 50)) ledger)).
Proof.
  pose proof (Burn_checks_no_funds "bob" 50 100 ledger) as Hburn.
  assert (Token.balances ledger !! "bob" = Some (Token.Int 30)) as Hbob by (by vm_compute).
  rewrite Hbob in Hburn. apply Hburn; (discriminate || reflexivity).
Defined.

(** X30, witness: a ledger without a name is initialized as Alpha. *)
Lemma InitLedger_once_with_a_name_witness :
  ∃ l',
    Token.InitLedger "Alpha" "ALP" "2"
      (Token.Build_Ledger EmptyString EmptyString EmptyString None ∅ ∅) = Ok (true, l') ∧
    Token.TokenName l' = Ok ("Alpha", l') ∧
    Token.InitLedger "Beta" "BET" "2" l' = Err (Error "Contract is already initialized").
Proof.
  destruct (InitLedger_once_with_a_name
              (Token.Build_Ledger EmptyString EmptyString EmptyString None ∅ ∅)
              "Alpha" "ALP" "2" eq_refl) as (l' & Hinit & _ & Hname).
  rewrite bool_decide_eq_false_2 in Hname by discriminate.
  destruct Hname as [Hname Hagain].
  exists l'. split_and!; [exact Hinit | exact Hname | apply Hagain].
Defined.
End scenarios_more3.
